(** * AgentOps orchestrator: task decomposition and dependency-aware execution

    A shallow embedding of [agentops/orchestrator/agent_orchestrator.py] and
    [agentops/orchestrator/llm_decomposer.py].

    Python objects live in a heap (a list of [AgentTask] records; a reference
    is a position in it), so that the aliasing between the [subtasks] list of
    [coordinate], the list returned by [get_ready_tasks] and the argument of
    [execute_task] is the one of the source.  Code that reads or writes
    attributes, calls workers or raises is written in a state-and-exception
    monad [M].  Everything outside the repository (the clock, [asyncio.sleep],
    the workers, the LLM client, [json.loads]) acts on an abstract [World]. *)

From stdpp Require Import base list strings pretty.
From Stdlib Require Import ZArith String Ascii Lia.

Open Scope string_scope.
Open Scope list_scope.

(** ** Python string operations used by the source *)

Module Py.

(** [str.lower] on ASCII text. *)
Definition lower_ascii (c : ascii) : ascii :=
  let n := nat_of_ascii c in
  if (65 <=? n)%nat && (n <=? 90)%nat then ascii_of_nat (n + 32) else c.

Fixpoint lower (s : string) : string :=
  match s with
  | EmptyString => EmptyString
  | String c s' => String (lower_ascii c) (lower s')
  end.

(** [needle in hay] for strings. *)
Fixpoint str_in (needle hay : string) : bool :=
  String.prefix needle hay ||
  match hay with
  | EmptyString => false
  | String _ hay' => str_in needle hay'
  end.

(** [s.startswith(p)]. *)
Definition startswith (s p : string) : bool := String.prefix p s.

Definition is_space (c : ascii) : bool :=
  let n := nat_of_ascii c in
  ((9 <=? n)%nat && (n <=? 13)%nat) || (n =? 32)%nat || ((28 <=? n)%nat && (n <=? 31)%nat).

Fixpoint lstrip (s : string) : string :=
  match s with
  | EmptyString => EmptyString
  | String c s' => if is_space c then lstrip s' else s
  end.

(** [rstrip] keeps a character when it is not a space or when something
    that is kept follows it. *)
Fixpoint rstrip (s : string) : string :=
  match s with
  | EmptyString => EmptyString
  | String c s' =>
      match rstrip s' with
      | EmptyString => if is_space c then EmptyString else String c EmptyString
      | r => String c r
      end
  end.

(** [s.strip()]. *)
Definition strip (s : string) : string := rstrip (lstrip s).

(** [s.split(sep)] for a non-empty separator: [skip] counts the characters
    of a separator occurrence still to be dropped, [cur] is the piece being
    read. *)
Fixpoint split_go (sep : string) (skip : nat) (cur : string) (s : string) : list string :=
  match s with
  | EmptyString => [cur]
  | String c s' =>
      match skip with
      | S k => split_go sep k cur s'
      | O =>
          if String.prefix sep s
          then cur :: split_go sep (String.length sep - 1) EmptyString s'
          else split_go sep 0 (cur +:+ String c EmptyString) s'
      end
  end.

Definition split (s sep : string) : list string := split_go sep 0 EmptyString s.

(** [", ".join(l)] and friends. *)
Fixpoint join (sep : string) (l : list string) : string :=
  match l with
  | [] => EmptyString
  | [x] => x
  | x :: l' => x +:+ sep +:+ join sep l'
  end.

End Py.

(** ** Exceptions and results *)

(** The exceptions the modelled code can see; [str e] is [exn_str]. *)
Inductive exn : Type :=
  | IndexError                 (* list index out of range *)
  | KeyError (key : string)    (* missing dictionary key *)
  | Error (msg : string).      (* any other [Exception] *)

Definition exn_str (e : exn) : string :=
  match e with
  | IndexError => "list index out of range"
  | KeyError k => "'" +:+ k +:+ "'"
  | Error msg => msg
  end.

(** Result of running a piece of code: a value, a raised exception, or
    [Fault], which has no Python counterpart (a dangling reference, or a
    loop that outlived its bound) and is shown never to happen. *)
Inductive Res (A : Type) : Type :=
  | Ok (a : A)
  | Raise (e : exn)
  | Fault.
Arguments Ok {A} a.
Arguments Raise {A} e.
Arguments Fault {A}.

#[global] Instance Res_ret : MRet Res := λ A a, Ok a.

#[global] Instance Res_bind : MBind Res := λ A B f m,
  match m with
  | Ok a => f a
  | Raise e => Raise e
  | Fault => Fault
  end.

(** [l[i]] on a Python list. *)
Definition py_index {A} (l : list A) (i : nat) : Res A :=
  match l !! i with
  | Some x => Ok x
  | None => Raise IndexError
  end.

(** ** Data model *)

Inductive Status : Type := Pending | Running | Completed | Failed.

#[global] Instance Status_eq_dec : EqDecision Status.
Proof. solve_decision. Defined.

Definition Timestamp : Type := string.

(** class AgentTask *)
Record AgentTask : Type := mkAgentTask {
  task_id : string;
  description : string;
  agent_type : string;
  dependencies : list string;
  estimated_duration : Z;
  status : Status;
  result : option string;
  error : option string;
  assigned_agent : option string;
  started_at : option Timestamp;
  completed_at : option Timestamp;
  retry_count : nat;
  max_retries : nat
}.

(** AgentTask.__init__ *)
Definition AgentTask_init (task_id description agent_type : string)
    (dependencies : option (list string)) (estimated_duration : Z) : AgentTask :=
  {| task_id := task_id;
     description := description;
     agent_type := agent_type;
     dependencies := default [] dependencies;   (* dependencies or [] *)
     estimated_duration := estimated_duration;
     status := Pending;
     result := None;
     error := None;
     assigned_agent := None;
     started_at := None;
     completed_at := None;
     retry_count := 0;
     max_retries := 2 |}.

(** Attribute assignments [task.f = v]. *)
Definition with_status (v : Status) (t : AgentTask) : AgentTask :=
  mkAgentTask (task_id t) (description t) (agent_type t) (dependencies t)
    (estimated_duration t) v (result t) (error t) (assigned_agent t)
    (started_at t) (completed_at t) (retry_count t) (max_retries t).

Definition with_result (v : option string) (t : AgentTask) : AgentTask :=
  mkAgentTask (task_id t) (description t) (agent_type t) (dependencies t)
    (estimated_duration t) (status t) v (error t) (assigned_agent t)
    (started_at t) (completed_at t) (retry_count t) (max_retries t).

Definition with_error (v : option string) (t : AgentTask) : AgentTask :=
  mkAgentTask (task_id t) (description t) (agent_type t) (dependencies t)
    (estimated_duration t) (status t) (result t) v (assigned_agent t)
    (started_at t) (completed_at t) (retry_count t) (max_retries t).

Definition with_assigned_agent (v : option string) (t : AgentTask) : AgentTask :=
  mkAgentTask (task_id t) (description t) (agent_type t) (dependencies t)
    (estimated_duration t) (status t) (result t) (error t) v
    (started_at t) (completed_at t) (retry_count t) (max_retries t).

Definition with_started_at (v : option Timestamp) (t : AgentTask) : AgentTask :=
  mkAgentTask (task_id t) (description t) (agent_type t) (dependencies t)
    (estimated_duration t) (status t) (result t) (error t) (assigned_agent t)
    v (completed_at t) (retry_count t) (max_retries t).

Definition with_completed_at (v : option Timestamp) (t : AgentTask) : AgentTask :=
  mkAgentTask (task_id t) (description t) (agent_type t) (dependencies t)
    (estimated_duration t) (status t) (result t) (error t) (assigned_agent t)
    (started_at t) v (retry_count t) (max_retries t).

Definition with_retry_count (v : nat) (t : AgentTask) : AgentTask :=
  mkAgentTask (task_id t) (description t) (agent_type t) (dependencies t)
    (estimated_duration t) (status t) (result t) (error t) (assigned_agent t)
    (started_at t) (completed_at t) v (max_retries t).

(** AgentTask.to_dict: the snapshot stored in results and in memory. *)
Record TaskDict : Type := mkTaskDict {
  td_task_id : string;
  td_description : string;
  td_agent_type : string;
  td_dependencies : list string;
  td_estimated_duration : Z;
  td_status : Status;
  td_result : option string;
  td_error : option string;
  td_assigned_agent : option string;
  td_started_at : option Timestamp;
  td_completed_at : option Timestamp;
  td_retry_count : nat
}.

Definition to_dict (t : AgentTask) : TaskDict :=
  mkTaskDict (task_id t) (description t) (agent_type t) (dependencies t)
    (estimated_duration t) (status t) (result t) (error t) (assigned_agent t)
    (started_at t) (completed_at t) (retry_count t).

(** One entry of the list the decomposer returns ([List[Dict[str, Any]]]):
    a dictionary in which each of the keys the orchestrator reads may be
    missing; present values are taken at the types [AgentTask] declares
    (strings, [List[str]] for the prerequisites).  A reply with values of
    other types is outside this model: the code stores them unchecked, and
    a prerequisite that is not a string makes [', '.join(task.dependencies)]
    in [coordinate] raise.  That [coordinate] never raises is therefore
    stated for runs that read no reply. *)
Record SubtaskDict : Type := mkSubtaskDict {
  d_task_id : option string;
  d_description : option string;
  d_agent_type : option string;
  d_dependencies : option (list string);
  d_estimated_duration : option Z
}.

(** [st[key]] on such a dictionary. *)
Definition dict_item {A} (key : string) (v : option A) : Res A :=
  match v with
  | Some x => Ok x
  | None => Raise (KeyError key)
  end.

(** ** The world outside the repository *)

(** What a call into foreign code gives back. *)
Inductive Outcome (A : Type) : Type :=
  | Returned (a : A)
  | Threw (e : exn).
Arguments Returned {A} a.
Arguments Threw {A} e.

(** The clock, [asyncio.sleep(1)] and [json.loads].  Workers and the LLM
    client, which are objects handed to the orchestrator, get their own
    records below; all of them act on [World]. *)
Class Env : Type := {
  World : Type;
  now : World → Timestamp;                            (* datetime.now().isoformat() *)
  sleep : World → World;                              (* await asyncio.sleep(1) *)
  json_loads : string → Outcome (list SubtaskDict)    (* json.loads *)
}.

(** What [agent.execute] returns: an object with an [output] attribute, or
    any other object, known by its [str]. *)
Inductive ExecResult : Type :=
  | WithOutput (output : string)
  | Plain (str : string).

(** [result.output if hasattr(result, 'output') else str(result)] *)
Definition result_text (r : ExecResult) : string :=
  match r with
  | WithOutput output => output
  | Plain str => str
  end.

(** A reference to an [AgentTask] object: its position in the heap. *)
Definition ref : Type := nat.

(** A dictionary that keeps insertion order, as Python's does. *)
Fixpoint dict_get {V} (k : string) (d : list (string * V)) : option V :=
  match d with
  | [] => None
  | (k', v) :: d' => if decide (k' = k) then Some v else dict_get k d'
  end.

Fixpoint dict_set {V} (k : string) (v : V) (d : list (string * V)) : list (string * V) :=
  match d with
  | [] => [(k, v)]
  | (k', v') :: d' => if decide (k' = k) then (k, v) :: d' else (k', v') :: dict_set k v d'
  end.

Definition dict_keys {V} (d : list (string * V)) : list string := d.*1.

(** The orchestration result dictionary ([duration_seconds], a float, is
    left out). *)
Record OrchestrationResult : Type := mkResult {
  r_orchestrator_id : string;
  r_task : string;
  r_subtasks : list TaskDict;
  r_total_subtasks : nat;
  r_completed : nat;
  r_failed : nat;
  r_success : bool;
  r_final_output : string;
  r_started_at : Timestamp;
  r_completed_at : Timestamp
}.

(** What the optional memory sink receives. *)
Inductive MemValue : Type :=
  | MemText (s : string)
  | MemTasks (l : list TaskDict)
  | MemAgent (type : string) (timestamp : Timestamp).

Inductive MemWrite : Type :=
  | Store (key : string) (value : MemValue) (level : string)
  | StoreFact (text : string) (source : string).

(** History of what a run did, kept beside the state to state temporal
    properties: status assignments, worker calls, back-off sleeps, and the
    two messages [coordinate] prints about its loop (the start of an
    iteration, and the warning when pending tasks are stuck). *)
Inductive Event : Type :=
  | StatusSet (task : ref) (s : Status)
  | Invoked (task : ref) (description : string)
  | Slept (task : ref)
  | Iteration (iteration : nat) (ready_tasks : list ref)
  | StallWarning (pending : list ref).

#[global] Instance Event_eq_dec : EqDecision Event.
Proof. solve_decision. Defined.

Section Engine.
Context `{Env}.

(** A worker: an object with an [execute] coroutine. *)
Record Agent : Type := mkAgent {
  execute : string → World → Outcome ExecResult * World
}.

(** class LLMTaskDecomposer: [messages_create task agents] stands for
    [self.client.messages.create(...)] on the prompt built from the two
    strings, followed by [response.content[0].text]. *)
Record LLMTaskDecomposer : Type := mkDecomposer {
  api_key : string;
  messages_create : string → list string → World → Outcome string * World
}.

(** class AgentOrchestrator.  [memory] tells whether a sink is attached;
    what was written to it, and [execution_history], are in [State]. *)
Record AgentOrchestrator : Type := mkOrchestrator {
  orchestrator_id : string;
  agents : list (string * Agent);
  memory : bool;
  use_llm : bool;
  decomposer : option LLMTaskDecomposer
}.

Record State : Type := mkState {
  heap : list AgentTask;
  world : World;
  memory_log : list MemWrite;
  execution_history : list OrchestrationResult;
  trace : list Event
}.

Definition set_heap (h : list AgentTask) (s : State) : State :=
  mkState h (world s) (memory_log s) (execution_history s) (trace s).
Definition set_world (w : World) (s : State) : State :=
  mkState (heap s) w (memory_log s) (execution_history s) (trace s).
Definition set_memory_log (m : list MemWrite) (s : State) : State :=
  mkState (heap s) (world s) m (execution_history s) (trace s).
Definition set_execution_history (h : list OrchestrationResult) (s : State) : State :=
  mkState (heap s) (world s) (memory_log s) h (trace s).
Definition set_trace (t : list Event) (s : State) : State :=
  mkState (heap s) (world s) (memory_log s) (execution_history s) t.

(** *** The monad *)

Definition M (A : Type) : Type := State → Res A * State.

#[global] Instance M_ret : MRet M := λ A a s, (Ok a, s).

#[global] Instance M_bind : MBind M := λ A B f m s,
  match m s with
  | (Ok a, s') => f a s'
  | (Raise e, s') => (Raise e, s')
  | (Fault, s') => (Fault, s')
  end.

Definition raise {A} (e : exn) : M A := λ s, (Raise e, s).
Definition fault {A} : M A := λ s, (Fault, s).

(** Lifting a pure computation that may raise. *)
Definition lift {A} (r : Res A) : M A := λ s, (r, s).

(** [try: body except Exception as e: handler e] *)
Definition try_except {A} (body : M A) (handler : exn → M A) : M A := λ s,
  match body s with
  | (Raise e, s') => handler e s'
  | r => r
  end.

(** Reading and writing attributes of the object behind a reference. *)
Definition deref (r : ref) : M AgentTask := λ s,
  match heap s !! r with
  | Some t => (Ok t, s)
  | None => (Fault, s)
  end.

Definition attr {A} (f : AgentTask → A) (r : ref) : M A :=
  t ← deref r; mret (f t).

Definition assign (r : ref) (upd : AgentTask → AgentTask) : M unit := λ s,
  match heap s !! r with
  | Some t => (Ok tt, set_heap (<[r := upd t]> (heap s)) s)
  | None => (Fault, s)
  end.

Definition emit (e : Event) : M unit := λ s, (Ok tt, set_trace (trace s ++ [e]) s).

(** [task.status = v] *)
Definition set_status (r : ref) (v : Status) : M unit :=
  assign r (with_status v) ;; emit (StatusSet r v).

(** [AgentTask(...)]: allocates the object. *)
Definition new_AgentTask (task_id description agent_type : string)
    (dependencies : option (list string)) (estimated_duration : Z) : M ref := λ s,
  (Ok (List.length (heap s)),
   set_heap (heap s ++ [AgentTask_init task_id description agent_type
                          dependencies estimated_duration]) s).

(** [datetime.now().isoformat()] *)
Definition clock : M Timestamp := λ s, (Ok (now (world s)), s).

(** [await asyncio.sleep(1)] inside [execute_task task] *)
Definition asyncio_sleep (task : ref) : M unit := λ s,
  (Ok tt, set_trace (trace s ++ [Slept task]) (set_world (sleep (world s)) s)).

(** [await agent.execute(description)] inside [execute_task task]; the
    exception, if any, is handed to the caller's [except] clause as a
    value. *)
Definition call_agent (task : ref) (agent : Agent) (description : string)
    : M (Outcome ExecResult) := λ s,
  let '(r, w) := execute agent description (world s) in
  (Ok r, set_trace (trace s ++ [Invoked task description]) (set_world w s)).

(** [if self.memory: self.memory.store(key, value, level=level)].  The sink
    belongs to a library outside the repository; its [store] is taken to
    return. *)
Definition memory_store (o : AgentOrchestrator) (key : string) (value : MemValue)
    (level : string) : M unit := λ s,
  if memory o
  then (Ok tt, set_memory_log (memory_log s ++ [Store key value level]) s)
  else (Ok tt, s).

(** [self.memory.store_fact(text, confidence=0.95, source=source)] *)
Definition memory_store_fact (text source : string) : M unit := λ s,
  (Ok tt, set_memory_log (memory_log s ++ [StoreFact text source]) s).

(** [self.execution_history.append(result)] *)
Definition history_append (result : OrchestrationResult) : M unit := λ s,
  (Ok tt, set_execution_history (execution_history s ++ [result]) s).

(** [for x in l: body x] *)
Fixpoint for_each {A} (l : list A) (body : A → M unit) : M unit :=
  match l with
  | [] => mret tt
  | x :: l' => body x ;; for_each l' body
  end.

(** [[f(x) for x in l]] *)
Fixpoint list_comp {A B} (l : list A) (f : A → M B) : M (list B) :=
  match l with
  | [] => mret []
  | x :: l' => y ← f x; ys ← list_comp l' f; mret (y :: ys)
  end.

(** [[x for x in l if p(x)]] *)
Fixpoint list_filter {A} (l : list A) (p : A → M bool) : M (list A) :=
  match l with
  | [] => mret []
  | x :: l' => b ← p x; ys ← list_filter l' p; mret (if b : bool then x :: ys else ys)
  end.

(** [any(p(x) for x in l)]: stops at the first hit. *)
Fixpoint any {A} (l : list A) (p : A → M bool) : M bool :=
  match l with
  | [] => mret false
  | x :: l' => b ← p x; if b : bool then mret true else any l' p
  end.

(** Foreign code that raises: the exception propagates. *)
Definition foreign {A} (f : World → Outcome A * World) : M A := λ s,
  match f (world s) with
  | (Returned a, w) => (Ok a, set_world w s)
  | (Threw e, w) => (Raise e, set_world w s)
  end.

Definition of_outcome {A} (r : Outcome A) : Res A :=
  match r with
  | Returned a => Ok a
  | Threw e => Raise e
  end.

(** *** llm_decomposer.py *)

(** LLMTaskDecomposer._fallback_decompose *)
Definition decomposer_fallback_decompose (task : string) (agents : list string)
    : list SubtaskDict :=
  [ {| d_task_id := Some "task-1";
       d_description := Some task;
       d_agent_type := Some (match agents with a :: _ => a | [] => "general" end);
       d_dependencies := Some [];
       d_estimated_duration := Some 3%Z |} ].

(** The markdown fence removal in [decompose]. *)
Definition extract_json (text : string) : Res string :=
  let content := Py.strip text in
  if Py.startswith content "```json" then
    a ← py_index (Py.split content "```json") 1;
    b ← py_index (Py.split a "```") 0;
    mret (Py.strip b)
  else if Py.startswith content "```" then
    a ← py_index (Py.split content "```") 1;
    b ← py_index (Py.split a "```") 0;
    mret (Py.strip b)
  else mret content.

(** The [try] block of LLMTaskDecomposer.decompose: the call to the
    model, the fence removal and the JSON decoding. *)
Definition ask_llm (d : LLMTaskDecomposer) (complex_task : string)
    (available_agents : list string) : M (list SubtaskDict) :=
  text ← foreign (messages_create d complex_task available_agents);
  content ← lift (extract_json text);
  subtasks ← lift (of_outcome (json_loads content));
  mret subtasks.

(** LLMTaskDecomposer.decompose *)
Definition decomposer_decompose (d : LLMTaskDecomposer) (complex_task : string)
    (available_agents : list string) : M (list SubtaskDict) :=
  try_except
    (ask_llm d complex_task available_agents)
    (λ e, mret (decomposer_fallback_decompose complex_task available_agents)).

(** *** agent_orchestrator.py *)

(** AgentOrchestrator.register_agent *)
Definition register_agent (o : AgentOrchestrator) (agent_type : string)
    (agent_instance : Agent) : M AgentOrchestrator :=
  let o' := mkOrchestrator (orchestrator_id o)
              (dict_set agent_type agent_instance (agents o))
              (memory o) (use_llm o) (decomposer o) in
  t ← clock;
  memory_store o' ("agent_" +:+ agent_type +:+ "_registered")
    (MemAgent agent_type t) "long_term" ;;
  mret o'.

(** [name if name in agents else agents[0]] *)
Definition agent_or_first (name : string) (agents : list string) : Res string :=
  if bool_decide (name ∈ agents) then Ok name else py_index agents 0.

(** [[subtasks[-1].task_id] if subtasks else []] *)
Definition previous_task_id (subtasks : list ref) : M (list string) :=
  match last subtasks with
  | Some t => id ← attr task_id t; mret [id]
  | None => mret []
  end.

(** AgentOrchestrator._fallback_decompose, one [if] block at a time: each
    of the three keyword blocks appends a subtask when its keyword occurs
    in the lowercased text, the last one appends the default subtask when
    none did. *)
Definition research_block (task task_lower : string) (agents : list string)
    (subtasks : list ref) : M (list ref) :=
  if Py.str_in "research" task_lower || Py.str_in "find" task_lower then
    ty ← lift (agent_or_first "research" agents);
    t ← new_AgentTask "task-1" ("Research: " +:+ task) ty None 3;
    mret (subtasks ++ [t])
  else mret subtasks.

Definition analyze_block (task_lower : string) (agents : list string)
    (subtasks : list ref) : M (list ref) :=
  if Py.str_in "analyze" task_lower then
    ty ← lift (agent_or_first "analysis" agents);
    deps ← previous_task_id subtasks;
    t ← new_AgentTask ("task-" +:+ pretty (List.length subtasks + 1))
          "Analyze findings" ty (Some deps) 3;
    mret (subtasks ++ [t])
  else mret subtasks.

Definition write_block (task_lower : string) (agents : list string)
    (subtasks : list ref) : M (list ref) :=
  if Py.str_in "write" task_lower || Py.str_in "report" task_lower then
    ty ← lift (agent_or_first "writing" agents);
    deps ← previous_task_id subtasks;
    t ← new_AgentTask ("task-" +:+ pretty (List.length subtasks + 1))
          "Write report" ty (Some deps) 3;
    mret (subtasks ++ [t])
  else mret subtasks.

Definition default_block (task : string) (agents : list string)
    (subtasks : list ref) : M (list ref) :=
  match subtasks with
  | [] =>
      t ← new_AgentTask "task-1" task
            (match agents with a :: _ => a | [] => "general" end) None 3;
      mret (subtasks ++ [t])
  | _ => mret subtasks
  end.

Definition _fallback_decompose (task : string) (agents : list string) : M (list ref) :=
  let subtasks : list ref := [] in
  let task_lower := Py.lower task in
  subtasks ← research_block task task_lower agents subtasks;
  subtasks ← analyze_block task_lower agents subtasks;
  subtasks ← write_block task_lower agents subtasks;
  subtasks ← default_block task agents subtasks;
  mret subtasks.

(** The [AgentTask(...)] built from one decomposer entry. *)
Definition task_of_dict (st : SubtaskDict) : M ref :=
  id ← lift (dict_item "task_id" (d_task_id st));
  descr ← lift (dict_item "description" (d_description st));
  ty ← lift (dict_item "agent_type" (d_agent_type st));
  new_AgentTask id descr ty
    (Some (default [] (d_dependencies st)))       (* st.get("dependencies", []) *)
    (default 3%Z (d_estimated_duration st)).       (* st.get("estimated_duration", 3) *)

(** AgentOrchestrator.decompose_task: the [try] returns the subtasks, its
    [except] clause falls through to the keyword fallback. *)
Definition decompose_task (o : AgentOrchestrator) (task : string) : M (list ref) :=
  let available_agents := dict_keys (agents o) in
  from_llm ←
    match use_llm o, decomposer o with
    | true, Some d =>
        try_except
          (subtask_dicts ← decomposer_decompose d task available_agents;
           subtasks ← list_comp subtask_dicts task_of_dict;
           mret (Some subtasks))
          (λ e, mret None)
    | _, _ => mret None
    end;
  match from_llm with
  | Some subtasks => mret subtasks
  | None => _fallback_decompose task available_agents
  end.

(** The [while task.retry_count <= task.max_retries] loop of
    [execute_task].  Each failed attempt increments [retry_count], so
    [S max_retries - retry_count] iterations are enough; [fuel] is that
    bound. *)
Fixpoint retry_loop (o : AgentOrchestrator) (agent : Agent) (task : ref)
    (fuel : nat) : M ref :=
  rc ← attr retry_count task;
  mr ← attr max_retries task;
  if bool_decide (rc ≤ mr)%nat then
    match fuel with
    | O => fault
    | S fuel' =>
        descr ← attr description task;
        r ← call_agent task agent descr;
        match r with
        | Returned res =>
            set_status task Completed ;;
            assign task (with_result (Some (result_text res))) ;;
            t ← clock;
            assign task (with_completed_at (Some t)) ;;
            id ← attr task_id task;
            memory_store o ("task_" +:+ id +:+ "_result")
              (MemText (result_text res)) "working" ;;
            mret task
        | Threw e =>
            assign task (with_retry_count (rc + 1)) ;;
            rc ← attr retry_count task;
            mr ← attr max_retries task;
            (if bool_decide (mr < rc)%nat then      (* retry_count > max_retries *)
               set_status task Failed ;;
               assign task (with_error
                 (Some ("Failed after " +:+ pretty mr +:+ " retries: " +:+ exn_str e))) ;;
               t ← clock;
               assign task (with_completed_at (Some t))
             else asyncio_sleep task) ;;
            retry_loop o agent task fuel'
        end
    end
  else mret task.

(** AgentOrchestrator.execute_task.  Registered workers are ordinary objects,
    so [not agent] holds exactly when the lookup finds nothing. *)
Definition execute_task (o : AgentOrchestrator) (task : ref) : M ref :=
  ty ← attr agent_type task;
  match dict_get ty (agents o) with
  | None =>
      set_status task Failed ;;
      assign task (with_error (Some ("No agent registered for type: " +:+ ty))) ;;
      mret task
  | Some agent =>
      set_status task Running ;;
      t ← clock;
      assign task (with_started_at (Some t)) ;;
      assign task (with_assigned_agent (Some ty)) ;;
      rc ← attr retry_count task;
      mr ← attr max_retries task;
      retry_loop o agent task (S mr - rc)%nat
  end.

(** [next((t for t in tasks if t.task_id == dep_id), None)] *)
Fixpoint find_task (tasks : list ref) (dep_id : string) : M (option ref) :=
  match tasks with
  | [] => mret None
  | t :: tasks' =>
      id ← attr task_id t;
      if decide (id = dep_id) then mret (Some t) else find_task tasks' dep_id
  end.

(** The inner loop of [get_ready_tasks]: the value of [deps_met] when the
    loop over [task.dependencies] ends or breaks. *)
Fixpoint check_dependencies (tasks : list ref) (deps : list string) : M bool :=
  match deps with
  | [] => mret true
  | dep_id :: deps' =>
      dep_task ← find_task tasks dep_id;
      match dep_task with
      | None => mret false
      | Some d =>
          st ← attr status d;
          if decide (st ≠ Completed) then mret false
          else check_dependencies tasks deps'
      end
  end.

(** The outer loop of [get_ready_tasks] over the tasks still [todo]. *)
Fixpoint ready_loop (tasks todo ready : list ref) : M (list ref) :=
  match todo with
  | [] => mret ready
  | task :: todo' =>
      st ← attr status task;
      if decide (st ≠ Pending) then ready_loop tasks todo' ready
      else
        deps ← attr dependencies task;
        deps_met ← check_dependencies tasks deps;
        ready_loop tasks todo' (if deps_met : bool then ready ++ [task] else ready)
  end.

(** AgentOrchestrator.get_ready_tasks *)
Definition get_ready_tasks (tasks : list ref) : M (list ref) :=
  ready_loop tasks tasks [].

Definition has_status (v : Status) (t : ref) : M bool :=
  st ← attr status t; mret (bool_decide (st = v)).

Definition max_iterations : nat := 50.

Definition nl : string := String "010"%char EmptyString.

(** The [while any(pending) and iteration < max_iterations] loop of
    [coordinate]; it returns the final value of [iteration].  The loop
    runs at most [max_iterations] times, and [fuel] is what is left of
    that bound.  [asyncio.gather] over the ready tasks is run one task
    after the other: a task's [execute_task] writes to its own object
    only, and the workers' answers come from the world, which is
    arbitrary. *)
Fixpoint coordinate_loop (o : AgentOrchestrator) (subtasks : list ref)
    (fuel iteration : nat) : M nat :=
  pending ← any subtasks (has_status Pending);
  if (pending : bool) && bool_decide (iteration < max_iterations)%nat then
    match fuel with
    | O => fault
    | S fuel' =>
        let iteration := (iteration + 1)%nat in
        ready_tasks ← get_ready_tasks subtasks;
        match ready_tasks with
        | [] =>
            pending ← list_filter subtasks (has_status Pending);
            match pending with
            | [] => mret tt
            | _ => emit (StallWarning pending)
            end ;;
            mret iteration                                    (* break *)
        | _ =>
            emit (Iteration iteration ready_tasks) ;;
            for_each ready_tasks (λ task, execute_task o task ;; mret tt) ;;
            coordinate_loop o subtasks fuel' iteration
        end
    end
  else mret iteration.

(** AgentOrchestrator.coordinate *)
Definition coordinate (o : AgentOrchestrator) (complex_task : string)
    : M OrchestrationResult :=
  start_time ← clock;
  subtasks ← decompose_task o complex_task;
  (if memory o then
     memory_store o "orchestration_task" (MemText complex_task) "working" ;;
     dicts ← list_comp subtasks (attr to_dict);
     memory_store o "subtasks" (MemTasks dicts) "working"
   else mret tt) ;;
  coordinate_loop o subtasks max_iterations 0 ;;
  completed ← list_filter subtasks (has_status Completed);
  failed ← list_filter subtasks (has_status Failed);
  parts ← list_comp completed (λ t,
    id ← attr task_id t;
    ty ← attr agent_type t;
    res ← attr result t;
    mret (id +:+ " (" +:+ ty +:+ "):" +:+ nl +:+ default "None" res));
  let final_output := Py.join (nl +:+ nl) parts in
  end_time ← clock;
  let success := bool_decide (List.length completed = List.length subtasks) in
  dicts ← list_comp subtasks (attr to_dict);
  let result :=
    {| r_orchestrator_id := orchestrator_id o;
       r_task := complex_task;
       r_subtasks := dicts;
       r_total_subtasks := List.length subtasks;
       r_completed := List.length completed;
       r_failed := List.length failed;
       r_success := success;
       r_final_output := final_output;
       r_started_at := start_time;
       r_completed_at := end_time |} in
  history_append result ;;
  (if memory o && success then
     memory_store_fact ("Successfully orchestrated: " +:+ complex_task) "orchestrator"
   else mret tt) ;;
  mret result.

(** AgentOrchestrator.get_history *)
Definition get_history : M (list OrchestrationResult) :=
  λ s, (Ok (execution_history s), s).

End Engine.

(** ** The ready set, in the words of the specification *)

(** The subtask of the list a prerequisite identifier resolves to: the
    first one carrying that identifier. *)
Definition resolve (h : list AgentTask) (tasks : list ref) (dep_id : string) : option ref :=
  head (filter (λ r, task_id <$> h !! r = Some dep_id) tasks).

Definition resolved_status (h : list AgentTask) (tasks : list ref) (dep_id : string)
    : option Status :=
  d ← resolve h tasks dep_id; status <$> h !! d.

(** A subtask is ready when its status is pending and every prerequisite
    identifier resolves to a completed subtask of the list. *)
Definition ready_spec (h : list AgentTask) (tasks : list ref) (r : ref) : Prop :=
  match h !! r with
  | Some t =>
      status t = Pending ∧
      Forall (λ dep_id, resolved_status h tasks dep_id = Some Completed) (dependencies t)
  | None => False
  end.

#[global] Instance ready_spec_dec h tasks r : Decision (ready_spec h tasks r).
Proof. unfold ready_spec. destruct (h !! r); apply _. Defined.

Definition readySet (h : list AgentTask) (tasks : list ref) : list ref :=
  filter (ready_spec h tasks) tasks.

(** Every reference of the list points to an object. *)
Definition valid_refs (h : list AgentTask) (tasks : list ref) : Prop :=
  Forall (λ r, is_Some (h !! r)) tasks.

(** ** Observations on the history of a run *)

(** The statuses assigned to a task, in order. *)
Definition status_history (task : ref) (tr : list Event) : list Status :=
  omap (λ e, match e with
             | StatusSet r v => if decide (r = task) then Some v else None
             | _ => None
             end) tr.

(** The worker invocations made for a task. *)
Definition invocations (task : ref) (tr : list Event) : nat :=
  List.length (omap (λ e, match e with
                          | Invoked r d => if decide (r = task) then Some d else None
                          | _ => None
                          end) tr).

(** An event of [execute_task task]. *)
Definition about_task (task : ref) (e : Event) : Prop :=
  match e with
  | StatusSet r _ | Invoked r _ | Slept r => r = task
  | _ => False
  end.

(** The attributes [execute_task] never assigns. *)
Definition same_spec (t t' : AgentTask) : Prop :=
  task_id t' = task_id t ∧ description t' = description t ∧
  agent_type t' = agent_type t ∧ dependencies t' = dependencies t ∧
  estimated_duration t' = estimated_duration t ∧ max_retries t' = max_retries t.

(** ** The objects [execute_task] leaves behind *)

Section TaskOutcomes.
Context `{Env}.

(** Dispatched to a registered worker at world [w]. *)
Definition running_task (w : World) (t : AgentTask) : AgentTask :=
  with_assigned_agent (Some (agent_type t))
    (with_started_at (Some (now w)) (with_status Running t)).

(** The worker returned [res], leaving world [w]. *)
Definition completed_task (w : World) (res : ExecResult) (t : AgentTask) : AgentTask :=
  with_completed_at (Some (now w))
    (with_result (Some (result_text res)) (with_status Completed t)).

(** The worker raised [e] on the last attempt allowed. *)
Definition failed_task (w : World) (e : exn) (t : AgentTask) : AgentTask :=
  with_completed_at (Some (now w))
    (with_error (Some ("Failed after " +:+ pretty (max_retries t) +:+ " retries: "
                       +:+ exn_str e))
       (with_status Failed (with_retry_count (retry_count t + 1) t))).

(** No worker is registered for the task's type. *)
Definition rejected_task (t : AgentTask) : AgentTask :=
  with_error (Some ("No agent registered for type: " +:+ agent_type t))
    (with_status Failed t).

(** What a successful attempt writes to the memory sink. *)
Definition result_store (o : AgentOrchestrator) (res : ExecResult) (t : AgentTask)
    : list MemWrite :=
  if memory o
  then [Store ("task_" +:+ task_id t +:+ "_result") (MemText (result_text res)) "working"]
  else [].

End TaskOutcomes.

(** How the retry loop can end for a task that was [t] when the loop
    started, is [t'] when it ends, and produced the events [evs]. *)
Inductive retry_outcome (task : ref) (t t' : AgentTask) (evs : list Event) : Prop :=
  | retry_skipped :
      (max_retries t < retry_count t)%nat → t' = t → evs = [] →
      retry_outcome task t t' evs
  | retry_completed :
      (retry_count t ≤ max_retries t)%nat →
      status t' = Completed →
      (retry_count t ≤ retry_count t' ≤ max_retries t)%nat →
      status_history task evs = [Completed] →
      invocations task evs = (S (retry_count t') - retry_count t)%nat →
      retry_outcome task t t' evs
  | retry_failed :
      (retry_count t ≤ max_retries t)%nat →
      status t' = Failed → retry_count t' = S (max_retries t) →
      status_history task evs = [Failed] →
      invocations task evs = (S (max_retries t) - retry_count t)%nat →
      retry_outcome task t t' evs.

(** ** Worker behaviours and status sequences named by the properties *)

Section Behaviours.
Context `{Env}.

(** From world [w] on, the worker fails on its next [n] invocations for
    [description] (the engine backing off after each) and then succeeds. *)
Fixpoint fails_then_succeeds (agent : Agent) (description : string) (n : nat)
    (w : World) : Prop :=
  match n with
  | O => ∃ res w', execute agent description w = (Returned res, w')
  | S n' => ∃ e w', execute agent description w = (Threw e, w') ∧
                    fails_then_succeeds agent description n' (sleep w')
  end.

(** The worker fails on every invocation for [description]. *)
Definition always_fails (agent : Agent) (description : string) : Prop :=
  ∀ w, ∃ e w', execute agent description w = (Threw e, w').

End Behaviours.

(** A status sequence that goes through running to a terminal state. *)
Definition via_running (observed : list Status) : Prop :=
  observed = [Pending; Running; Completed] ∨ observed = [Pending; Running; Failed].

(** ** Concrete worlds for the examples *)

(** Entries a decomposer could return. *)
Definition entry (id ty : string) (deps : list string) : SubtaskDict :=
  mkSubtaskDict (Some id) (Some ("do " +:+ id)) (Some ty) (Some deps) (Some 1%Z).

(** [task-1], and [task-(k+1)] depending on [task-k], up to [task-n]. *)
Fixpoint chain (n : nat) : list SubtaskDict :=
  match n with
  | O => []
  | S O => [entry "task-1" "general" []]
  | S n' => chain n' ++ [entry ("task-" +:+ pretty n) "general" ["task-" +:+ pretty n']]
  end.

(** An entry whose prerequisite names no subtask. *)
Definition blocked_entry : SubtaskDict := entry "blocked" "general" ["ghost"].

(** An entry without the [task_id] key. *)
Definition nameless_entry : SubtaskDict :=
  mkSubtaskDict None (Some "do it") (Some "general") (Some []) (Some 1%Z).

(** A world that is the list of the answers the workers are going to give,
    in the order in which they are asked; when the list is used up they
    succeed.  The JSON decoder knows three documents. *)
Definition script_env : Env :=
  {| World := list (Outcome ExecResult);
     now := λ w, "t" +:+ pretty (List.length w);
     sleep := λ w, w;
     json_loads := λ content,
       if decide (content = "chain") then Returned (chain 50 ++ [blocked_entry])
       else if decide (content = "blocked") then
         Returned [entry "task-1" "general" []; blocked_entry]
       else if decide (content = "nameless") then Returned [nameless_entry]
       else Threw (Error "Expecting value") |}.

Definition scripted : @Agent script_env :=
  {| execute := λ d (w : @World script_env),
       match w with
       | [] => (Returned (WithOutput ("done: " +:+ d)), [])
       | r :: w' => (r, w')
       end |}.

(** A worker that never succeeds. *)
Definition broken : @Agent script_env :=
  {| execute := λ d (w : @World script_env), (Threw (Error "boom"), w) |}.

(** An LLM client that answers [text], and one that cannot be reached. *)
Definition llm_says (text : string) : @LLMTaskDecomposer script_env :=
  {| api_key := "key";
     messages_create := λ _ _ (w : @World script_env), (Returned text, w) |}.

Definition llm_down : @LLMTaskDecomposer script_env :=
  {| api_key := "key";
     messages_create := λ _ _ (w : @World script_env),
       (Threw (Error "connection refused"), w) |}.

(** Orchestrators: without LLM decomposition, and with a decomposer. *)
Definition keyword_orchestrator (agents : list (string * @Agent script_env))
    : @AgentOrchestrator script_env :=
  mkOrchestrator "orchestrator" agents false false None.

Definition llm_orchestrator (d : @LLMTaskDecomposer script_env)
    (agents : list (string * @Agent script_env)) : @AgentOrchestrator script_env :=
  mkOrchestrator "orchestrator" agents false true (Some d).

(** A state with the given objects and worker answers, and nothing else. *)
Definition state_of (h : list AgentTask) (w : @World script_env) : @State script_env :=
  mkState h w [] [] [].

(** The ready condition when identifiers are unique: the subtask is one of
    the list, it is pending, and every prerequisite identifier is carried by
    a completed subtask of the list. *)
Definition ready_unique (h : list AgentTask) (tasks : list ref) (r : ref) : Prop :=
  r ∈ tasks ∧
  ∃ t, h !! r = Some t ∧ status t = Pending ∧
       ∀ dep_id, dep_id ∈ dependencies t →
                 ∃ d, d ∈ tasks ∧ task_id <$> h !! d = Some dep_id ∧
                      status <$> h !! d = Some Completed.

(** A subtask nobody can run, as the default block of the fallback builds
    it when no worker is registered. *)
Definition general_task : AgentTask := AgentTask_init "task-1" "do something" "general" None 3.

(** Three subtasks in a chain, the first of them completed. *)
Definition demo_heap : list AgentTask :=
  [ with_status Completed (AgentTask_init "task-1" "collect" "general" None 3);
    AgentTask_init "task-2" "analyse" "general" (Some ["task-1"]) 3;
    AgentTask_init "task-3" "publish" "general" (Some ["task-2"]) 3 ].


(** ** Vocabulary for runs of [coordinate] *)

(** The objects behind a list of references. *)
Definition objects (h : list AgentTask) (refs : list ref) : list AgentTask :=
  omap (λ r, h !! r) refs.

Definition has_status_in (h : list AgentTask) (v : Status) (r : ref) : Prop :=
  status <$> h !! r = Some v.

#[global] Instance has_status_in_dec h v r : Decision (has_status_in h v r).
Proof. unfold has_status_in. apply _. Defined.

(** The subtasks still pending. *)
Definition pending_refs (h : list AgentTask) (subtasks : list ref) : list ref :=
  filter (has_status_in h Pending) subtasks.

(** The identifiers of the subtask set. *)
Definition identifiers (h : list AgentTask) (subtasks : list ref) : list string :=
  task_id <$> objects h subtasks.

(** Every prerequisite identifier matches a subtask of the set. *)
Definition resolvable (h : list AgentTask) (subtasks : list ref) : Prop :=
  ∀ t dep_id, t ∈ objects h subtasks → dep_id ∈ dependencies t →
              dep_id ∈ identifiers h subtasks.

(** The dependency graph has no cycle: identifiers can be ranked so that
    every prerequisite ranks below the subtask that needs it. *)
Definition acyclic (h : list AgentTask) (subtasks : list ref) : Prop :=
  ∃ rank : string → nat,
    ∀ t dep_id, t ∈ objects h subtasks → dep_id ∈ dependencies t →
                (rank dep_id < rank (task_id t))%nat.



(** A subtask as [__init__] leaves it. *)
Definition fresh (t : AgentTask) : Prop :=
  status t = Pending ∧ retry_count t = 0%nat ∧ max_retries t = 2%nat.

(** What holds of every subtask between two iterations of the loop of
    [coordinate], [t0] being the subtask as decomposed: it is untouched and
    pending, or it reached a terminal state. *)
Definition task_inv (t0 t : AgentTask) : Prop :=
  same_spec t0 t ∧
  ((t = t0 ∧ status t = Pending ∧ (retry_count t ≤ max_retries t)%nat) ∨
   status t = Completed ∨ status t = Failed).

Definition run_inv (h0 h : list AgentTask) (subtasks : list ref) : Prop :=
  Forall (λ r, ∃ t0 t, h0 !! r = Some t0 ∧ h !! r = Some t ∧ task_inv t0 t) subtasks.

(** How the loop of [coordinate], entered with [i] iterations done and heap
    [h], can end with heap [h'] after the events [evs]: nothing is pending;
    or the stall warning was printed, pending subtasks remaining and none
    being ready; or the cap stopped it, every iteration since having taken
    a subtask out of the pending ones. *)
Definition loop_exit (subtasks : list ref) (i : nat) (h h' : list AgentTask)
    (evs : list Event) : Prop :=
  pending_refs h' subtasks = [] ∨
  (StallWarning (pending_refs h' subtasks) ∈ evs ∧ pending_refs h' subtasks ≠ [] ∧
   readySet h' subtasks = []) ∨
  ((List.length (pending_refs h' subtasks) + (max_iterations - i)
    ≤ List.length (pending_refs h subtasks))%nat ∧
   ((i < max_iterations)%nat → ∃ ready, Iteration max_iterations ready ∈ evs)).

(** ** Allocation by the decomposition *)

Section Allocation.
Context `{Env}.

(** A computation that only observes the state. *)
Definition readonly {A} (m : M A) : Prop := ∀ s, (m s).2 = s.

(** State [s'] is [s] with fresh objects added at the end of the heap. *)
Definition grown (s s' : State) : Prop :=
  ∃ new, heap s' = heap s ++ new ∧ Forall fresh new ∧ trace s' = trace s.

(** A computation that does nothing to the heap but add fresh objects. *)
Definition growing {A} (m : M A) : Prop := ∀ s r s', m s = (r, s') → grown s s'.

(** Distinct references to objects allocated at position [n] or later. *)
Definition new_refs (n : nat) (s : State) (refs : list ref) : Prop :=
  NoDup refs ∧ (n ≤ List.length (heap s))%nat ∧
  Forall (λ r, (n ≤ r < List.length (heap s))%nat) refs.

End Allocation.

(** ** Vocabulary for the further properties *)

(** Whether one of the five markers of the keyword fallback occurs in the
    lowercased task text. *)
Definition has_keyword (task : string) : bool :=
  let task_lower := Py.lower task in
  Py.str_in "research" task_lower || Py.str_in "find" task_lower ||
  Py.str_in "analyze" task_lower ||
  Py.str_in "write" task_lower || Py.str_in "report" task_lower.

(** A text without backquote. *)
Fixpoint no_backquote (s : string) : bool :=
  match s with
  | EmptyString => true
  | String c s' => negb (Ascii.eqb c "`"%char) && no_backquote s'
  end.

(** The identifiers "task-1", "task-2", ... of [n] subtasks. *)
Definition chain_ids (n : nat) : list string :=
  (λ i, "task-" +:+ pretty (S i)) <$> seq 0 n.

(** Subtasks in a chain: the first has no prerequisite, each other one has
    the identifier of the one before it as its only prerequisite. *)
Fixpoint chained (previous : list string) (ts : list AgentTask) : Prop :=
  match ts with
  | [] => True
  | t :: ts' => dependencies t = previous ∧ chained [task_id t] ts'
  end.

(** The worker type a keyword block assigns: the role it names when that
    type is available, else the first available type. *)
Definition pick_agent (name first : string) (agents : list string) : string :=
  if bool_decide (name ∈ agents) then name else first.

(** The prerequisite list a keyword block gives its subtask. *)
Definition previous_id (plan : list AgentTask) : list string :=
  match last plan with
  | Some t => [task_id t]
  | None => []
  end.

(** What one keyword block adds to the subtasks built so far. *)
Definition keyword_step (c : bool) (name descr first : string) (agents : list string)
    (plan : list AgentTask) : list AgentTask :=
  if c then
    plan ++ [AgentTask_init ("task-" +:+ pretty (List.length plan + 1)) descr
               (pick_agent name first agents) (Some (previous_id plan)) 3]
  else plan.

(** The objects the keyword fallback builds when [first] is the first of
    the available types [agents]. *)
Definition keyword_plan (task first : string) (agents : list string) : list AgentTask :=
  let task_lower := Py.lower task in
  let plan :=
    if Py.str_in "research" task_lower || Py.str_in "find" task_lower
    then [AgentTask_init "task-1" ("Research: " +:+ task)
            (pick_agent "research" first agents) None 3]
    else [] in
  let plan := keyword_step (Py.str_in "analyze" task_lower)
                "analysis" "Analyze findings" first agents plan in
  let plan := keyword_step (Py.str_in "write" task_lower || Py.str_in "report" task_lower)
                "writing" "Write report" first agents plan in
  match plan with
  | [] => [AgentTask_init "task-1" task first None 3]
  | _ => plan
  end.

(** The task object the engine builds from a decomposer entry that has the
    three keys it requires. *)
Definition task_from_entry (st : SubtaskDict) : option AgentTask :=
  id ← d_task_id st;
  descr ← d_description st;
  ty ← d_agent_type st;
  Some (AgentTask_init id descr ty (Some (default [] (d_dependencies st)))
          (default 3%Z (d_estimated_duration st))).

(** ** The object [execute_task] leaves behind, field by field *)

Section Executed.
Context `{Env}.

(** The object the retry loop leaves, having found [t]: untouched when no
    attempt is left; completed at the attempt that brought the retry count
    to [k]; or failed at the last attempt allowed. *)
Inductive retried (t t' : AgentTask) : Prop :=
  | retried_skipped :
      (max_retries t < retry_count t)%nat → t' = t → retried t t'
  | retried_completed (w : World) (res : ExecResult) (k : nat) :
      (retry_count t ≤ k ≤ max_retries t)%nat →
      t' = completed_task w res (with_retry_count k t) → retried t t'
  | retried_failed (w : World) (e : exn) :
      (retry_count t ≤ max_retries t)%nat →
      t' = failed_task w e (with_retry_count (max_retries t) t) → retried t t'.

(** The object [execute_task] leaves, having found [t]. *)
Inductive executed (o : AgentOrchestrator) (t t' : AgentTask) : Prop :=
  | executed_rejected :
      dict_get (agent_type t) (agents o) = None → t' = rejected_task t →
      executed o t t'
  | executed_dispatched (agent : Agent) (w : World) :
      dict_get (agent_type t) (agents o) = Some agent →
      retried (running_task w t) t' → executed o t t'.

End Executed.

(** One call [execute_task r], which found [t], left [t'], wrote [ml] to
    the memory sink and recorded the events [evs]. *)
Definition execution `{Env} (o : AgentOrchestrator) (r : ref) (t t' : AgentTask)
    (ml : list MemWrite) (evs : list Event) : Prop :=
  executed o t t' ∧ same_spec t t' ∧ Forall (about_task r) evs ∧
  (invocations r evs ≤ S (max_retries t) - retry_count t)%nat ∧
  (dict_get (agent_type t) (agents o) = None → invocations r evs = 0%nat) ∧
  (ml = [] ∨ status t' = Completed ∧ memory o = true ∧
             ∃ text, ml = [Store ("task_" +:+ task_id t +:+ "_result")
                             (MemText text) "working"] ∧ result t' = Some text) ∧
  ((retry_count t ≤ max_retries t)%nat →
   (status t' = Completed ∨ status t' = Failed) ∧
   status_history r evs =
     match dict_get (agent_type t) (agents o) with
     | Some _ => [Running; status t']
     | None => [Failed]
     end).

(** ** Vocabulary for whole runs *)

Section Creation.
Context `{Env}.

(** A task object as [AgentTask.__init__] leaves it. *)
Definition pristine (t : AgentTask) : Prop :=
  status t = Pending ∧ result t = None ∧ error t = None ∧
  assigned_agent t = None ∧ started_at t = None ∧ completed_at t = None ∧
  retry_count t = 0%nat ∧ max_retries t = 2%nat.

(** State [s'] is [s] with new task objects, and possibly another world. *)
Definition created (s s' : State) : Prop :=
  ∃ new, heap s' = heap s ++ new ∧ Forall pristine new ∧ trace s' = trace s ∧
         memory_log s' = memory_log s ∧ execution_history s' = execution_history s.

Definition creating {A} (m : M A) : Prop := ∀ s r s', m s = (r, s') → created s s'.

End Creation.

(** In a list of snapshots, every prerequisite of [d] is the identifier of
    a completed one. *)
Definition prerequisites_completed (dicts : list TaskDict) (d : TaskDict) : Prop :=
  Forall (λ dep_id, ∃ p, p ∈ dicts ∧ td_task_id p = dep_id ∧ td_status p = Completed)
    (td_dependencies d).

(** The result dictionary [coordinate] builds from the task objects. *)
Definition report `{Env} (o : AgentOrchestrator) (task : string)
    (start_time end_time : Timestamp) (h : list AgentTask) (subtasks : list ref)
    : OrchestrationResult :=
  let completed := filter (has_status_in h Completed) subtasks in
  let failed := filter (has_status_in h Failed) subtasks in
  {| r_orchestrator_id := orchestrator_id o;
     r_task := task;
     r_subtasks := to_dict <$> objects h subtasks;
     r_total_subtasks := List.length subtasks;
     r_completed := List.length completed;
     r_failed := List.length failed;
     r_success := bool_decide (List.length completed = List.length subtasks);
     r_final_output :=
       Py.join (nl +:+ nl)
         ((λ t, task_id t +:+ " (" +:+ agent_type t +:+ "):" +:+ nl +:+
                default "None" (result t)) <$> objects h completed);
     r_started_at := start_time;
     r_completed_at := end_time |}.

(** What the snapshot of a subtask holds at the end of a run, by status. *)
Definition settled (d : TaskDict) : Prop :=
  match td_status d with
  | Pending =>
      td_result d = None ∧ td_error d = None ∧ td_assigned_agent d = None ∧
      td_started_at d = None ∧ td_completed_at d = None ∧ td_retry_count d = 0%nat
  | Running => False
  | Completed =>
      is_Some (td_result d) ∧ td_error d = None ∧
      td_assigned_agent d = Some (td_agent_type d) ∧
      is_Some (td_started_at d) ∧ is_Some (td_completed_at d) ∧
      (td_retry_count d ≤ 2)%nat
  | Failed =>
      td_result d = None ∧
      ((td_error d = Some ("No agent registered for type: " +:+ td_agent_type d) ∧
        td_assigned_agent d = None ∧ td_started_at d = None ∧
        td_completed_at d = None ∧ td_retry_count d = 0%nat) ∨
       ((∃ e, td_error d = Some ("Failed after 2 retries: " +:+ e)) ∧
        td_assigned_agent d = Some (td_agent_type d) ∧
        is_Some (td_started_at d) ∧ is_Some (td_completed_at d) ∧
        td_retry_count d = 3%nat))
  end.

(** The statuses a subtask can go through in one run, from pending on. *)
Definition life_cycles : list (list Status) :=
  [ [Pending]; [Pending; Failed];
    [Pending; Running; Completed]; [Pending; Running; Failed] ].

(** What the events [evs] of a run say about a subtask that ends as [t]. *)
Definition once (x : ref) (t : AgentTask) (evs : list Event) : Prop :=
  (invocations x evs ≤ 3)%nat ∧
  (status t = Pending → invocations x evs = 0%nat) ∧
  Pending :: status_history x evs ∈ life_cycles ∧
  last (Pending :: status_history x evs) = Some (status t).

(** ** The constructors *)

Section Constructors.
Context `{Env}.

(** What the constructors reach outside the repository:
    [os.getenv("ANTHROPIC_API_KEY")], [anthropic.Anthropic(api_key=...)],
    which gives a client (known by what its [messages.create] does) or
    raises, and [str(uuid4())]. *)
Record Platform : Type := mkPlatform {
  getenv_api_key : option string;
  Anthropic : string → Outcome (string → list string → World → Outcome string * World);
  uuid4 : string
}.

(** The truth value of an optional string: [None] and the empty string are
    false. *)
Definition truthy (v : option string) : bool :=
  match v with
  | Some (String _ _) => true
  | _ => false
  end.

(** LLMTaskDecomposer.__init__ *)
Definition LLMTaskDecomposer_init (p : Platform) (api_key : option string)
    : Outcome LLMTaskDecomposer :=
  let self_api_key := if truthy api_key then api_key else getenv_api_key p in
  if negb (truthy self_api_key) then Threw (Error "ANTHROPIC_API_KEY not set")
  else
    match Anthropic p (default EmptyString self_api_key) with
    | Returned client => Returned (mkDecomposer (default EmptyString self_api_key) client)
    | Threw e => Threw e
    end.

(** AgentOrchestrator.__init__; the history starts empty in the state. *)
Definition AgentOrchestrator_init (p : Platform) (memory : bool)
    (api_key : option string) (use_llm_decomposition : bool) : AgentOrchestrator :=
  let self := mkOrchestrator (uuid4 p) [] memory use_llm_decomposition None in
  if use_llm_decomposition && truthy api_key then
    match LLMTaskDecomposer_init p api_key with
    | Returned d =>                                   (* self.decomposer = ... *)
        mkOrchestrator (uuid4 p) [] memory use_llm_decomposition (Some d)
    | Threw e =>                                      (* self.use_llm = False *)
        mkOrchestrator (uuid4 p) [] memory false None
    end
  else self.

End Constructors.

(** ** Runs without the memory sink *)

Section Sink.
Context `{Env}.

(** The orchestrator with no memory sink attached. *)
Definition without_memory (o : AgentOrchestrator) : AgentOrchestrator :=
  mkOrchestrator (orchestrator_id o) (agents o) false (use_llm o) (decomposer o).

(** The state but for what was written to the sink. *)
Definition erase (s : State) : State := set_memory_log [] s.

(** [m'] does what [m] does, the writes to the sink apart. *)
Definition sinkless {A} (m m' : M A) : Prop :=
  ∀ s, m' (erase s) = ((m s).1, erase (m s).2).

End Sink.

(** ** More concrete worlds for the examples *)

(** A task that failed after its retries. *)
Definition exhausted_task : AgentTask :=
  with_error (Some "Failed after 2 retries: boom")
    (with_status Failed (with_retry_count 3 general_task)).

(** A world in which the model answers with the empty list. *)
Definition blank_env : Env :=
  {| World := unit;
     now := λ _, "t0";
     sleep := λ w, w;
     json_loads := λ content,
       if decide (content = "[]") then Returned [] else Threw (Error "Expecting value") |}.

Definition blank_llm : @LLMTaskDecomposer blank_env :=
  {| api_key := "key";
     messages_create := λ _ _ (w : @World blank_env), (Returned "```json [] ```", w) |}.

Definition blank_orchestrator : @AgentOrchestrator blank_env :=
  mkOrchestrator "orchestrator" [] true true (Some blank_llm).

(** The paragraph of the final output for one snapshot. *)
Definition output_part (d : TaskDict) : string :=
  td_task_id d +:+ " (" +:+ td_agent_type d +:+ "):" +:+ nl +:+ default "None" (td_result d).

(** * Proofs *)

Section MonadFacts.
Context `{Env}.

Lemma bind_run {A B} (m : M A) (f : A → M B) (s : State) :
  (m ≫= f) s =
  match m s with
  | (Ok a, s') => f a s'
  | (Raise e, s') => (Raise e, s')
  | (Fault, s') => (Fault, s')
  end.
Proof. reflexivity. Qed.

Lemma bind_ok {A B} (m : M A) (f : A → M B) (s s' : State) (a : A) :
  m s = (Ok a, s') → (m ≫= f) s = f a s'.
Proof. intros E. rewrite bind_run, E. reflexivity. Qed.

Lemma attr_run {A} (f : AgentTask → A) (r : ref) (s : State) (t : AgentTask) :
  heap s !! r = Some t → attr f r s = (Ok (f t), s).
Proof. intros E. unfold attr, deref. rewrite bind_run, E. reflexivity. Qed.

Lemma attr_dangling {A} (f : AgentTask → A) (r : ref) (s : State) :
  heap s !! r = None → attr f r s = (Fault, s).
Proof. intros E. unfold attr, deref. rewrite bind_run, E. reflexivity. Qed.

Lemma readonly_ret {A} (a : A) : readonly (mret a).
Proof. intros s. reflexivity. Qed.

Lemma readonly_bind {A B} (m : M A) (f : A → M B) :
  readonly m → (∀ a, readonly (f a)) → readonly (m ≫= f).
Proof.
  intros Hm Hf s. rewrite bind_run. specialize (Hm s).
  destruct (m s) as [[a|e|] s']; simpl in Hm; subst s'; try reflexivity.
  apply Hf.
Qed.

Lemma readonly_attr {A} (f : AgentTask → A) (r : ref) : readonly (attr f r).
Proof.
  intros s. unfold attr, deref. rewrite bind_run.
  destruct (heap s !! r); reflexivity.
Qed.

Lemma readonly_find_task tasks dep_id : readonly (find_task tasks dep_id).
Proof.
  induction tasks as [|t tasks IH]; simpl.
  - apply readonly_ret.
  - apply readonly_bind; [apply readonly_attr|].
    intros id. destruct (decide (id = dep_id)); [apply readonly_ret | exact IH].
Qed.

Lemma readonly_check_dependencies tasks deps : readonly (check_dependencies tasks deps).
Proof.
  induction deps as [|dep_id deps IH]; simpl.
  - apply readonly_ret.
  - apply readonly_bind; [apply readonly_find_task|].
    intros [d|]; [|apply readonly_ret].
    apply readonly_bind; [apply readonly_attr|].
    intros st. destruct (decide (st ≠ Completed)); [apply readonly_ret | exact IH].
Qed.

Lemma readonly_ready_loop tasks todo ready : readonly (ready_loop tasks todo ready).
Proof.
  revert ready. induction todo as [|task todo IH]; intros ready; simpl.
  - apply readonly_ret.
  - apply readonly_bind; [apply readonly_attr|].
    intros st. destruct (decide (st ≠ Pending)); [apply IH|].
    apply readonly_bind; [apply readonly_attr|]. intros deps.
    apply readonly_bind; [apply readonly_check_dependencies|]. intros b.
    apply IH.
Qed.

(** *** The loops of [get_ready_tasks] compute the specification *)

Lemma find_task_run tasks dep_id s :
  valid_refs (heap s) tasks →
  find_task tasks dep_id s = (Ok (resolve (heap s) tasks dep_id), s).
Proof.
  unfold resolve. induction 1 as [|t tasks [x Hx] _ IH]; simpl; [reflexivity|].
  rewrite (bind_ok _ _ _ _ _ (attr_run task_id t s x Hx)).
  rewrite filter_cons, Hx. simpl.
  destruct (decide (task_id x = dep_id)) as [->|Hne].
  - rewrite decide_True by reflexivity. reflexivity.
  - rewrite decide_False by congruence. exact IH.
Qed.

Lemma resolve_valid h tasks dep_id d :
  valid_refs h tasks → resolve h tasks dep_id = Some d → is_Some (h !! d).
Proof.
  unfold resolve, valid_refs. intros Hv Hd.
  apply head_Some_elem_of, list_elem_of_filter in Hd as [_ Hd].
  rewrite Forall_forall in Hv. auto.
Qed.

Lemma check_dependencies_run tasks deps s :
  valid_refs (heap s) tasks →
  check_dependencies tasks deps s =
    (Ok (bool_decide (Forall (λ dep_id,
           resolved_status (heap s) tasks dep_id = Some Completed) deps)), s).
Proof.
  intros Hv. induction deps as [|dep_id deps IH]; simpl.
  - reflexivity.
  - rewrite (bind_ok _ _ _ _ _ (find_task_run tasks dep_id s Hv)).
    destruct (resolve (heap s) tasks dep_id) as [d|] eqn:Hd.
    + destruct (resolve_valid _ _ _ _ Hv Hd) as [x Hx].
      assert (Hrs : resolved_status (heap s) tasks dep_id = Some (status x)).
      { unfold resolved_status. rewrite Hd. simpl. rewrite Hx. reflexivity. }
      rewrite (bind_ok _ _ _ _ _ (attr_run status d s x Hx)).
      destruct (decide (status x ≠ Completed)) as [Hne|Heq].
      * rewrite bool_decide_eq_false_2; [reflexivity|].
        rewrite Forall_cons, Hrs. intros [? _]. congruence.
      * apply dec_stable in Heq. rewrite IH.
        do 2 f_equal. apply bool_decide_ext.
        rewrite Forall_cons, Hrs, Heq. tauto.
    + assert (Hrs : resolved_status (heap s) tasks dep_id = None).
      { unfold resolved_status. rewrite Hd. reflexivity. }
      rewrite bool_decide_eq_false_2; [reflexivity|].
      rewrite Forall_cons, Hrs. intros [? _]. congruence.
Qed.

Lemma ready_loop_run tasks todo ready s :
  valid_refs (heap s) tasks → valid_refs (heap s) todo →
  ready_loop tasks todo ready s =
    (Ok (ready ++ filter (ready_spec (heap s) tasks) todo), s).
Proof.
  intros Hv Hv'. revert ready.
  induction Hv' as [|task todo [x Hx] _ IH]; intros ready; simpl.
  - rewrite app_nil_r. reflexivity.
  - rewrite (bind_ok _ _ _ _ _ (attr_run status task s x Hx)).
    rewrite filter_cons.
    assert (Hspec : ready_spec (heap s) tasks task ↔
              status x = Pending ∧
              Forall (λ dep_id, resolved_status (heap s) tasks dep_id = Some Completed)
                (dependencies x)).
    { unfold ready_spec. rewrite Hx. reflexivity. }
    destruct (decide (status x ≠ Pending)) as [Hne|Heq].
    + rewrite IH. rewrite decide_False by tauto. reflexivity.
    + apply dec_stable in Heq.
      rewrite (bind_ok _ _ _ _ _ (attr_run dependencies task s x Hx)).
      rewrite (bind_ok _ _ _ _ _ (check_dependencies_run tasks _ s Hv)).
      rewrite IH. case_bool_decide as Hd.
      * rewrite decide_True by tauto. rewrite <- app_assoc. reflexivity.
      * rewrite decide_False by tauto. reflexivity.
Qed.

(** *** Running the primitives *)

Lemma assign_run (r : ref) (f : AgentTask → AgentTask) (s : State) (t : AgentTask) :
  heap s !! r = Some t →
  assign r f s = (Ok tt, set_heap (<[r := f t]> (heap s)) s).
Proof. intros E. unfold assign. rewrite E. reflexivity. Qed.

Lemma set_status_run (r : ref) (v : Status) (s : State) (t : AgentTask) :
  heap s !! r = Some t →
  set_status r v s =
    (Ok tt, set_trace (trace s ++ [StatusSet r v])
              (set_heap (<[r := with_status v t]> (heap s)) s)).
Proof.
  intros E. unfold set_status. rewrite (bind_ok _ _ _ _ _ (assign_run r _ s t E)).
  reflexivity.
Qed.

Lemma lookup_updated (h : list AgentTask) (r : ref) (t t' : AgentTask) :
  h !! r = Some t → <[r := t']> h !! r = Some t'.
Proof. intros E. apply list_lookup_insert_eq. eapply lookup_lt_Some, E. Qed.

Lemma status_history_app task tr1 tr2 :
  status_history task (tr1 ++ tr2) = status_history task tr1 ++ status_history task tr2.
Proof. apply omap_app. Qed.

Lemma invocations_app task tr1 tr2 :
  invocations task (tr1 ++ tr2) = (invocations task tr1 + invocations task tr2)%nat.
Proof. unfold invocations. rewrite omap_app, length_app. reflexivity. Qed.

Lemma invocations_status task r v : invocations task [StatusSet r v] = 0%nat.
Proof. reflexivity. Qed.

Lemma same_spec_refl t : same_spec t t.
Proof. repeat split. Qed.

Lemma same_spec_trans t1 t2 t3 : same_spec t1 t2 → same_spec t2 t3 → same_spec t1 t3.
Proof. unfold same_spec. intuition congruence. Qed.

Lemma try_except_ok {A} (body : M A) (handler : exn → M A) s a s' :
  body s = (Ok a, s') → try_except body handler s = (Ok a, s').
Proof. intros E. unfold try_except. rewrite E. reflexivity. Qed.

Lemma try_except_raise {A} (body : M A) (handler : exn → M A) s e s' :
  body s = (Raise e, s') → try_except body handler s = handler e s'.
Proof. intros E. unfold try_except. rewrite E. reflexivity. Qed.

Lemma new_AgentTask_run id d ty deps dur s :
  new_AgentTask id d ty deps dur s =
    (Ok (List.length (heap s)),
     set_heap (heap s ++ [AgentTask_init id d ty deps dur]) s).
Proof. reflexivity. Qed.

Lemma previous_task_id_run subtasks r s t :
  last subtasks = Some r → heap s !! r = Some t →
  previous_task_id subtasks s = (Ok [task_id t], s).
Proof.
  intros Hl Ht. unfold previous_task_id. rewrite Hl.
  rewrite (bind_ok _ _ _ _ _ (attr_run task_id r s t Ht)). reflexivity.
Qed.

(** *** Lowercasing keeps lowercase substrings *)

Lemma lower_prefix n s :
  String.prefix n s = true → String.prefix (Py.lower n) (Py.lower s) = true.
Proof.
  revert n. induction s as [|b s IH]; intros [|a n]; simpl; try done.
  destruct (ascii_dec a b) as [->|]; [|done]. intros Hp.
  destruct (ascii_dec _ _); [|done]. auto.
Qed.

Lemma lower_str_in n s :
  Py.str_in n s = true → Py.str_in (Py.lower n) (Py.lower s) = true.
Proof.
  induction s as [|b s IH].
  - destruct n; simpl; done.
  - intros Hs.
    change (Py.lower (String b s)) with (String (Py.lower_ascii b) (Py.lower s)).
    cbn [Py.str_in] in *. apply orb_true_iff in Hs. apply orb_true_iff.
    destruct Hs as [Hp|Hs].
    + left. apply (lower_prefix n (String b s) Hp).
    + right. auto.
Qed.

End MonadFacts.

(** ** One step of [execute_task] at a time *)

Ltac mnorm :=
  unfold set_heap, set_world, set_memory_log, set_execution_history, set_trace;
  cbn [heap world memory_log execution_history trace fst snd].

Ltac heap_lookup :=
  mnorm; first [ eassumption | eapply lookup_updated; heap_lookup ].

Ltac mstep :=
  rewrite bind_run;
  first
  [ erewrite attr_run by heap_lookup
  | erewrite set_status_run by heap_lookup
  | erewrite assign_run by heap_lookup
  | unfold clock at 1
  | unfold asyncio_sleep at 1
  | unfold emit at 1 ];
  cbn beta iota; mnorm; rewrite ?list_insert_insert_eq.

Section ExecuteTask.
Context `{Env}.
Variables (o : AgentOrchestrator) (agent : Agent) (task : ref).

Lemma retry_loop_unfold fuel s :
  retry_loop o agent task fuel s =
  (rc ← attr retry_count task;
   mr ← attr max_retries task;
   if bool_decide (rc ≤ mr)%nat then
    match fuel with
    | O => fault
    | S fuel' =>
        descr ← attr description task;
        r ← call_agent task agent descr;
        match r with
        | Returned res =>
            set_status task Completed ;;
            assign task (with_result (Some (result_text res))) ;;
            t ← clock;
            assign task (with_completed_at (Some t)) ;;
            id ← attr task_id task;
            memory_store o ("task_" +:+ id +:+ "_result")
              (MemText (result_text res)) "working" ;;
            mret task
        | Threw e =>
            assign task (with_retry_count (rc + 1)) ;;
            rc ← attr retry_count task;
            mr ← attr max_retries task;
            (if bool_decide (mr < rc)%nat then
               set_status task Failed ;;
               assign task (with_error
                 (Some ("Failed after " +:+ pretty mr +:+ " retries: " +:+ exn_str e))) ;;
               t ← clock;
               assign task (with_completed_at (Some t))
             else asyncio_sleep task) ;;
            retry_loop o agent task fuel'
        end
    end
  else mret task) s.
Proof. destruct fuel; reflexivity. Qed.

(** The loop condition fails: the loop is over. *)
Lemma retry_loop_exit fuel s t :
  heap s !! task = Some t → (max_retries t < retry_count t)%nat →
  retry_loop o agent task fuel s = (Ok task, s).
Proof.
  intros Ht Hlt. rewrite retry_loop_unfold. do 2 mstep.
  rewrite bool_decide_eq_false_2 by lia. reflexivity.
Qed.

(** The worker returns. *)
Lemma retry_loop_success fuel s t res w' :
  heap s !! task = Some t → (retry_count t ≤ max_retries t)%nat →
  execute agent (description t) (world s) = (Returned res, w') →
  retry_loop o agent task (S fuel) s =
    (Ok task,
     mkState (<[task := completed_task w' res t]> (heap s)) w'
       (memory_log s ++ result_store o res t) (execution_history s)
       (trace s ++ [Invoked task (description t); StatusSet task Completed])).
Proof.
  intros Ht Hle Hex. rewrite retry_loop_unfold.
  destruct s as [h w m x tr]. simpl in Ht, Hex.
  do 2 mstep. rewrite bool_decide_eq_true_2 by assumption.
  mstep. rewrite bind_run. unfold call_agent. mnorm. rewrite Hex.
  cbn beta iota. mnorm. do 5 mstep. rewrite bind_run.
  unfold memory_store, result_store, completed_task.
  rewrite <- app_assoc. simpl.
  destruct (memory o); cbn beta iota; mnorm; rewrite ?app_nil_r; reflexivity.
Qed.

(** The worker raises and attempts are left: back off and try again. *)
Lemma retry_loop_retry fuel s t e w' :
  heap s !! task = Some t → (retry_count t < max_retries t)%nat →
  execute agent (description t) (world s) = (Threw e, w') →
  retry_loop o agent task (S fuel) s =
    retry_loop o agent task fuel
      (mkState (<[task := with_retry_count (retry_count t + 1) t]> (heap s)) (sleep w')
         (memory_log s) (execution_history s)
         (trace s ++ [Invoked task (description t); Slept task])).
Proof.
  intros Ht Hlt Hex. rewrite retry_loop_unfold.
  destruct s as [h w m x tr]. simpl in Ht, Hex.
  do 2 mstep. rewrite bool_decide_eq_true_2 by lia.
  mstep. rewrite bind_run. unfold call_agent. mnorm. rewrite Hex.
  cbn beta iota. mnorm. do 3 mstep. simpl retry_count. simpl max_retries.
  rewrite bool_decide_eq_false_2 by lia.
  mstep. rewrite <- app_assoc. reflexivity.
Qed.

(** The worker raises on the last attempt: the task fails. *)
Lemma retry_loop_give_up fuel s t e w' :
  heap s !! task = Some t → retry_count t = max_retries t →
  execute agent (description t) (world s) = (Threw e, w') →
  retry_loop o agent task (S fuel) s =
    (Ok task,
     mkState (<[task := failed_task w' e t]> (heap s)) w'
       (memory_log s) (execution_history s)
       (trace s ++ [Invoked task (description t); StatusSet task Failed])).
Proof.
  intros Ht Heq Hex. rewrite retry_loop_unfold.
  destruct s as [h w m x tr]. simpl in Ht, Hex.
  do 2 mstep. rewrite bool_decide_eq_true_2 by lia.
  mstep. rewrite bind_run. unfold call_agent. mnorm. rewrite Hex.
  cbn beta iota. mnorm. do 3 mstep. simpl retry_count. simpl max_retries.
  rewrite bool_decide_eq_true_2 by lia.
  rewrite bind_run. do 3 mstep. erewrite assign_run by heap_lookup.
  cbn beta iota. mnorm. rewrite ?list_insert_insert_eq.
  erewrite retry_loop_exit.
  - unfold failed_task. rewrite <- app_assoc. reflexivity.
  - simpl. apply lookup_updated with t. exact Ht.
  - simpl. lia.
Qed.

(** No worker registered: the task fails on the spot. *)
Lemma execute_task_unregistered s t :
  heap s !! task = Some t → dict_get (agent_type t) (agents o) = None →
  execute_task o task s =
    (Ok task,
     mkState (<[task := rejected_task t]> (heap s)) (world s)
       (memory_log s) (execution_history s)
       (trace s ++ [StatusSet task Failed])).
Proof.
  intros Ht Hno. unfold execute_task.
  destruct s as [h w m x tr]. simpl in Ht.
  mstep. rewrite Hno. do 2 mstep. reflexivity.
Qed.

(** A registered worker: the task is marked running and the retry loop
    starts. *)
Lemma execute_task_registered s t :
  heap s !! task = Some t → dict_get (agent_type t) (agents o) = Some agent →
  execute_task o task s =
    retry_loop o agent task (S (max_retries t) - retry_count t)
      (mkState (<[task := running_task (world s) t]> (heap s)) (world s)
         (memory_log s) (execution_history s)
         (trace s ++ [StatusSet task Running])).
Proof.
  intros Ht Hag. unfold execute_task.
  destruct s as [h w m x tr]. simpl in Ht.
  mstep. rewrite Hag. do 6 mstep. reflexivity.
Qed.

Lemma same_spec_completed w res t : same_spec t (completed_task w res t).
Proof. repeat split. Qed.

Lemma same_spec_failed w e t : same_spec t (failed_task w e t).
Proof. repeat split. Qed.

Lemma same_spec_retry n t : same_spec t (with_retry_count n t).
Proof. repeat split. Qed.

Lemma same_spec_running w t : same_spec t (running_task w t).
Proof. repeat split. Qed.

Lemma same_spec_rejected t : same_spec t (rejected_task t).
Proof. repeat split. Qed.

Lemma status_history_self v : status_history task [StatusSet task v] = [v].
Proof. unfold status_history. simpl. rewrite decide_True; reflexivity. Qed.

Lemma invocations_self d : invocations task [Invoked task d] = 1%nat.
Proof. unfold invocations. simpl. rewrite decide_True; reflexivity. Qed.

Lemma status_history_attempt d v :
  status_history task [Invoked task d; StatusSet task v] = [v].
Proof. unfold status_history. simpl. rewrite decide_True; reflexivity. Qed.

Lemma invocations_attempt d e :
  invocations task [Invoked task d; e] =
  (1 + invocations task [e])%nat.
Proof. unfold invocations. simpl. rewrite decide_True; reflexivity. Qed.

(** The loop always ends, in one of three ways, and touches nothing but
    its own task, the world, the memory sink and the history. *)
Lemma retry_loop_post fuel s t :
  heap s !! task = Some t →
  (S (max_retries t) - retry_count t ≤ fuel)%nat →
  ∃ t' w' ml evs,
    retry_loop o agent task fuel s =
      (Ok task, mkState (<[task := t']> (heap s)) w' (memory_log s ++ ml)
                  (execution_history s) (trace s ++ evs)) ∧
    same_spec t t' ∧ Forall (about_task task) evs ∧
    retry_outcome task t t' evs.
Proof.
  revert s t. induction fuel as [|fuel IH]; intros s t Ht Hfuel.
  - exists t, (world s), [], []. split; [|split; [|split]].
    + rewrite (retry_loop_exit 0 s t Ht) by lia. destruct s; simpl in *.
      rewrite list_insert_id, !app_nil_r by assumption. reflexivity.
    + apply same_spec_refl.
    + constructor.
    + apply retry_skipped; [lia|reflexivity..].
  - destruct (decide (max_retries t < retry_count t)%nat) as [Hlt|Hle].
    { exists t, (world s), [], []. split; [|split; [|split]].
      + rewrite (retry_loop_exit _ s t Ht) by lia. destruct s; simpl in *.
        rewrite list_insert_id, !app_nil_r by assumption. reflexivity.
      + apply same_spec_refl.
      + constructor.
      + apply retry_skipped; [lia|reflexivity..]. }
    destruct (execute agent (description t) (world s)) as [[res|e] w'] eqn:Hex.
    + exists (completed_task w' res t), w', (result_store o res t),
        [Invoked task (description t); StatusSet task Completed].
      split; [|split; [|split]].
      * apply retry_loop_success; [assumption|lia|assumption].
      * apply same_spec_completed.
      * repeat constructor.
      * apply retry_completed.
        -- lia.
        -- reflexivity.
        -- simpl. lia.
        -- apply status_history_attempt.
        -- rewrite invocations_attempt. simpl. unfold invocations. simpl. lia.
    + destruct (decide (retry_count t = max_retries t)) as [Heq|Hne].
      * exists (failed_task w' e t), w', [],
          [Invoked task (description t); StatusSet task Failed].
        split; [|split; [|split]].
        -- rewrite app_nil_r. apply retry_loop_give_up; assumption.
        -- apply same_spec_failed.
        -- repeat constructor.
        -- apply retry_failed.
           ++ lia.
           ++ reflexivity.
           ++ simpl. lia.
           ++ apply status_history_attempt.
           ++ rewrite invocations_attempt. unfold invocations. simpl. lia.
      * rewrite (retry_loop_retry fuel s t e w' Ht) by (assumption || lia).
        set (t2 := with_retry_count (retry_count t + 1) t).
        set (s2 := mkState _ _ _ _ _).
        assert (Ht2 : heap s2 !! task = Some t2).
        { simpl. apply lookup_updated with t. exact Ht. }
        destruct (IH s2 t2 Ht2) as (t' & w'' & ml & evs & Hrun & Hspec & Hev & Hout).
        { simpl. lia. }
        exists t', w'', ml, ([Invoked task (description t); Slept task] ++ evs).
        split; [|split; [|split]].
        -- rewrite Hrun. subst s2. simpl. rewrite list_insert_insert_eq.
           rewrite <- app_assoc. reflexivity.
        -- eapply same_spec_trans; [apply (same_spec_retry (retry_count t + 1) t)|exact Hspec].
        -- apply Forall_app. split; [repeat constructor|exact Hev].
        -- assert (Hpre : status_history task [Invoked task (description t); Slept task] = []).
           { reflexivity. }
           assert (Hinv : invocations task [Invoked task (description t); Slept task] = 1%nat).
           { rewrite invocations_attempt. reflexivity. }
           assert (Hrc2 : retry_count t2 = (retry_count t + 1)%nat) by reflexivity.
           assert (Hmr2 : max_retries t2 = max_retries t) by reflexivity.
           destruct Hout as [Hlt ? ?|? Hst Hrc Hh Hi|? Hst Hrc Hh Hi];
             rewrite ?Hrc2, ?Hmr2 in *.
           ++ lia.
           ++ apply retry_completed; try lia.
              ** exact Hst.
              ** rewrite status_history_app, Hpre. exact Hh.
              ** rewrite invocations_app, Hinv, Hi. lia.
           ++ apply retry_failed; try lia.
              ** exact Hst.
              ** rewrite status_history_app, Hpre. exact Hh.
              ** rewrite invocations_app, Hinv, Hi. lia.
Qed.

Lemma invocations_attempt_status d v :
  invocations task [Invoked task d; StatusSet task v] = 1%nat.
Proof. rewrite invocations_attempt. reflexivity. Qed.

Lemma invocations_attempt_slept d :
  invocations task [Invoked task d; Slept task] = 1%nat.
Proof. rewrite invocations_attempt. reflexivity. Qed.

Lemma retry_loop_fails_then_succeeds n : ∀ fuel s t,
  heap s !! task = Some t →
  (retry_count t + n ≤ max_retries t)%nat → (n < fuel)%nat →
  fails_then_succeeds agent (description t) n (world s) →
  ∃ s' t', retry_loop o agent task fuel s = (Ok task, s') ∧
           heap s' !! task = Some t' ∧ status t' = Completed ∧
           retry_count t' = (retry_count t + n)%nat ∧
           invocations task (trace s') = (invocations task (trace s) + S n)%nat.
Proof.
  induction n as [|n IH]; intros fuel s t Ht Hle Hfuel Hbeh;
    destruct fuel as [|fuel]; try lia.
  - destruct Hbeh as (res & w' & Hex).
    eexists _, (completed_task w' res t). split; [|split; [|split; [|split]]].
    + apply retry_loop_success; [exact Ht|lia|exact Hex].
    + simpl. apply lookup_updated with t. exact Ht.
    + reflexivity.
    + simpl. lia.
    + simpl. rewrite invocations_app, invocations_attempt_status. lia.
  - destruct Hbeh as (e & w' & Hex & Hbeh).
    rewrite (retry_loop_retry fuel s t e w' Ht) by (assumption || lia).
    set (t2 := with_retry_count (retry_count t + 1) t).
    set (s2 := mkState _ _ _ _ _).
    destruct (IH fuel s2 t2) as (s' & t' & Hrun & Hlook & Hst & Hrc & Hinv).
    + simpl. apply lookup_updated with t. exact Ht.
    + simpl. lia.
    + lia.
    + exact Hbeh.
    + exists s', t'. split; [exact Hrun|]. split; [exact Hlook|]. split; [exact Hst|].
      split.
      * rewrite Hrc. simpl. lia.
      * rewrite Hinv. subst s2. simpl.
        rewrite invocations_app, invocations_attempt_slept. lia.
Qed.

Lemma retry_loop_always_fails k : ∀ fuel s t,
  always_fails agent (description t) →
  heap s !! task = Some t →
  (retry_count t + k = max_retries t)%nat → (k < fuel)%nat →
  ∃ s' t', retry_loop o agent task fuel s = (Ok task, s') ∧
           heap s' !! task = Some t' ∧ status t' = Failed ∧
           retry_count t' = S (max_retries t) ∧
           invocations task (trace s') = (invocations task (trace s) + S k)%nat.
Proof.
  induction k as [|k IH]; intros fuel s t Hbeh Ht Hk Hfuel;
    destruct fuel as [|fuel]; try lia;
    destruct (Hbeh (world s)) as (e & w' & Hex).
  - eexists _, (failed_task w' e t). split; [|split; [|split; [|split]]].
    + apply retry_loop_give_up; [exact Ht|lia|exact Hex].
    + simpl. apply lookup_updated with t. exact Ht.
    + reflexivity.
    + simpl. lia.
    + simpl. rewrite invocations_app, invocations_attempt_status. lia.
  - rewrite (retry_loop_retry fuel s t e w' Ht) by (assumption || lia).
    set (t2 := with_retry_count (retry_count t + 1) t).
    set (s2 := mkState _ _ _ _ _).
    destruct (IH fuel s2 t2) as (s' & t' & Hrun & Hlook & Hst & Hrc & Hinv).
    + exact Hbeh.
    + simpl. apply lookup_updated with t. exact Ht.
    + simpl. lia.
    + lia.
    + exists s', t'. split; [exact Hrun|]. split; [exact Hlook|]. split; [exact Hst|].
      split.
      * rewrite Hrc. reflexivity.
      * rewrite Hinv. subst s2. simpl.
        rewrite invocations_app, invocations_attempt_slept. lia.
Qed.

End ExecuteTask.

(** ** What the decomposition allocates *)

Section Decomposition.
Context `{Env}.

Lemma grown_refl s : grown s s.
Proof. exists []. rewrite app_nil_r. repeat split. constructor. Qed.

Lemma grown_trans s1 s2 s3 : grown s1 s2 → grown s2 s3 → grown s1 s3.
Proof.
  intros (n1 & H1 & F1 & T1) (n2 & H2 & F2 & T2). exists (n1 ++ n2).
  rewrite H2, H1, app_assoc. split; [reflexivity|].
  split; [apply Forall_app; tauto|congruence].
Qed.

Lemma grown_length s s' : grown s s' → (List.length (heap s) ≤ List.length (heap s'))%nat.
Proof. intros (new & -> & _). rewrite length_app. lia. Qed.

Lemma new_refs_grown n s s' refs : grown s s' → new_refs n s refs → new_refs n s' refs.
Proof.
  intros Hg (Hs & Hn & Hb). split; [exact Hs|].
  apply grown_length in Hg. split; [lia|].
  eapply Forall_impl; [exact Hb|]. simpl. intros. lia.
Qed.

Lemma growing_ret {A} (a : A) : growing (mret a).
Proof. intros s r s' [= <- <-]. apply grown_refl. Qed.

Lemma growing_bind {A B} (m : M A) (f : A → M B) :
  growing m → (∀ a, growing (f a)) → growing (m ≫= f).
Proof.
  intros Hm Hf s r s'. rewrite bind_run.
  destruct (m s) as [[a|e|] s1] eqn:E; specialize (Hm _ _ _ E).
  - intros E'. eapply grown_trans; [exact Hm|]. eapply Hf. exact E'.
  - intros [= <- <-]. exact Hm.
  - intros [= <- <-]. exact Hm.
Qed.

Lemma growing_readonly {A} (m : M A) : readonly m → growing m.
Proof.
  intros Hr s r s' E. specialize (Hr s). rewrite E in Hr. simpl in Hr. subst s'.
  apply grown_refl.
Qed.

Lemma readonly_lift {A} (r : Res A) : readonly (lift r).
Proof. intros s. reflexivity. Qed.

Lemma growing_new id d ty deps dur : growing (new_AgentTask id d ty deps dur).
Proof.
  intros s r s' [= <- <-]. exists [AgentTask_init id d ty deps dur].
  repeat split. repeat constructor.
Qed.

Lemma growing_foreign {A} (f : World → Outcome A * World) : growing (foreign f).
Proof.
  intros s r s'. unfold foreign. destruct (f (world s)) as [[a|e] w]; intros [= <- <-];
    exists []; simpl; rewrite app_nil_r; repeat split; constructor.
Qed.

Lemma growing_try_except {A} (body : M A) (handler : exn → M A) :
  growing body → (∀ e, growing (handler e)) → growing (try_except body handler).
Proof.
  intros Hb Hh s r s'. unfold try_except.
  destruct (body s) as [[a|e|] s1] eqn:E; specialize (Hb _ _ _ E).
  - intros [= <- <-]. exact Hb.
  - intros E'. eapply grown_trans; [exact Hb|]. eapply Hh. exact E'.
  - intros [= <- <-]. exact Hb.
Qed.

Lemma readonly_previous_task_id subtasks : readonly (previous_task_id subtasks).
Proof.
  unfold previous_task_id. destruct (last subtasks); [|apply readonly_ret].
  apply readonly_bind; [apply readonly_attr|]. intros. apply readonly_ret.
Qed.

Ltac growing :=
  repeat first
    [ apply growing_ret
    | apply growing_new
    | apply growing_foreign
    | apply growing_readonly; first [apply readonly_lift | apply readonly_previous_task_id | apply readonly_attr]
    | apply growing_bind; [|intros ?]
    | apply growing_try_except; [|intros ?] ].

Lemma growing_task_of_dict st : growing (task_of_dict st).
Proof. unfold task_of_dict. growing. Qed.

Lemma growing_list_comp {A B} (l : list A) (f : A → M B) :
  (∀ x, growing (f x)) → growing (list_comp l f).
Proof. intros Hf. induction l; simpl; growing; auto. Qed.

Lemma growing_decomposer_decompose d task agents :
  growing (decomposer_decompose d task agents).
Proof. unfold decomposer_decompose, ask_llm. growing. Qed.

Lemma growing_fallback task agents : growing (_fallback_decompose task agents).
Proof.
  unfold _fallback_decompose, research_block, analyze_block, write_block, default_block.
  cbv zeta. growing.
  - destruct (_ || _); growing.
  - destruct (Py.str_in _ _); growing.
  - destruct (_ || _); growing.
  - destruct a1; growing.
Qed.

Lemma growing_decompose_task o task : growing (decompose_task o task).
Proof.
  unfold decompose_task. cbv zeta. apply growing_bind.
  - destruct (use_llm o); [|apply growing_ret].
    destruct (decomposer o) as [d|]; [|apply growing_ret].
    apply growing_try_except; [|intros ?; apply growing_ret].
    apply growing_bind; [apply growing_decomposer_decompose|]. intros entries.
    apply growing_bind; [|intros ?; apply growing_ret].
    apply growing_list_comp. apply growing_task_of_dict.
  - intros [subtasks|]; [apply growing_ret|apply growing_fallback].
Qed.

Lemma bind_inv_ok {A B} (m : M A) (f : A → M B) s b s' :
  (m ≫= f) s = (Ok b, s') → ∃ a s1, m s = (Ok a, s1) ∧ f a s1 = (Ok b, s').
Proof.
  rewrite bind_run. destruct (m s) as [[a|e|] s1]; [eauto|discriminate..].
Qed.

Lemma readonly_inv {A} (m : M A) s r s' : readonly m → m s = (r, s') → s' = s.
Proof. intros Hr E. specialize (Hr s). rewrite E in Hr. exact Hr. Qed.

Lemma new_refs_nil s : new_refs (List.length (heap s)) s [].
Proof. split; [constructor|]. split; [lia|constructor]. Qed.

Lemma append_new_refs n s subtasks t :
  new_refs n s subtasks →
  new_refs n (set_heap (heap s ++ [t]) s) (subtasks ++ [List.length (heap s)]).
Proof.
  intros (Hnd & Hn & Hb). unfold new_refs, set_heap. simpl.
  rewrite length_app. simpl.
  split; [|split; [lia|]].
  - apply NoDup_app. split; [exact Hnd|]. split; [|apply NoDup_singleton].
    intros x Hx Hx'. apply list_elem_of_singleton in Hx'. subst x.
    rewrite Forall_forall in Hb. specialize (Hb _ Hx). lia.
  - apply Forall_app. split.
    + eapply Forall_impl; [exact Hb|]. simpl. intros. lia.
    + constructor; [lia|constructor].
Qed.

(** The tail common to the blocks of the fallback. *)
Lemma append_task_refs n s subtasks id d ty deps dur out s' :
  new_refs n s subtasks →
  (t ← new_AgentTask id d ty deps dur; mret (subtasks ++ [t])) s = (Ok out, s') →
  new_refs n s' out.
Proof.
  intros Hn. rewrite bind_run, new_AgentTask_run. intros [= <- <-].
  apply append_new_refs. exact Hn.
Qed.

Lemma research_block_refs task task_lower agents n s subtasks out s' :
  new_refs n s subtasks →
  research_block task task_lower agents subtasks s = (Ok out, s') →
  new_refs n s' out.
Proof.
  intros Hn. unfold research_block. destruct (_ || _).
  - intros E. apply bind_inv_ok in E as (ty & s1 & E1 & E).
    apply (readonly_inv _ _ _ _ (readonly_lift _)) in E1. subst s1.
    eapply append_task_refs; eassumption.
  - intros [= <- <-]. exact Hn.
Qed.

Lemma keyword_block_refs (c : bool) name agents descr n s subtasks out s' :
  new_refs n s subtasks →
  (if c then
     ty ← lift (agent_or_first name agents);
     deps ← previous_task_id subtasks;
     t ← new_AgentTask ("task-" +:+ pretty (List.length subtasks + 1)) descr ty
           (Some deps) 3;
     mret (subtasks ++ [t])
   else mret subtasks) s = (Ok out, s') →
  new_refs n s' out.
Proof.
  intros Hn. destruct c.
  - intros E. apply bind_inv_ok in E as (ty & s1 & E1 & E).
    apply (readonly_inv _ _ _ _ (readonly_lift _)) in E1. subst s1.
    apply bind_inv_ok in E as (deps & s1 & E1 & E).
    apply (readonly_inv _ _ _ _ (readonly_previous_task_id _)) in E1. subst s1.
    eapply append_task_refs; eassumption.
  - intros [= <- <-]. exact Hn.
Qed.

Lemma default_block_refs task agents n s subtasks out s' :
  new_refs n s subtasks →
  default_block task agents subtasks s = (Ok out, s') →
  new_refs n s' out.
Proof.
  intros Hn. unfold default_block. destruct subtasks.
  - apply append_task_refs. exact Hn.
  - intros [= <- <-]. exact Hn.
Qed.

Lemma fallback_refs task agents s out s' :
  _fallback_decompose task agents s = (Ok out, s') →
  new_refs (List.length (heap s)) s' out.
Proof.
  unfold _fallback_decompose. cbv zeta. intros E.
  apply bind_inv_ok in E as (l1 & s1 & E1 & E).
  apply research_block_refs with (n := List.length (heap s)) in E1;
    [|apply new_refs_nil].
  apply bind_inv_ok in E as (l2 & s2 & E2 & E).
  apply keyword_block_refs with (n := List.length (heap s)) in E2; [|exact E1].
  apply bind_inv_ok in E as (l3 & s3 & E3 & E).
  apply keyword_block_refs with (n := List.length (heap s)) in E3; [|exact E2].
  apply bind_inv_ok in E as (l4 & s4 & E4 & E).
  apply default_block_refs with (n := List.length (heap s)) in E4; [|exact E3].
  injection E as <- <-. exact E4.
Qed.

Lemma task_of_dict_ok st s y s' :
  task_of_dict st s = (Ok y, s') →
  y = List.length (heap s) ∧ List.length (heap s') = S (List.length (heap s)).
Proof.
  unfold task_of_dict. intros E.
  apply bind_inv_ok in E as (id & s1 & E1 & E).
  apply (readonly_inv _ _ _ _ (readonly_lift _)) in E1. subst s1.
  apply bind_inv_ok in E as (d & s1 & E1 & E).
  apply (readonly_inv _ _ _ _ (readonly_lift _)) in E1. subst s1.
  apply bind_inv_ok in E as (ty & s1 & E1 & E).
  apply (readonly_inv _ _ _ _ (readonly_lift _)) in E1. subst s1.
  rewrite new_AgentTask_run in E. injection E as <- <-.
  simpl. rewrite length_app. simpl. split; [reflexivity|lia].
Qed.

Lemma list_comp_refs entries : ∀ s out s',
  list_comp entries task_of_dict s = (Ok out, s') →
  new_refs (List.length (heap s)) s' out.
Proof.
  induction entries as [|st entries IH]; intros s out s'; simpl.
  - intros [= <- <-]. apply new_refs_nil.
  - intros E. apply bind_inv_ok in E as (y & s1 & E1 & E).
    apply bind_inv_ok in E as (ys & s2 & E2 & E). injection E as <- <-.
    apply task_of_dict_ok in E1 as [-> Hlen].
    apply IH in E2 as (Hnd & Hn & Hb). rewrite Hlen in *.
    split; [|split; [lia|]].
    + apply NoDup_cons. split; [|exact Hnd].
      intros Hin. rewrite Forall_forall in Hb. specialize (Hb _ Hin). lia.
    + constructor; [lia|]. eapply Forall_impl; [exact Hb|]. simpl. intros. lia.
Qed.

Lemma try_except_inv {A} (body : M A) (handler : exn → M A) s r s' :
  try_except body handler s = (r, s') →
  (body s = (r, s') ∧ ∀ e, r ≠ Raise e) ∨
  (∃ e s1, body s = (Raise e, s1) ∧ handler e s1 = (r, s')).
Proof.
  unfold try_except. destruct (body s) as [[a|e|] sx].
  - intros [= <- <-]. left. split; [reflexivity|discriminate].
  - intros E. right. eauto.
  - intros [= <- <-]. left. split; [reflexivity|discriminate].
Qed.

Lemma decompose_task_refs o task s subtasks s1 :
  decompose_task o task s = (Ok subtasks, s1) →
  new_refs (List.length (heap s)) s1 subtasks.
Proof.
  unfold decompose_task. cbv zeta. intros E.
  apply bind_inv_ok in E as (from_llm & s0 & E0 & E).
  assert (Hllm : grown s s0 ∧
                 match from_llm with
                 | Some l => new_refs (List.length (heap s)) s0 l
                 | None => True
                 end).
  { destruct (use_llm o); [|injection E0 as <- <-; split; [apply grown_refl|exact I]].
    destruct (decomposer o) as [d|];
      [|injection E0 as <- <-; split; [apply grown_refl|exact I]].
    apply try_except_inv in E0 as [[Eb _]|(e & sx & Eb & E0)].
    - apply bind_inv_ok in Eb as (entries & sd & Ed & Eb).
      apply bind_inv_ok in Eb as (l & sl & El & Eb). injection Eb as <- <-.
      pose proof (growing_decomposer_decompose _ _ _ _ _ _ Ed) as Hg1.
      pose proof (growing_list_comp _ _ growing_task_of_dict _ _ _ El) as Hg2.
      split; [eapply grown_trans; eassumption|].
      apply list_comp_refs in El. destruct El as (Hnd & Hn & Hb).
      apply grown_length in Hg1. split; [exact Hnd|]. split; [lia|].
      eapply Forall_impl; [exact Hb|]. simpl. intros. lia.
    - injection E0 as <- <-. split; [|exact I].
      eapply (growing_bind _ _ (growing_decomposer_decompose _ _ _)); [|exact Eb].
      intros entries. apply growing_bind; [|intros ?; apply growing_ret].
      apply growing_list_comp. apply growing_task_of_dict. }
  destruct Hllm as [Hg Hl]. destruct from_llm as [l|].
  - injection E as <- <-. exact Hl.
  - apply fallback_refs in E. destruct E as (Hnd & Hn & Hb).
    apply grown_length in Hg. split; [exact Hnd|]. split; [lia|].
    eapply Forall_impl; [exact Hb|]. simpl. intros. lia.
Qed.

(** What [coordinate] gets from [decompose_task]: distinct references to
    objects just built, and an unchanged history. *)
Lemma decompose_task_fresh o task s subtasks s1 :
  decompose_task o task s = (Ok subtasks, s1) →
  NoDup subtasks ∧
  Forall (λ r, ∃ t, heap s1 !! r = Some t ∧ fresh t) subtasks ∧
  trace s1 = trace s.
Proof.
  intros E. pose proof (growing_decompose_task _ _ _ _ _ E) as (new & Hh & Hf & Ht).
  apply decompose_task_refs in E as (Hnd & Hn & Hb).
  split; [exact Hnd|]. split; [|exact Ht].
  eapply Forall_impl; [exact Hb|]. intros r [Hlo Hhi]. simpl in *.
  rewrite Hh in *. rewrite length_app in Hhi.
  destruct (new !! (r - List.length (heap s))%nat) as [t|] eqn:Ht'.
  - exists t. split.
    + rewrite lookup_app_r by lia. exact Ht'.
    + rewrite Forall_forall in Hf. apply Hf. eapply list_elem_of_lookup_2. exact Ht'.
  - apply lookup_ge_None in Ht'. lia.
Qed.

End Decomposition.

(** ** Running [coordinate] *)

Section Coordinate.
Context `{Env}.
Variable o : AgentOrchestrator.

Lemma has_status_run v r s t :
  heap s !! r = Some t → has_status v r s = (Ok (bool_decide (status t = v)), s).
Proof.
  intros Ht. unfold has_status.
  rewrite (bind_ok _ _ _ _ _ (attr_run status r s t Ht)). reflexivity.
Qed.

Lemma has_status_in_iff h v r t :
  h !! r = Some t → has_status_in h v r ↔ status t = v.
Proof. intros Ht. unfold has_status_in. rewrite Ht. simpl. split; congruence. Qed.

Lemma any_status_run v l s :
  valid_refs (heap s) l →
  any l (has_status v) s =
    (Ok (bool_decide (Exists (has_status_in (heap s) v) l)), s).
Proof.
  induction 1 as [|r l [t Ht] _ IH]; simpl.
  - reflexivity.
  - rewrite (bind_ok _ _ _ _ _ (has_status_run v r s t Ht)).
    pose proof (has_status_in_iff (heap s) v r t Ht) as Hiff.
    destruct (decide (status t = v)) as [Hst|Hst].
    + rewrite (bool_decide_eq_true_2 (status t = v)) by exact Hst.
      rewrite bool_decide_eq_true_2; [reflexivity|]. apply Exists_cons_hd. tauto.
    + rewrite (bool_decide_eq_false_2 (status t = v)) by exact Hst.
      rewrite IH. do 2 f_equal. apply bool_decide_ext. rewrite Exists_cons. tauto.
Qed.

Lemma list_filter_status_run v l s :
  valid_refs (heap s) l →
  list_filter l (has_status v) s = (Ok (filter (has_status_in (heap s) v) l), s).
Proof.
  induction 1 as [|r l [t Ht] _ IH]; simpl; [reflexivity|].
  rewrite (bind_ok _ _ _ _ _ (has_status_run v r s t Ht)).
  rewrite (bind_ok _ _ _ _ _ IH).
  pose proof (has_status_in_iff (heap s) v r t Ht) as Hiff.
  rewrite filter_cons. destruct (decide (status t = v)) as [Hst|Hst].
  - rewrite (bool_decide_eq_true_2 (status t = v)) by exact Hst.
    rewrite decide_True by tauto. reflexivity.
  - rewrite (bool_decide_eq_false_2 (status t = v)) by exact Hst.
    rewrite decide_False by tauto. reflexivity.
Qed.

Lemma list_comp_run {B} (body : ref → M B) (g : AgentTask → B) l s :
  (∀ r t, heap s !! r = Some t → body r s = (Ok (g t), s)) →
  valid_refs (heap s) l →
  list_comp l body s = (Ok (g <$> objects (heap s) l), s).
Proof.
  intros Hbody. induction 1 as [|r l [t Ht] _ IH]; simpl; [reflexivity|].
  rewrite (bind_ok _ _ _ _ _ (Hbody r t Ht)), (bind_ok _ _ _ _ _ IH).
  unfold objects. simpl. rewrite Ht. reflexivity.
Qed.

(** [execute_task] always returns, and touches nothing but its task, the
    world, the memory sink and the history. *)
Lemma execute_task_post task s t :
  heap s !! task = Some t →
  ∃ t' w' ml evs,
    execute_task o task s =
      (Ok task, mkState (<[task := t']> (heap s)) w' (memory_log s ++ ml)
                  (execution_history s) (trace s ++ evs)) ∧
    same_spec t t' ∧ Forall (about_task task) evs ∧
    ((retry_count t ≤ max_retries t)%nat → status t' = Completed ∨ status t' = Failed).
Proof.
  intros Ht.
  destruct (dict_get (agent_type t) (agents o)) as [agent|] eqn:Hag.
  - rewrite (execute_task_registered o agent task s t Ht Hag).
    set (s1 := mkState _ _ _ _ _).
    assert (Ht1 : heap s1 !! task = Some (running_task (world s) t)).
    { simpl. apply lookup_updated with t. exact Ht. }
    destruct (retry_loop_post o agent task
                (S (max_retries t) - retry_count t) s1 _ Ht1)
      as (t' & w' & ml & evs & Hrun & Hspec & Hev & Hout).
    { simpl. lia. }
    exists t', w', ml, (StatusSet task Running :: evs).
    split; [|split; [|split]].
    + rewrite Hrun. subst s1. simpl. rewrite list_insert_insert_eq, <- app_assoc.
      reflexivity.
    + eapply same_spec_trans; [apply (same_spec_running (world s) t)|exact Hspec].
    + constructor; [reflexivity|exact Hev].
    + intros Hle. destruct Hout as [Hlt _ _|_ Hs _ _ _|_ Hs _ _ _]; simpl in *;
        [lia|auto..].
  - exists (rejected_task t), (world s), [], [StatusSet task Failed].
    split; [|split; [|split]].
    + rewrite (execute_task_unregistered o task s t Ht Hag), app_nil_r. reflexivity.
    + apply same_spec_rejected.
    + repeat constructor.
    + intros _. right. reflexivity.
Qed.

(** The batch of one iteration: every task of the batch ends in a
    terminal state, every other object is untouched. *)
Lemma gather_post ready : ∀ s,
  NoDup ready →
  Forall (λ r, ∃ t, heap s !! r = Some t ∧ (retry_count t ≤ max_retries t)%nat) ready →
  ∃ s' evs,
    for_each ready (λ task, execute_task o task ;; mret tt) s = (Ok tt, s') ∧
    (∀ r, r ∉ ready → heap s' !! r = heap s !! r) ∧
    (∀ r, r ∈ ready → ∃ t t', heap s !! r = Some t ∧ heap s' !! r = Some t' ∧
                              same_spec t t' ∧
                              (status t' = Completed ∨ status t' = Failed)) ∧
    trace s' = trace s ++ evs ∧
    Forall (λ e, ∃ r, r ∈ ready ∧ about_task r e) evs.
Proof.
  induction ready as [|r ready IH]; intros s Hnd Hpre.
  - exists s, []. simpl. rewrite app_nil_r. repeat split; try done.
    intros r Hr. inversion Hr.
  - apply NoDup_cons in Hnd as [Hnotin Hnd].
    apply Forall_cons in Hpre as [(t & Ht & Hle) Hpre].
    destruct (execute_task_post r s t Ht)
      as (t' & w' & ml & evs & Hrun & Hspec & Hev & Hterm).
    set (s1 := mkState _ _ _ _ _) in Hrun.
    assert (Hother : ∀ x, x ≠ r → heap s1 !! x = heap s !! x).
    { intros x Hx. simpl. apply list_lookup_insert_ne. congruence. }
    assert (Hself : heap s1 !! r = Some t').
    { simpl. apply lookup_updated with t. exact Ht. }
    destruct (IH s1 Hnd) as (s' & evs' & Hrun' & Hout & Hin & Htr & Hev').
    { rewrite Forall_forall in Hpre. apply Forall_forall. intros x Hx.
      rewrite Hother by (intros ->; contradiction). auto. }
    exists s', (evs ++ evs'). split; [|split; [|split; [|split]]].
    + simpl. rewrite bind_run, bind_run, Hrun. exact Hrun'.
    + intros x Hx. apply not_elem_of_cons in Hx as [Hx1 Hx2].
      rewrite Hout by exact Hx2. auto.
    + intros x Hx. apply elem_of_cons in Hx as [->|Hx].
      * exists t, t'. rewrite Hout by exact Hnotin. auto.
      * destruct (Hin x Hx) as (t1 & t1' & Ht1 & Ht1' & ? & ?).
        exists t1, t1'. rewrite <- Hother by (intros ->; contradiction). auto.
    + rewrite Htr. simpl. rewrite app_assoc. reflexivity.
    + apply Forall_app. split.
      * eapply Forall_impl; [exact Hev|]. intros e He. exists r. split; [left|exact He].
      * eapply Forall_impl; [exact Hev'|]. intros e (x & Hx & He).
        exists x. split; [right; exact Hx|exact He].
Qed.


Variables (subtasks : list ref) (h0 : list AgentTask).
Hypothesis subtasks_distinct : NoDup subtasks.

Lemma run_inv_valid h : run_inv h0 h subtasks → valid_refs h subtasks.
Proof.
  unfold run_inv, valid_refs. intros Hi. eapply Forall_impl; [exact Hi|].
  intros r (t0 & t & _ & Ht & _). eauto.
Qed.

Lemma readySet_pending h r :
  r ∈ readySet h subtasks → ∃ t, h !! r = Some t ∧ status t = Pending.
Proof.
  unfold readySet. rewrite list_elem_of_filter. intros [Hr _].
  unfold ready_spec in Hr. destruct (h !! r) as [t|]; [|done].
  exists t. tauto.
Qed.

Lemma filter_length_shrink {A} (P Q : A → Prop) `{∀ x, Decision (P x)}
    `{∀ x, Decision (Q x)} (l : list A) (x : A) :
  (∀ y, y ∈ l → Q y → P y) → x ∈ l → P x → ¬ Q x →
  (List.length (filter Q l) < List.length (filter P l))%nat.
Proof.
  intros Hsub Hx HP HQ.
  assert (Hle : ∀ l', (∀ y, y ∈ l' → Q y → P y) →
                      (List.length (filter Q l') ≤ List.length (filter P l'))%nat).
  { induction l' as [|y l' IH]; intros Hs; [reflexivity|].
    rewrite !filter_cons.
    assert (IH' := IH (λ z Hz, Hs z (list_elem_of_further _ _ _ Hz))).
    destruct (decide (Q y)) as [Hq|Hq].
    - rewrite decide_True by (apply Hs; [left|exact Hq]). simpl. lia.
    - destruct (decide (P y)); simpl; lia. }
  induction l as [|y l IH]; [inversion Hx|].
  rewrite !filter_cons.
  assert (Hsub' : ∀ z, z ∈ l → Q z → P z).
  { intros z Hz. apply Hsub. right. exact Hz. }
  apply elem_of_cons in Hx as [<-|Hx].
  - rewrite decide_False by exact HQ. rewrite decide_True by exact HP.
    simpl. specialize (Hle l Hsub'). lia.
  - specialize (IH Hsub' Hx).
    destruct (decide (Q y)) as [Hq|Hq].
    + rewrite decide_True by (apply Hsub; [left|exact Hq]). simpl. lia.
    + destruct (decide (P y)); simpl; lia.
Qed.

(** One iteration that dispatches a non-empty ready set keeps the
    invariant and takes at least one subtask out of the pending ones. *)
Lemma iteration_post s :
  run_inv h0 (heap s) subtasks →
  readySet (heap s) subtasks ≠ [] →
  ∃ s' evs,
    for_each (readySet (heap s) subtasks) (λ task, execute_task o task ;; mret tt) s
      = (Ok tt, s') ∧
    run_inv h0 (heap s') subtasks ∧
    (List.length (pending_refs (heap s') subtasks)
     < List.length (pending_refs (heap s) subtasks))%nat ∧
    (∀ r, r ∉ readySet (heap s) subtasks → heap s' !! r = heap s !! r) ∧
    trace s' = trace s ++ evs ∧
    (∀ k ready, Iteration k ready ∉ evs) ∧
    (∀ p, StallWarning p ∉ evs).
Proof.
  intros Hinv Hne.
  set (ready := readySet (heap s) subtasks) in *.
  assert (Hsubset : ∀ r, r ∈ ready → r ∈ subtasks).
  { intros r. unfold ready, readySet. rewrite list_elem_of_filter. tauto. }
  pose proof Hinv as Hinv'. unfold run_inv in Hinv'. rewrite Forall_forall in Hinv'.
  destruct (gather_post ready s) as (s' & evs & Hrun & Hout & Hin & Htr & Hev).
  { apply NoDup_filter. exact subtasks_distinct. }
  { apply Forall_forall. intros r Hr.
    destruct (readySet_pending _ _ Hr) as (t & Ht & Hst).
    destruct (Hinv' r (Hsubset r Hr)) as (t0 & t1 & _ & Ht1 & _ & Hcase).
    exists t. split; [exact Ht|]. rewrite Ht in Ht1. injection Ht1 as <-.
    destruct Hcase as [(_ & _ & Hle)|[Hc|Hc]]; [exact Hle|congruence..]. }
  exists s', evs. split; [exact Hrun|]. split; [|split; [|split; [exact Hout|split; [exact Htr|]]]].
  - apply Forall_forall. intros r Hr.
    destruct (Hinv' r Hr) as (t0 & t & Ht0 & Ht & Hspec & Hcase).
    destruct (decide (r ∈ ready)) as [Hready|Hready].
    + destruct (Hin r Hready) as (t1 & t1' & Ht1 & Ht1' & Hspec1 & Hterm).
      rewrite Ht in Ht1. injection Ht1 as <-.
      exists t0, t1'. split; [exact Ht0|]. split; [exact Ht1'|].
      split; [eapply same_spec_trans; eassumption|]. right. exact Hterm.
    + exists t0, t. rewrite (Hout r Hready).
      split; [exact Ht0|]. split; [exact Ht|]. split; assumption.
  - destruct ready as [|r0 ready'] eqn:Hready; [done|].
    assert (Hr0 : r0 ∈ readySet (heap s) subtasks).
    { fold ready. rewrite Hready. left. }
    destruct (readySet_pending _ _ Hr0) as (t & Ht & Hst).
    destruct (Hin r0) as (t1 & t1' & Ht1 & Ht1' & _ & Hterm); [left|].
    apply (filter_length_shrink _ _ subtasks r0).
    + intros y Hy Hpend.
      destruct (decide (y ∈ r0 :: ready')) as [Hyr|Hyr].
      * destruct (Hin y Hyr) as (? & ty' & _ & Hty' & _ & Hterm').
        unfold has_status_in in Hpend. rewrite Hty' in Hpend. simpl in Hpend.
        destruct Hterm'; congruence.
      * unfold has_status_in in *. rewrite <- (Hout y Hyr). exact Hpend.
    + apply Hsubset. left.
    + unfold has_status_in. rewrite Ht. simpl. congruence.
    + unfold has_status_in. rewrite Ht1'. simpl. destruct Hterm; congruence.
  - split.
    + intros k rd Hk. rewrite Forall_forall in Hev.
      destruct (Hev _ Hk) as (r & _ & Habs). exact Habs.
    + intros p Hp. rewrite Forall_forall in Hev.
      destruct (Hev _ Hp) as (r & _ & Habs). exact Habs.
Qed.


Lemma coordinate_loop_unfold fuel i s :
  coordinate_loop o subtasks fuel i s =
  (pending ← any subtasks (has_status Pending);
   if (pending : bool) && bool_decide (i < max_iterations)%nat then
     match fuel with
     | O => fault
     | S fuel' =>
         let iteration := (i + 1)%nat in
         ready_tasks ← get_ready_tasks subtasks;
         match ready_tasks with
         | [] =>
             pending ← list_filter subtasks (has_status Pending);
             match pending with
             | [] => mret tt
             | _ => emit (StallWarning pending)
             end ;;
             mret iteration
         | _ =>
             emit (Iteration iteration ready_tasks) ;;
             for_each ready_tasks (λ task, execute_task o task ;; mret tt) ;;
             coordinate_loop o subtasks fuel' iteration
         end
     end
   else mret i) s.
Proof. destruct fuel; reflexivity. Qed.

Lemma filter_nil_iff {A} (P : A → Prop) `{∀ x, Decision (P x)} (l : list A) :
  filter P l = [] ↔ ¬ Exists P l.
Proof.
  induction l as [|x l IH]; [rewrite Exists_nil; tauto|].
  rewrite filter_cons, Exists_cons. destruct (decide (P x)); [|tauto].
  split; [discriminate|tauto].
Qed.

(** The three ways through one evaluation of the loop. *)
Lemma coordinate_loop_done fuel i s :
  valid_refs (heap s) subtasks →
  ¬ (Exists (has_status_in (heap s) Pending) subtasks ∧ (i < max_iterations)%nat) →
  coordinate_loop o subtasks fuel i s = (Ok i, s).
Proof.
  intros Hvalid Hno. rewrite coordinate_loop_unfold.
  rewrite (bind_ok _ _ _ _ _ (any_status_run Pending subtasks s Hvalid)).
  destruct (decide (Exists (has_status_in (heap s) Pending) subtasks)) as [Hp|Hp].
  - rewrite (bool_decide_eq_false_2 (i < max_iterations)%nat) by tauto.
    rewrite andb_false_r. reflexivity.
  - rewrite (bool_decide_eq_false_2 _ Hp). reflexivity.
Qed.

Lemma coordinate_loop_stall fuel i s :
  valid_refs (heap s) subtasks →
  Exists (has_status_in (heap s) Pending) subtasks → (i < max_iterations)%nat →
  readySet (heap s) subtasks = [] →
  coordinate_loop o subtasks (S fuel) i s =
    (Ok (i + 1)%nat,
     set_trace (trace s ++ [StallWarning (pending_refs (heap s) subtasks)]) s).
Proof.
  intros Hvalid Hp Hlt Hready. rewrite coordinate_loop_unfold.
  rewrite (bind_ok _ _ _ _ _ (any_status_run Pending subtasks s Hvalid)).
  rewrite (bool_decide_eq_true_2 _ Hp), (bool_decide_eq_true_2 _ Hlt).
  cbn [andb]. cbv iota zeta. unfold get_ready_tasks.
  rewrite (bind_ok _ _ _ _ _ (ready_loop_run subtasks subtasks [] s Hvalid Hvalid)).
  rewrite app_nil_l. fold (readySet (heap s) subtasks). rewrite Hready.
  rewrite (bind_ok _ _ _ _ _ (list_filter_status_run Pending subtasks s Hvalid)).
  fold (pending_refs (heap s) subtasks).
  destruct (pending_refs (heap s) subtasks) as [|p0 p'] eqn:Hpl; [|reflexivity].
  apply filter_nil_iff in Hpl. contradiction.
Qed.

Lemma coordinate_loop_dispatch fuel i s :
  valid_refs (heap s) subtasks →
  Exists (has_status_in (heap s) Pending) subtasks → (i < max_iterations)%nat →
  readySet (heap s) subtasks ≠ [] →
  coordinate_loop o subtasks (S fuel) i s =
    (for_each (readySet (heap s) subtasks) (λ task, execute_task o task ;; mret tt) ;;
     coordinate_loop o subtasks fuel (i + 1)%nat)
      (set_trace (trace s ++ [Iteration (i + 1) (readySet (heap s) subtasks)]) s).
Proof.
  intros Hvalid Hp Hlt Hready. rewrite coordinate_loop_unfold.
  rewrite (bind_ok _ _ _ _ _ (any_status_run Pending subtasks s Hvalid)).
  rewrite (bool_decide_eq_true_2 _ Hp), (bool_decide_eq_true_2 _ Hlt).
  cbn [andb]. cbv iota zeta. unfold get_ready_tasks.
  rewrite (bind_ok _ _ _ _ _ (ready_loop_run subtasks subtasks [] s Hvalid Hvalid)).
  rewrite app_nil_l. fold (readySet (heap s) subtasks).
  destruct (readySet (heap s) subtasks) as [|r0 ready'] eqn:Hr; [done|].
  reflexivity.
Qed.

(** The loop of [coordinate] ends, keeping the invariant; objects change
    only when dispatched; and it ends because nothing is pending, because
    of a stall, or at the cap after as many productive iterations. *)
Lemma coordinate_loop_post fuel : ∀ i s,
  (fuel + i = max_iterations)%nat →
  run_inv h0 (heap s) subtasks →
  ∃ n s' evs,
    coordinate_loop o subtasks fuel i s = (Ok n, s') ∧
    run_inv h0 (heap s') subtasks ∧
    trace s' = trace s ++ evs ∧
    (∀ k ready, Iteration k ready ∈ evs →
       ∃ h, run_inv h0 h subtasks ∧ ready = readySet h subtasks) ∧
    (∀ r, (∀ k ready, Iteration k ready ∈ evs → r ∉ ready) →
          heap s' !! r = heap s !! r) ∧
    loop_exit subtasks i (heap s) (heap s') evs.
Proof.
  induction fuel as [|fuel IH]; intros i s Hfuel Hinv;
    pose proof (run_inv_valid _ Hinv) as Hvalid.
  - exists i, s, []. rewrite app_nil_r.
    split; [apply coordinate_loop_done; [exact Hvalid|lia]|].
    repeat split; try done.
    + intros k ready Hk. inversion Hk.
    + right. right. split; lia.
  - destruct (decide (Exists (has_status_in (heap s) Pending) subtasks)) as [Hpend|Hnone].
    2:{ exists i, s, []. rewrite app_nil_r.
        split; [apply coordinate_loop_done; [exact Hvalid|tauto]|].
        repeat split; try done.
        + intros k ready Hk. inversion Hk.
        + left. apply filter_nil_iff. exact Hnone. }
    assert (Hlt : (i < max_iterations)%nat) by lia.
    destruct (decide (readySet (heap s) subtasks = [])) as [Hready|Hready].
    + exists (i + 1)%nat,
        (set_trace (trace s ++ [StallWarning (pending_refs (heap s) subtasks)]) s),
        [StallWarning (pending_refs (heap s) subtasks)].
      split; [apply coordinate_loop_stall; assumption|].
      simpl. split; [exact Hinv|]. split; [reflexivity|].
      split; [|split; [reflexivity|]].
      * intros k ready Hk. apply list_elem_of_singleton in Hk. discriminate.
      * right. left. split; [left|]. split; [|exact Hready].
        intros Hp. apply filter_nil_iff in Hp. contradiction.
    + set (s1 := set_trace (trace s ++ [Iteration (i + 1) (readySet (heap s) subtasks)]) s).
      destruct (iteration_post s1)
        as (s2 & evs2 & Hrun2 & Hinv2 & Hlt2 & Hout & Htr2 & Hni & Hns).
      { exact Hinv. }
      { exact Hready. }
      destruct (IH (i + 1)%nat s2)
        as (n & s' & evs' & Hrun' & Hinv' & Htr' & Hiter & Hfix & Hexit).
      { lia. }
      { exact Hinv2. }
      exists n, s', (Iteration (i + 1) (readySet (heap s) subtasks) :: evs2 ++ evs').
      split; [|split; [exact Hinv'|split; [|split; [|split]]]].
      * rewrite coordinate_loop_dispatch by assumption. fold s1.
        rewrite bind_run. simpl in Hrun2. rewrite Hrun2. exact Hrun'.
      * rewrite Htr', Htr2. simpl. rewrite <- !app_assoc. reflexivity.
      * intros k ready Hk. apply elem_of_cons in Hk as [Hk|Hk].
        -- injection Hk as -> ->. exists (heap s). split; [exact Hinv|reflexivity].
        -- apply elem_of_app in Hk as [Hk|Hk]; [exfalso; eapply Hni; exact Hk|].
           eapply Hiter. exact Hk.
      * intros r Hr. rewrite Hfix.
        -- rewrite Hout; [reflexivity|]. simpl. apply (Hr (i + 1)%nat). left.
        -- intros k ready Hk. apply (Hr k). right. apply elem_of_app. right. exact Hk.
      * simpl in Hlt2. destruct Hexit as [Hdone|[(Hw & Hp & Hst)|(Hcount & Hcap)]].
        -- left. exact Hdone.
        -- right. left. split; [|split; assumption].
           right. apply elem_of_app. right. exact Hw.
        -- right. right. split; [lia|]. intros _.
           destruct (decide (i + 1 < max_iterations)%nat) as [Hlt'|Hge].
           ++ destruct (Hcap Hlt') as (ready & Hk). exists ready.
              right. apply elem_of_app. right. exact Hk.
           ++ exists (readySet (heap s) subtasks).
              replace max_iterations with (i + 1)%nat by lia. left.
Qed.

End Coordinate.

(** ** The dependency graph *)

Section Graph.
Context `{Env}.
Variables (subtasks : list ref) (h0 : list AgentTask).

Lemma elem_of_objects h refs t :
  t ∈ objects h refs ↔ ∃ r, r ∈ refs ∧ h !! r = Some t.
Proof. unfold objects. apply list_elem_of_omap. Qed.

Lemma resolve_Some h tasks dep_id d :
  resolve h tasks dep_id = Some d → d ∈ tasks ∧ task_id <$> h !! d = Some dep_id.
Proof.
  unfold resolve. intros Hd.
  apply head_Some_elem_of, list_elem_of_filter in Hd. tauto.
Qed.

Lemma resolve_is_Some h tasks dep_id r :
  r ∈ tasks → task_id <$> h !! r = Some dep_id → is_Some (resolve h tasks dep_id).
Proof.
  unfold resolve. intros Hr Hid.
  destruct (filter _ tasks) as [|d l] eqn:Hf; [|simpl; eauto].
  exfalso. eapply (filter_nil_not_elem_of _ tasks r Hf); assumption.
Qed.


Lemma resolve_unique h tasks dep_id d :
  valid_refs h tasks → NoDup (identifiers h tasks) →
  d ∈ tasks → task_id <$> h !! d = Some dep_id →
  resolve h tasks dep_id = Some d.
Proof.
  unfold resolve, identifiers, objects.
  induction 1 as [|r tasks [t Ht] _ IH]; intros Hnd Hd Hid; [inversion Hd|].
  simpl in Hnd. rewrite Ht in Hnd. simpl in Hnd. apply NoDup_cons in Hnd as [Hnotin Hnd].
  rewrite filter_cons.
  destruct (decide (task_id <$> h !! r = Some dep_id)) as [Hr|Hr].
  - apply elem_of_cons in Hd as [->|Hd]; [reflexivity|]. exfalso. apply Hnotin.
    rewrite Ht in Hr. injection Hr as ->.
    destruct (h !! d) as [td|] eqn:Htd; [|discriminate]. injection Hid as <-.
    apply list_elem_of_fmap. exists td. split; [reflexivity|].
    apply list_elem_of_omap. eauto.
  - apply elem_of_cons in Hd as [->|Hd]; [contradiction|]. auto.
Qed.

Lemma ready_spec_unique h tasks r :
  valid_refs h tasks → NoDup (identifiers h tasks) →
  r ∈ filter (ready_spec h tasks) tasks ↔ ready_unique h tasks r.
Proof.
  intros Hv Hnd. rewrite list_elem_of_filter. unfold ready_spec, ready_unique.
  split.
  - intros [Hspec Hr]. split; [exact Hr|].
    destruct (h !! r) as [t|]; [|contradiction]. destruct Hspec as [Hst Hall].
    exists t. split; [reflexivity|]. split; [exact Hst|].
    intros dep_id Hdep. rewrite Forall_forall in Hall. specialize (Hall dep_id Hdep).
    unfold resolved_status in Hall.
    destruct (resolve h tasks dep_id) as [d|] eqn:Hd; [|discriminate].
    apply resolve_Some in Hd as [Hdin Hdid]. exists d. auto.
  - intros [Hr (t & Ht & Hst & Hall)]. split; [|exact Hr].
    rewrite Ht. split; [exact Hst|]. apply Forall_forall. intros dep_id Hdep.
    destruct (Hall dep_id Hdep) as (d & Hdin & Hdid & Hdst).
    unfold resolved_status. rewrite (resolve_unique h tasks dep_id d Hv Hnd Hdin Hdid).
    exact Hdst.
Qed.

Lemma run_inv_lookup h r :
  run_inv h0 h subtasks → r ∈ subtasks →
  ∃ t0 t, h0 !! r = Some t0 ∧ h !! r = Some t ∧ task_inv t0 t.
Proof. unfold run_inv. rewrite Forall_forall. auto. Qed.

Lemma run_inv_identifier h r dep_id :
  run_inv h0 h subtasks → r ∈ subtasks →
  task_id <$> h !! r = Some dep_id ↔ task_id <$> h0 !! r = Some dep_id.
Proof.
  intros Hinv Hr.
  destruct (run_inv_lookup h r Hinv Hr) as (t0 & t & Ht0 & Ht & (Hid & _) & _).
  rewrite Ht0, Ht. simpl. rewrite Hid. reflexivity.
Qed.


(** In a stall of an acyclic graph whose prerequisites all resolve, some
    subtask has failed. *)
Lemma stall_has_failed h :
  run_inv h0 h subtasks → acyclic h0 subtasks → resolvable h0 subtasks →
  readySet h subtasks = [] → pending_refs h subtasks ≠ [] →
  Exists (has_status_in h Failed) subtasks.
Proof.
  intros Hinv [rank Hrank] Hres Hstall Hpend.
  assert (Hstep : ∀ n r t, r ∈ subtasks → h !! r = Some t → status t = Pending →
                  (rank (task_id t) < n)%nat → Exists (has_status_in h Failed) subtasks).
  { induction n as [|n IH]; intros r t Hr Ht Hst Hn; [lia|].
    destruct (run_inv_lookup h r Hinv Hr)
      as (t0 & t' & Ht0 & Ht' & (Hid & _ & _ & Hdeps & _) & _).
    rewrite Ht in Ht'. injection Ht' as <-.
    assert (Hnot : ¬ ready_spec h subtasks r).
    { intros Hspec. apply (filter_nil_not_elem_of _ _ r Hstall Hspec Hr). }
    unfold ready_spec in Hnot. rewrite Ht in Hnot.
    assert (Hex : Exists (not ∘ (λ dep_id, resolved_status h subtasks dep_id = Some Completed))
                    (dependencies t)).
    { apply not_Forall_Exists; [apply _|]. tauto. }
    apply Exists_exists in Hex as (dep_id & Hdep & Hbad). simpl in Hbad.
    assert (Hobj : t0 ∈ objects h0 subtasks) by (apply elem_of_objects; eauto).
    rewrite Hdeps in Hdep.
    pose proof (Hres t0 dep_id Hobj Hdep) as Hin.
    pose proof (Hrank t0 dep_id Hobj Hdep) as Hlt.
    unfold identifiers in Hin. apply list_elem_of_fmap in Hin as (td0 & Hidd & Hin).
    apply elem_of_objects in Hin as (rd & Hrd & Htd0).
    assert (Hidh : task_id <$> h !! rd = Some dep_id).
    { apply (run_inv_identifier h rd dep_id Hinv Hrd). rewrite Htd0. simpl. congruence. }
    destruct (resolve_is_Some h subtasks dep_id rd Hrd Hidh) as [d Hd].
    destruct (resolve_Some _ _ _ _ Hd) as [Hdin Hdid].
    destruct (run_inv_lookup h d Hinv Hdin) as (td0' & td & _ & Htd & _ & Hcase).
    unfold resolved_status in Hbad. rewrite Hd in Hbad. simpl in Hbad.
    rewrite Htd in Hbad, Hdid. simpl in Hbad, Hdid. injection Hdid as Hdid.
    destruct Hcase as [(_ & Hp & _)|[Hc|Hf]].
    - apply (IH d td Hdin Htd Hp). rewrite Hdid. rewrite Hid in Hn. lia.
    - rewrite Hc in Hbad. contradiction.
    - apply Exists_exists. exists d. split; [exact Hdin|].
      unfold has_status_in. rewrite Htd. simpl. congruence. }
  destruct (pending_refs h subtasks) as [|r l] eqn:Hp; [done|].
  assert (Hr : r ∈ pending_refs h subtasks) by (rewrite Hp; left).
  unfold pending_refs in Hr. apply list_elem_of_filter in Hr as [Hst Hr].
  unfold has_status_in in Hst. destruct (h !! r) as [t|] eqn:Ht; [|discriminate].
  injection Hst as Hst.
  exact (Hstep (S (rank (task_id t))) r t Hr Ht Hst (Nat.lt_succ_diag_r _)).
Qed.


End Graph.

(** ** A whole run *)

Section Run.
Context `{Env}.
Variable o : AgentOrchestrator.

Lemma fresh_run_inv h subtasks :
  Forall (λ r, ∃ t, h !! r = Some t ∧ fresh t) subtasks → run_inv h h subtasks.
Proof.
  intros Hf. eapply Forall_impl; [exact Hf|]. intros r (t & Ht & Hst & Hrc & Hmr).
  exists t, t. split; [exact Ht|]. split; [exact Ht|].
  split; [apply same_spec_refl|]. left. split; [reflexivity|]. split; [exact Hst|lia].
Qed.

(** The writes to the memory sink before the loop. *)
Lemma memory_prelude task subtasks s :
  valid_refs (heap s) subtasks →
  ∃ s', (if memory o then
           memory_store o "orchestration_task" (MemText task) "working" ;;
           dicts ← list_comp subtasks (attr to_dict);
           memory_store o "subtasks" (MemTasks dicts) "working"
         else mret tt) s = (Ok tt, s') ∧
        heap s' = heap s ∧ trace s' = trace s.
Proof.
  intros Hv. destruct (memory o) eqn:Hm; [|exists s; repeat split].
  eexists. split; [|split].
  - rewrite bind_run. unfold memory_store at 1. rewrite Hm. cbn beta iota.
    erewrite (bind_ok _ _ _ _ _ (list_comp_run (attr to_dict) to_dict subtasks _ _ _)).
    unfold memory_store. rewrite Hm. reflexivity.
  - reflexivity.
  - reflexivity.
  Unshelve.
  + intros r t Ht. apply attr_run. exact Ht.
  + exact Hv.
Qed.

Lemma part_run s r t :
  heap s !! r = Some t →
  (id ← attr task_id r; ty ← attr agent_type r; res ← attr result r;
   mret (id +:+ " (" +:+ ty +:+ "):" +:+ nl +:+ default "None" res)) s =
  (Ok (task_id t +:+ " (" +:+ agent_type t +:+ "):" +:+ nl +:+ default "None" (result t)), s).
Proof.
  intros Ht.
  rewrite (bind_ok _ _ _ _ _ (attr_run task_id r s t Ht)).
  rewrite (bind_ok _ _ _ _ _ (attr_run agent_type r s t Ht)).
  rewrite (bind_ok _ _ _ _ _ (attr_run result r s t Ht)). reflexivity.
Qed.

Lemma valid_refs_filter (P : ref → Prop) `{∀ x, Decision (P x)} h l :
  valid_refs h l → valid_refs h (filter P l).
Proof.
  unfold valid_refs. rewrite !Forall_forall. intros Hv r Hr.
  apply list_elem_of_filter in Hr as [_ Hr]. auto.
Qed.

Lemma epilogue_run {A} (c : bool) (text source : string) (r : A) s :
  ((if c then memory_store_fact text source else mret tt) ;; mret r) s =
  (Ok r, if c then set_memory_log (memory_log s ++ [StoreFact text source]) s else s).
Proof. destruct c; reflexivity. Qed.

(** The whole of [coordinate], once the decomposition is known. *)
Lemma coordinate_post task s subtasks s1 :
  decompose_task o task s = (Ok subtasks, s1) →
  ∃ r s' evs,
    coordinate o task s = (Ok r, s') ∧
    run_inv (heap s1) (heap s') subtasks ∧
    trace s' = trace s1 ++ evs ∧
    (∀ k ready, Iteration k ready ∈ evs →
       ∃ h, run_inv (heap s1) h subtasks ∧ ready = readySet h subtasks) ∧
    (∀ x, (∀ k ready, Iteration k ready ∈ evs → x ∉ ready) →
          heap s' !! x = heap s1 !! x) ∧
    loop_exit subtasks 0 (heap s1) (heap s') evs ∧
    r_subtasks r = to_dict <$> objects (heap s') subtasks ∧
    r_success r =
      bool_decide (List.length (filter (has_status_in (heap s') Completed) subtasks)
                   = List.length subtasks).
Proof.
  intros Hdec.
  destruct (decompose_task_fresh _ _ _ _ _ Hdec) as (Hnd & Hfresh & _).
  pose proof (fresh_run_inv _ _ Hfresh) as Hinv1.
  destruct (memory_prelude task subtasks s1 (run_inv_valid _ _ _ Hinv1))
    as (s1m & Hmem & Hheap & Htrace).
  rewrite <- Hheap in Hinv1 at 2.
  destruct (coordinate_loop_post o subtasks (heap s1) Hnd max_iterations 0 s1m)
    as (n & s2 & evs & Hloop & Hinv2 & Htr2 & Hiter & Hfix & Hexit).
  { reflexivity. }
  { exact Hinv1. }
  pose proof (run_inv_valid _ _ _ Hinv2) as Hv2.
  eexists _, _, evs. split; [|split; [|split; [|split; [|split; [|split; [|split]]]]]].
  - unfold coordinate. rewrite bind_run. unfold clock at 1. cbn beta iota.
    rewrite (bind_ok _ _ _ _ _ Hdec).
    rewrite (bind_ok _ _ _ _ _ Hmem).
    rewrite (bind_ok _ _ _ _ _ Hloop).
    rewrite (bind_ok _ _ _ _ _ (list_filter_status_run Completed subtasks s2 Hv2)).
    rewrite (bind_ok _ _ _ _ _ (list_filter_status_run Failed subtasks s2 Hv2)).
    erewrite (bind_ok _ _ _ _ _ (list_comp_run _ _ _ s2 (part_run s2) _)).
    rewrite bind_run. unfold clock at 1. cbn beta iota zeta.
    erewrite (bind_ok _ _ _ _ _ (list_comp_run (attr to_dict) to_dict subtasks s2 _ Hv2)).
    rewrite bind_run. unfold history_append at 1. cbn beta iota.
    rewrite epilogue_run. reflexivity.
  - destruct (memory o && _); exact Hinv2.
  - destruct (memory o && _); simpl; rewrite Htr2, Htrace; reflexivity.
  - exact Hiter.
  - intros x Hx. destruct (memory o && _); simpl; rewrite (Hfix x Hx), Hheap; reflexivity.
  - rewrite Hheap in Hexit. destruct (memory o && _); exact Hexit.
  - destruct (memory o && _); reflexivity.
  - destruct (memory o && _); reflexivity.
  Unshelve.
  + apply valid_refs_filter. exact Hv2.
  + intros r t Ht. apply attr_run. exact Ht.
Qed.

End Run.

(** ** Reading the result *)

Section Results.
Context `{Env}.


Lemma dict_status_Exists h subtasks v :
  valid_refs h subtasks →
  Exists (λ d, td_status d = v) (to_dict <$> objects h subtasks) ↔
  Exists (has_status_in h v) subtasks.
Proof.
  induction 1 as [|r l [t Ht] _ IH]; [rewrite !Exists_nil; tauto|].
  unfold objects in *. simpl. rewrite Ht. simpl.
  rewrite !Exists_cons, IH, (has_status_in_iff h v r t Ht). reflexivity.
Qed.


End Results.

(** ** Checking a concrete graph or history *)
Section Checks.
Context `{Env}.




End Checks.

(** * The properties of the specification *)

Section Claims.
Context `{Env}.

(** C10. [get_ready_tasks] is a pure observer: whatever the list of
    references and the state, the state after the call (the heap with
    every field of every subtask, the world, the memory sink, the history)
    is the state before it. *)
Theorem get_ready_tasks_readonly (tasks : list ref) (s : State) :
  (get_ready_tasks tasks s).2 = s.
Proof. apply readonly_ready_loop. Qed.

(** C7. For every list of subtasks, [get_ready_tasks] returns exactly the
    subtasks of the list whose status is pending and whose every
    prerequisite identifier resolves (to the first subtask of the list
    carrying it) to a completed subtask, in the order of the list; with
    unique identifiers, these are the pending subtasks each of whose
    prerequisite identifiers is carried by a completed subtask of the
    list. *)
Theorem get_ready_tasks_spec (tasks : list ref) (s : State) :
  valid_refs (heap s) tasks →
  get_ready_tasks tasks s = (Ok (filter (ready_spec (heap s) tasks) tasks), s) ∧
  (NoDup (identifiers (heap s) tasks) →
   ∀ r, r ∈ filter (ready_spec (heap s) tasks) tasks ↔ ready_unique (heap s) tasks r).
Proof.
  intros Hv. split.
  - unfold get_ready_tasks.
    rewrite (ready_loop_run tasks tasks [] s Hv Hv). reflexivity.
  - intros Hnd r. apply ready_spec_unique; assumption.
Qed.

(** C6, amended. A subtask whose worker type has no registered worker is
    set to failed with the error text "No agent registered for type:
    <type>" and returned at once: the only event is that status
    assignment (no worker invocation), the world is untouched and the
    retry count keeps its value. *)
Theorem execute_task_unregistered_fails (o : AgentOrchestrator) (task : ref)
    (s : State) (t : AgentTask) :
  heap s !! task = Some t →
  dict_get (agent_type t) (agents o) = None →
  ∃ s' t',
    execute_task o task s = (Ok task, s') ∧
    heap s' !! task = Some t' ∧
    status t' = Failed ∧
    error t' = Some ("No agent registered for type: " +:+ agent_type t) ∧
    retry_count t' = retry_count t ∧
    trace s' = trace s ++ [StatusSet task Failed] ∧
    invocations task (trace s') = invocations task (trace s) ∧
    world s' = world s.
Proof.
  intros Ht Hno. eexists _, (rejected_task t).
  split; [exact (execute_task_unregistered o task s t Ht Hno)|].
  simpl. split; [apply lookup_updated with t; exact Ht|].
  repeat split. rewrite invocations_app, invocations_status. lia.
Qed.

(** C2. For a subtask with max-retries 2 (and retry-count 0, as every
    subtask starts) and a registered worker: when the worker fails exactly
    max-retries times and then succeeds, [execute_task] returns the
    subtask completed with retry-count = max-retries; when the worker
    fails on every invocation, it returns the subtask failed with
    retry-count = max-retries + 1 after exactly max-retries + 1
    invocations. *)
Theorem execute_task_retry_accounting (o : AgentOrchestrator) (agent : Agent)
    (task : ref) (s : State) (t : AgentTask) :
  heap s !! task = Some t →
  dict_get (agent_type t) (agents o) = Some agent →
  max_retries t = 2%nat → retry_count t = 0%nat →
  (fails_then_succeeds agent (description t) (max_retries t) (world s) →
   ∃ s' t', execute_task o task s = (Ok task, s') ∧
            heap s' !! task = Some t' ∧
            status t' = Completed ∧ retry_count t' = max_retries t) ∧
  (always_fails agent (description t) →
   ∃ s' t', execute_task o task s = (Ok task, s') ∧
            heap s' !! task = Some t' ∧
            status t' = Failed ∧ retry_count t' = (max_retries t + 1)%nat ∧
            invocations task (trace s') =
              (invocations task (trace s) + (max_retries t + 1))%nat).
Proof.
  intros Ht Hag Hmr Hrc.
  rewrite (execute_task_registered o agent task s t Ht Hag).
  set (s1 := mkState _ _ _ _ _).
  assert (Ht1 : heap s1 !! task = Some (running_task (world s) t)).
  { simpl. apply lookup_updated with t. exact Ht. }
  assert (Hinv1 : invocations task (trace s1) = invocations task (trace s)).
  { simpl. rewrite invocations_app, invocations_status. lia. }
  split; intros Hbeh.
  - destruct (retry_loop_fails_then_succeeds o agent task (max_retries t)
                (S (max_retries t) - retry_count t) s1
                (running_task (world s) t) Ht1)
      as (s' & t' & Hrun & Hlook & Hst & Hrc' & _).
    + simpl. lia.
    + lia.
    + exact Hbeh.
    + exists s', t'. simpl in Hrc'. repeat split; try assumption. lia.
  - destruct (retry_loop_always_fails o agent task (max_retries t)
                (S (max_retries t) - retry_count t) s1
                (running_task (world s) t) Hbeh Ht1)
      as (s' & t' & Hrun & Hlook & Hst & Hrc' & Hinv).
    + simpl. lia.
    + lia.
    + exists s', t'. simpl in Hrc'. repeat split; try assumption; lia.
Qed.

(** C3, amended. For a pending subtask (with attempts left, as every
    subtask handed to [execute_task] has), the statuses the subtask goes
    through are pending, running, completed or pending, running, failed
    when a worker is registered for its type, and pending, failed when
    none is; it is never set to pending again, and its final status is the
    last of the sequence. *)
Theorem execute_task_transitions (o : AgentOrchestrator) (task : ref)
    (s : State) (t : AgentTask) :
  heap s !! task = Some t →
  status t = Pending →
  (retry_count t ≤ max_retries t)%nat →
  ∃ s' evs t',
    execute_task o task s = (Ok task, s') ∧
    trace s' = trace s ++ evs ∧
    heap s' !! task = Some t' ∧
    let observed := status t :: status_history task evs in
    match dict_get (agent_type t) (agents o) with
    | Some _ => via_running observed
    | None => observed = [Pending; Failed]
    end ∧
    last observed = Some (status t').
Proof.
  intros Ht Hst Hle.
  destruct (dict_get (agent_type t) (agents o)) as [agent|] eqn:Hag.
  - rewrite (execute_task_registered o agent task s t Ht Hag).
    set (s1 := mkState _ _ _ _ _).
    assert (Ht1 : heap s1 !! task = Some (running_task (world s) t)).
    { simpl. apply lookup_updated with t. exact Ht. }
    destruct (retry_loop_post o agent task
                (S (max_retries t) - retry_count t) s1 _ Ht1)
      as (t' & w' & ml & evs & Hrun & _ & _ & Hout).
    { simpl. lia. }
    eexists _, (StatusSet task Running :: evs), t'.
    split; [exact Hrun|]. simpl.
    split; [rewrite <- app_assoc; reflexivity|].
    split; [rewrite list_insert_insert_eq; apply lookup_updated with t; exact Ht|].
    rewrite Hst, decide_True by reflexivity. unfold via_running.
    destruct Hout as [Hlt _ _|_ Hs _ Hh _|_ Hs _ Hh _]; simpl in *.
    + lia.
    + rewrite Hh, Hs. simpl. auto.
    + rewrite Hh, Hs. simpl. auto.
  - eexists _, [StatusSet task Failed], (rejected_task t).
    split; [exact (execute_task_unregistered o task s t Ht Hag)|]. simpl.
    split; [reflexivity|].
    split; [apply lookup_updated with t; exact Ht|].
    rewrite Hst, decide_True by reflexivity. simpl. auto.
Qed.

(** C9. For every task text containing "research" and "report" but not
    "analyze", the markers being looked for in the lowercased text as the
    fallback does (so that "Research" and "REPORT" count as well), with
    available worker types ["research"; "writing"], the fallback
    decomposition creates exactly two subtasks: "task-1" assigned to
    "research" with no dependencies, and "task-2" assigned to "writing"
    with dependencies ["task-1"]. *)
Theorem fallback_research_report (task : string) (s : State) :
  Py.str_in "research" (Py.lower task) = true →
  Py.str_in "report" (Py.lower task) = true →
  Py.str_in "analyze" (Py.lower task) = false →
  _fallback_decompose task ["research"; "writing"] s =
    (Ok [List.length (heap s); S (List.length (heap s))],
     set_heap (heap s ++
               [AgentTask_init "task-1" ("Research: " +:+ task) "research" None 3;
                AgentTask_init "task-2" "Write report" "writing" (Some ["task-1"]) 3])
       s).
Proof.
  intros H1 H2 H3.
  unfold _fallback_decompose. cbv zeta.
  assert (R : research_block task (Py.lower task) ["research"; "writing"] [] s =
              (Ok [List.length (heap s)],
               set_heap (heap s ++ [AgentTask_init "task-1" ("Research: " +:+ task)
                                      "research" None 3]) s)).
  { unfold research_block. rewrite H1. reflexivity. }
  rewrite (bind_ok _ _ _ _ _ R). clear R.
  unfold analyze_block at 1. rewrite H3, bind_run. cbn beta iota.
  unfold mret at 1, M_ret at 1. cbn beta iota.
  set (s1 := set_heap _ s).
  assert (Wr : write_block (Py.lower task) ["research"; "writing"]
                 [List.length (heap s)] s1 =
               (Ok [List.length (heap s); S (List.length (heap s))],
                set_heap (heap s1 ++ [AgentTask_init "task-2" "Write report" "writing"
                                        (Some ["task-1"]) 3]) s1)).
  { unfold write_block. rewrite H2, orb_true_r.
    change (agent_or_first "writing" ["research"; "writing"])
      with (Ok "writing" : Res string).
    rewrite bind_run. unfold lift at 1. cbn beta iota.
    rewrite (bind_ok _ _ _ _ _
               (previous_task_id_run [List.length (heap s)] (List.length (heap s)) s1
                  (AgentTask_init "task-1" ("Research: " +:+ task) "research" None 3)
                  eq_refl (list_lookup_middle _ _ _ _ eq_refl))).
    rewrite bind_run, new_AgentTask_run. cbn beta iota.
    subst s1. simpl. rewrite length_app. simpl. rewrite Nat.add_1_r. reflexivity. }
  rewrite (bind_ok _ _ _ _ _ Wr). clear Wr.
  subst s1. destruct s; simpl. rewrite <- app_assoc. reflexivity.
Qed.

(** C1, at the failing input. With no worker registered and no LLM
    decomposer, [coordinate] on a task text that contains "research"
    raises IndexError to its caller: the keyword block evaluates
    [agents[0]] on the empty list. *)
Theorem coordinate_raises_on_empty_registry (s : State) :
  coordinate (mkOrchestrator "orchestrator" [] false false None) "research topic" s
  = (Raise IndexError, s).
Proof. reflexivity. Qed.

(** C5, amended. With an LLM decomposer in use: an error raised inside
    the decomposer's own request (the call to the model, the fence
    removal, the JSON decoding) is caught by the decomposer, and the
    engine gets the single subtask "task-1" with the task text verbatim,
    assigned to the first available worker type or to "general"; an
    error raised while the engine builds subtasks from the decomposer's
    entries (an entry lacks a required key) is caught by the engine, which
    then runs the keyword fallback. *)
Theorem decompose_task_failures (o : AgentOrchestrator) (d : LLMTaskDecomposer)
    (task : string) (s : State) :
  use_llm o = true → decomposer o = Some d →
  let available := dict_keys (agents o) in
  (∀ e s1, ask_llm d task available s = (Raise e, s1) →
     decompose_task o task s =
       (Ok [List.length (heap s1)],
        set_heap (heap s1 ++
                  [AgentTask_init "task-1" task
                     (match available with a :: _ => a | [] => "general" end)
                     (Some []) 3]) s1)) ∧
  (∀ entries s1 e s2,
     decomposer_decompose d task available s = (Ok entries, s1) →
     list_comp entries task_of_dict s1 = (Raise e, s2) →
     decompose_task o task s = _fallback_decompose task available s2).
Proof.
  intros Hllm Hd available. unfold decompose_task. fold available.
  rewrite Hllm, Hd. split.
  - intros e s1 Hask.
    rewrite bind_run.
    erewrite try_except_ok; cycle 1.
    + rewrite bind_run. unfold decomposer_decompose.
      rewrite (try_except_raise _ _ _ _ _ Hask). reflexivity.
    + reflexivity.
  - intros entries s1 e s2 Hdec Hbuild.
    rewrite bind_run.
    erewrite try_except_raise; cycle 1.
    + rewrite (bind_ok _ _ _ _ _ Hdec), bind_run, Hbuild. reflexivity.
    + reflexivity.
Qed.



End Claims.

(** * Further properties of the code *)

(** ** The registry *)

Section Registry.
Context `{Env}.

Lemma dict_get_set_eq {V} (k : string) (v : V) d : dict_get k (dict_set k v d) = Some v.
Proof.
  induction d as [|[k' v'] d IH]; simpl.
  - rewrite decide_True; reflexivity.
  - destruct (decide (k' = k)) as [->|Hne]; simpl.
    + rewrite decide_True; reflexivity.
    + rewrite decide_False by exact Hne. exact IH.
Qed.

Lemma dict_get_set_ne {V} (k k0 : string) (v : V) d :
  k0 ≠ k → dict_get k0 (dict_set k v d) = dict_get k0 d.
Proof.
  intros Hne. induction d as [|[k' v'] d IH]; simpl.
  - rewrite decide_False by congruence. reflexivity.
  - destruct (decide (k' = k)) as [->|Hk]; simpl.
    + rewrite !decide_False by congruence. reflexivity.
    + destruct (decide (k' = k0)); [reflexivity|exact IH].
Qed.

Lemma dict_keys_set_old {V} (k : string) (v : V) d :
  k ∈ dict_keys d → dict_keys (dict_set k v d) = dict_keys d.
Proof.
  unfold dict_keys. induction d as [|[k' v'] d IH]; intros Hin; [inversion Hin|].
  cbn [dict_set]. destruct (decide (k' = k)) as [->|Hk]; [reflexivity|].
  rewrite !fmap_cons. f_equal. apply IH.
  rewrite fmap_cons in Hin. apply elem_of_cons in Hin as [Heq|Hin]; [|exact Hin].
  simpl in Heq. congruence.
Qed.

Lemma dict_keys_set_new {V} (k : string) (v : V) d :
  k ∉ dict_keys d → dict_keys (dict_set k v d) = dict_keys d ++ [k].
Proof.
  unfold dict_keys. induction d as [|[k' v'] d IH]; intros Hin; [reflexivity|].
  rewrite fmap_cons in Hin. apply not_elem_of_cons in Hin as [Hne Hin]. simpl in Hne.
  cbn [dict_set]. rewrite decide_False by congruence.
  rewrite !fmap_cons, IH by exact Hin. reflexivity.
Qed.

Lemma dict_keys_set {V} (k : string) (v : V) d :
  dict_keys (dict_set k v d) =
  if decide (k ∈ dict_keys d) then dict_keys d else dict_keys d ++ [k].
Proof.
  case_decide; [apply dict_keys_set_old|apply dict_keys_set_new]; assumption.
Qed.

(** X1. Registration is a write to an insertion-ordered dictionary: the new
    worker is what a lookup of its type finds, every other type keeps its
    worker, a type already registered keeps its place in the key order and
    a new one goes last (so keys stay distinct); the subtask objects, the
    world and the event history are untouched, and the memory sink, when
    attached, gets one record. *)
Theorem register_agent_lookup (o : AgentOrchestrator) (agent_type : string)
    (agent_instance : Agent) (s : State) :
  ∃ o' s',
    register_agent o agent_type agent_instance s = (Ok o', s') ∧
    dict_get agent_type (agents o') = Some agent_instance ∧
    (∀ ty, ty ≠ agent_type → dict_get ty (agents o') = dict_get ty (agents o)) ∧
    dict_keys (agents o') =
      (if decide (agent_type ∈ dict_keys (agents o)) then dict_keys (agents o)
       else dict_keys (agents o) ++ [agent_type]) ∧
    (NoDup (dict_keys (agents o)) → NoDup (dict_keys (agents o'))) ∧
    heap s' = heap s ∧ world s' = world s ∧ trace s' = trace s ∧
    execution_history s' = execution_history s ∧
    memory_log s' =
      memory_log s ++
      (if memory o
       then [Store ("agent_" +:+ agent_type +:+ "_registered")
               (MemAgent agent_type (now (world s))) "long_term"]
       else []).
Proof.
  exists (mkOrchestrator (orchestrator_id o)
            (dict_set agent_type agent_instance (agents o))
            (memory o) (use_llm o) (decomposer o)),
    (if memory o
     then set_memory_log
            (memory_log s ++ [Store ("agent_" +:+ agent_type +:+ "_registered")
                                (MemAgent agent_type (now (world s))) "long_term"]) s
     else s).
  split; [|split; [|split; [|split; [|split]]]].
  - unfold register_agent. cbv zeta. rewrite bind_run. unfold clock at 1. cbn beta iota.
    rewrite bind_run. unfold memory_store at 1. cbn [memory].
    destruct (memory o); reflexivity.
  - apply dict_get_set_eq.
  - intros ty Hne. apply dict_get_set_ne. exact Hne.
  - apply dict_keys_set.
  - simpl. rewrite dict_keys_set. intros Hnd. case_decide as Hin; [exact Hnd|].
    apply NoDup_app. split; [exact Hnd|]. split; [|apply NoDup_singleton].
    intros x Hx Hx'. apply list_elem_of_singleton in Hx'. congruence.
  - destruct (memory o); simpl; rewrite ?app_nil_r; repeat split.
Qed.

End Registry.

(** ** The keyword fallback *)

Section Fallback.
Context `{Env}.

Lemma set_heap_twice h1 h2 (s : State) : set_heap h2 (set_heap h1 s) = set_heap h2 s.
Proof. reflexivity. Qed.

Lemma agent_or_first_cons name first rest :
  agent_or_first name (first :: rest) = Ok (pick_agent name first (first :: rest)).
Proof. unfold agent_or_first, pick_agent. case_bool_decide; reflexivity. Qed.

Lemma previous_task_id_plan s0 plan :
  previous_task_id (seq (List.length (heap s0)) (List.length plan))
    (set_heap (heap s0 ++ plan) s0) =
  (Ok (previous_id plan), set_heap (heap s0 ++ plan) s0).
Proof.
  destruct plan as [|t plan _] using rev_ind; [reflexivity|].
  rewrite length_app. simpl List.length. rewrite seq_app. simpl seq.
  unfold previous_id. rewrite last_snoc.
  apply previous_task_id_run with (r := (List.length (heap s0) + List.length plan)%nat).
  - apply last_snoc.
  - simpl. rewrite app_assoc. apply list_lookup_middle. rewrite length_app. reflexivity.
Qed.

(** A keyword block run on the subtasks built so far. *)
Lemma keyword_block_run (c : bool) name descr first rest s0 plan :
  (if c then
     ty ← lift (agent_or_first name (first :: rest));
     deps ← previous_task_id (seq (List.length (heap s0)) (List.length plan));
     t ← new_AgentTask
           ("task-" +:+ pretty (List.length (seq (List.length (heap s0)) (List.length plan)) + 1))
           descr ty (Some deps) 3;
     mret (seq (List.length (heap s0)) (List.length plan) ++ [t])
   else mret (seq (List.length (heap s0)) (List.length plan)))
    (set_heap (heap s0 ++ plan) s0) =
  (Ok (seq (List.length (heap s0))
         (List.length (keyword_step c name descr first (first :: rest) plan))),
   set_heap (heap s0 ++ keyword_step c name descr first (first :: rest) plan) s0).
Proof.
  unfold keyword_step. destruct c; [|reflexivity].
  rewrite agent_or_first_cons, bind_run. unfold lift at 1. cbn beta iota.
  rewrite (bind_ok _ _ _ _ _ (previous_task_id_plan s0 plan)).
  rewrite bind_run, new_AgentTask_run. cbn beta iota.
  rewrite set_heap_twice, length_seq.
  unfold mret, M_ret. f_equal.
  - f_equal. simpl heap. rewrite !length_app. simpl List.length.
    rewrite seq_app. reflexivity.
  - simpl heap. rewrite <- app_assoc. reflexivity.
Qed.

(** With a non-empty list of types the fallback builds [keyword_plan]. *)
Lemma fallback_run task first rest s :
  _fallback_decompose task (first :: rest) s =
  (Ok (seq (List.length (heap s)) (List.length (keyword_plan task first (first :: rest)))),
   set_heap (heap s ++ keyword_plan task first (first :: rest)) s).
Proof.
  unfold _fallback_decompose, keyword_plan. cbv zeta.
  set (c1 := Py.str_in "research" _ || Py.str_in "find" _).
  set (c2 := Py.str_in "analyze" _).
  set (c3 := Py.str_in "write" _ || Py.str_in "report" _).
  set (p1 := if c1 then [_] else []).
  assert (R : research_block task (Py.lower task) (first :: rest) [] s =
              (Ok (seq (List.length (heap s)) (List.length p1)), set_heap (heap s ++ p1) s)).
  { unfold research_block. fold c1. subst p1. destruct c1.
    - rewrite agent_or_first_cons. reflexivity.
    - destruct s. simpl. rewrite app_nil_r. reflexivity. }
  rewrite (bind_ok _ _ _ _ _ R). clear R.
  unfold analyze_block. fold c2.
  rewrite (bind_ok _ _ _ _ _ (keyword_block_run c2 "analysis" "Analyze findings" first rest s p1)).
  set (p2 := keyword_step c2 _ _ _ _ p1).
  unfold write_block. fold c3.
  rewrite (bind_ok _ _ _ _ _ (keyword_block_run c3 "writing" "Write report" first rest s p2)).
  set (p3 := keyword_step c3 _ _ _ _ p2).
  unfold default_block. destruct p3 as [|t p3]; [|reflexivity].
  destruct s. simpl. rewrite app_nil_r. reflexivity.
Qed.

(** X2. With no worker type available, the keyword fallback raises
    IndexError exactly when one of its markers occurs in the lowercased
    text (nothing having been built), and otherwise builds the single
    subtask "task-1" with the text verbatim, assigned to "general". *)
Theorem fallback_empty_registry (task : string) (s : State) :
  _fallback_decompose task [] s =
  if has_keyword task then (Raise IndexError, s)
  else (Ok [List.length (heap s)],
        set_heap (heap s ++ [AgentTask_init "task-1" task "general" None 3]) s).
Proof.
  unfold _fallback_decompose, has_keyword, research_block, analyze_block, write_block.
  cbv zeta.
  destruct (Py.str_in "research" _); [reflexivity|].
  destruct (Py.str_in "find" _); [reflexivity|].
  destruct (Py.str_in "analyze" _); [reflexivity|].
  destruct (Py.str_in "write" _); [reflexivity|].
  destruct (Py.str_in "report" _); reflexivity.
Qed.

(** X3. With at least one worker type available, the keyword fallback never
    raises: it builds between one and three fresh subtasks, named "task-1",
    "task-2", ... in order, forming a chain (the first without prerequisite,
    each other one depending on exactly the one before it), and each
    assigned to an available worker type. *)
Theorem fallback_with_agents (task first : string) (rest : list string) (s : State) :
  ∃ new,
    _fallback_decompose task (first :: rest) s =
      (Ok (seq (List.length (heap s)) (List.length new)), set_heap (heap s ++ new) s) ∧
    (1 ≤ List.length new ≤ 3)%nat ∧
    task_id <$> new = chain_ids (List.length new) ∧
    chained [] new ∧
    Forall (λ t, agent_type t ∈ first :: rest) new ∧
    Forall fresh new.
Proof.
  exists (keyword_plan task first (first :: rest)). split; [apply fallback_run|].
  assert (Hpick : ∀ name, pick_agent name first (first :: rest) ∈ first :: rest).
  { intros name. unfold pick_agent. case_bool_decide; [assumption|left]. }
  unfold keyword_plan, keyword_step. cbv zeta.
  destruct (Py.str_in "research" _ || Py.str_in "find" _);
    destruct (Py.str_in "analyze" _);
    destruct (Py.str_in "write" _ || Py.str_in "report" _);
    (split; [simpl; lia|]); (split; [reflexivity|]); (split; [simpl; tauto|]);
    (split;
       [repeat (apply Forall_cons; split; [simpl; first [apply Hpick | left]|]);
        constructor
       |repeat (apply Forall_cons; split; [repeat split|]); constructor]).
Qed.

End Fallback.

(** ** The reply of the model *)

Section Reply.

Lemma append_cons c s t : String c s +:+ t = String c (s +:+ t).
Proof. reflexivity. Qed.

Lemma append_nil_r s : s +:+ EmptyString = s.
Proof. induction s as [|c s IH]; [reflexivity|]. rewrite append_cons, IH. reflexivity. Qed.

Lemma append_assoc_str s t u : (s +:+ t) +:+ u = s +:+ (t +:+ u).
Proof. induction s as [|c s IH]; [reflexivity|]. rewrite !append_cons, IH. reflexivity. Qed.

Lemma prefix_app p r : String.prefix p (p +:+ r) = true.
Proof.
  induction p as [|c p IH]; [destruct r; reflexivity|].
  rewrite append_cons. simpl. destruct (ascii_dec c c); [exact IH|congruence].
Qed.

Lemma split_go_cons sep k cur s : ∃ x l, Py.split_go sep k cur s = x :: l.
Proof.
  revert k cur. induction s as [|c s IH]; intros k cur; cbn [Py.split_go]; [eauto|].
  destruct k as [|k]; [|apply IH].
  destruct (String.prefix sep (String c s)); [eauto|apply IH].
Qed.

(** A text that starts with the separator splits into at least two pieces,
    the first of them empty. *)
Lemma split_prefix c0 sep s :
  String.prefix (String c0 sep) s = true →
  ∃ y l, Py.split s (String c0 sep) = EmptyString :: y :: l.
Proof.
  intros Hp. destruct s as [|c s]; [discriminate|].
  unfold Py.split. cbn [Py.split_go]. rewrite Hp.
  destruct (split_go_cons (String c0 sep) (String.length (String c0 sep) - 1) EmptyString s)
    as (y & l & ->). eauto.
Qed.

(** X4. The removal of the markdown fence never raises: whatever the reply,
    the two list indexings after the [startswith] tests are in range. *)
Theorem extract_json_returns (text : string) : ∃ content, extract_json text = Ok content.
Proof.
  unfold extract_json. cbv zeta.
  assert (Hfence : ∀ c0 sep content,
            Py.startswith content (String c0 sep) = true →
            ∃ content', (a ← py_index (Py.split content (String c0 sep)) 1;
                         b ← py_index (Py.split a "```") 0;
                         mret (Py.strip b)) = Ok content').
  { intros c0 sep content Hs. destruct (split_prefix c0 sep content Hs) as (y & l & ->).
    destruct (split_go_cons "```" 0 EmptyString y) as (x & l' & Hx).
    unfold Py.split. simpl. rewrite Hx. simpl. eauto. }
  destruct (Py.startswith (Py.strip text) "```json") eqn:Hjson; [apply Hfence; exact Hjson|].
  destruct (Py.startswith (Py.strip text) "```") eqn:Hplain; [apply Hfence; exact Hplain|].
  eauto.
Qed.

Lemma py_index_no_fault {A} (l : list A) (i : nat) : py_index l i ≠ Fault.
Proof. unfold py_index. destruct (l !! i); discriminate. Qed.

Lemma extract_json_no_fault (text : string) : extract_json text ≠ Fault.
Proof.
  unfold extract_json. cbv zeta.
  assert (Hfence : ∀ content sep,
            (a ← py_index (Py.split content sep) 1;
             b ← py_index (Py.split a "```") 0;
             mret (Py.strip b)) ≠ (Fault : Res string)).
  { intros content sep.
    destruct (py_index (Py.split content sep) 1) as [a|e|] eqn:E1; simpl;
      [|discriminate|destruct (py_index_no_fault _ _ E1)].
    destruct (py_index (Py.split a "```") 0) as [b|e|] eqn:E2; simpl;
      [discriminate..|destruct (py_index_no_fault _ _ E2)]. }
  destruct (Py.startswith _ "```json"); [apply Hfence|].
  destruct (Py.startswith _ "```"); [apply Hfence|]. discriminate.
Qed.

Lemma fence_in_range c0 sep content :
  Py.startswith content (String c0 sep) = true →
  ∃ content', (a ← py_index (Py.split content (String c0 sep)) 1;
               b ← py_index (Py.split a "```") 0;
               mret (Py.strip b)) = Ok content'.
Proof.
  intros Hs. destruct (split_prefix c0 sep content Hs) as (y & l & ->).
  destruct (split_go_cons "```" 0 EmptyString y) as (x & l' & Hx).
  unfold Py.split. simpl. rewrite Hx. simpl. eauto.
Qed.

Lemma extract_json_no_raise (text : string) (e : exn) : extract_json text ≠ Raise e.
Proof.
  unfold extract_json. cbv zeta.
  destruct (Py.startswith (Py.strip text) "```json") eqn:Hjson.
  { destruct (fence_in_range _ _ _ Hjson) as [c ->]. discriminate. }
  destruct (Py.startswith (Py.strip text) "```") eqn:Hplain.
  { destruct (fence_in_range _ _ _ Hplain) as [c ->]. discriminate. }
  discriminate.
Qed.

Lemma rstrip_end s c :
  Py.is_space c = false → Py.rstrip (s +:+ String c EmptyString) = s +:+ String c EmptyString.
Proof.
  intros Hc. induction s as [|a s IH].
  - simpl. rewrite Hc. reflexivity.
  - rewrite append_cons. cbn [Py.rstrip]. rewrite IH.
    destruct s; reflexivity.
Qed.

Lemma split_go_skip sep cur x : ∀ k rest,
  String.length x = k → Py.split_go sep k cur (x +:+ rest) = Py.split_go sep 0 cur rest.
Proof.
  induction x as [|c x IH]; intros k rest Hk; simpl in Hk; subst k; [reflexivity|].
  rewrite append_cons. cbn [Py.split_go]. apply IH. reflexivity.
Qed.

Lemma split_go_absent sep s : ∀ cur,
  Py.str_in sep s = false → Py.split_go sep 0 cur s = [cur +:+ s].
Proof.
  induction s as [|c s IH]; intros cur Hs; [rewrite append_nil_r; reflexivity|].
  cbn [Py.str_in] in Hs. apply orb_false_iff in Hs as [Hp Hs].
  cbn [Py.split_go]. rewrite Hp, (IH _ Hs), append_assoc_str. reflexivity.
Qed.

Lemma no_backquote_cons c s :
  no_backquote (String c s) = true → c ≠ "`"%char ∧ no_backquote s = true.
Proof.
  simpl. intros Hb. apply andb_true_iff in Hb as [Hc Hs]. split; [|exact Hs].
  intros ->. discriminate.
Qed.

Lemma prefix_cons c p d s :
  String.prefix (String c p) (String d s) = if ascii_dec c d then String.prefix p s else false.
Proof. reflexivity. Qed.

Lemma prefix_backquote_ne c sep s :
  c ≠ "`"%char → String.prefix (String "`" sep) (String c s) = false.
Proof. intros Hc. rewrite prefix_cons. destruct (ascii_dec "`" c); [congruence|reflexivity]. Qed.

Lemma prefix_before_backquote p : ∀ body tail,
  no_backquote p = true →
  String.prefix p (body +:+ String "`" tail) = String.prefix p body.
Proof.
  induction p as [|c p IH]; intros body tail Hp.
  - destruct body; reflexivity.
  - apply no_backquote_cons in Hp as [Hc Hp]. destruct body as [|d body].
    + change (EmptyString +:+ String "`" tail) with (String "`" tail). rewrite prefix_cons.
      destruct (ascii_dec c "`"); [congruence|reflexivity].
    + rewrite append_cons, !prefix_cons, (IH _ _ Hp). reflexivity.
Qed.

Lemma str_in_after_text sep tail body :
  no_backquote body = true → Py.str_in (String "`" sep) tail = false →
  Py.str_in (String "`" sep) (body +:+ tail) = false.
Proof.
  intros Hb Ht. induction body as [|c body IH]; [exact Ht|].
  apply no_backquote_cons in Hb as [Hc Hb].
  rewrite append_cons. cbn [Py.str_in]. rewrite (IH Hb), orb_false_r.
  apply prefix_backquote_ne, Hc.
Qed.

Lemma split_go_first sep rest body : ∀ cur,
  no_backquote body = true →
  ∃ l, Py.split_go (String "`" sep) 0 cur (body +:+ String "`" sep +:+ rest)
       = (cur +:+ body) :: l.
Proof.
  induction body as [|c body IH]; intros cur Hb.
  - change (EmptyString +:+ String "`" sep +:+ rest) with (String "`" (sep +:+ rest)).
    cbn [Py.split_go].
    change (String "`" (sep +:+ rest)) with (String "`" sep +:+ rest).
    rewrite prefix_app, append_nil_r. eauto.
  - apply no_backquote_cons in Hb as [Hc Hb].
    rewrite append_cons. cbn [Py.split_go].
    rewrite (prefix_backquote_ne c sep _ Hc).
    destruct (IH (cur +:+ String c EmptyString) Hb) as (l & ->).
    rewrite append_assoc_str. eauto.
Qed.

Lemma strip_fenced pre body :
  Py.strip (String "`" pre +:+ body +:+ "```") = String "`" pre +:+ body +:+ "```".
Proof.
  unfold Py.strip. rewrite append_cons.
  change (Py.lstrip (String "`" (pre +:+ body +:+ "```")))
    with (String "`" (pre +:+ body +:+ "```")).
  rewrite <- append_cons.
  change "```" with ("``" +:+ String "`" EmptyString).
  rewrite <- !append_assoc_str. apply rstrip_end. reflexivity.
Qed.

(** X5. A reply that is a fenced block is decoded from the text inside the
    fence: for a body without backquote, the text between "```json" and
    "```", and, when the body does not start with "json", the text between
    "```" and "```" are returned stripped of surrounding blanks. *)
Theorem extract_json_fenced (body : string) :
  no_backquote body = true →
  extract_json ("```json" +:+ body +:+ "```") = Ok (Py.strip body) ∧
  (String.prefix "json" body = false →
   extract_json ("```" +:+ body +:+ "```") = Ok (Py.strip body)).
Proof.
  intros Hb.
  assert (Hinner : ∀ a, a = body ∨ a = body +:+ "```" →
            (b ← py_index (Py.split a "```") 0; mret (Py.strip b)) = Ok (Py.strip body)).
  { intros a [->| ->]; unfold Py.split.
    - rewrite split_go_absent; [reflexivity|].
      rewrite <- (append_nil_r body). apply str_in_after_text; [exact Hb|reflexivity].
    - destruct (split_go_first "``" EmptyString body EmptyString Hb) as (l & Hl).
      rewrite append_nil_r in Hl. rewrite Hl. reflexivity. }
  split.
  - assert (Hsplit : Py.split ("```json" +:+ body +:+ "```") "```json" = [EmptyString; body +:+ "```"]).
    { unfold Py.split.
      change ("```json" +:+ body +:+ "```") with (String "`" ("``json" +:+ (body +:+ "```"))).
      cbn [Py.split_go].
      change (String "`" ("``json" +:+ (body +:+ "```"))) with ("```json" +:+ (body +:+ "```")).
      rewrite prefix_app.
      rewrite (split_go_skip "```json" EmptyString "``json" (String.length "```json" - 1) (body +:+ "```") eq_refl).
      rewrite split_go_absent by (apply str_in_after_text; [exact Hb|reflexivity]).
      reflexivity. }
    unfold extract_json. cbv zeta. rewrite (strip_fenced "``json" body).
    unfold Py.startswith. rewrite prefix_app, Hsplit.
    change (py_index [EmptyString; body +:+ "```"] 1) with (Ok (body +:+ "```") : Res string).
    apply Hinner. right. reflexivity.
  - intros Hjson.
    assert (Hsplit : ∃ l, Py.split ("```" +:+ body +:+ "```") "```" = EmptyString :: body :: l).
    { unfold Py.split.
      change ("```" +:+ body +:+ "```") with (String "`" ("``" +:+ (body +:+ "```"))).
      cbn [Py.split_go].
      change (String "`" ("``" +:+ (body +:+ "```"))) with ("```" +:+ (body +:+ "```")).
      rewrite prefix_app.
      rewrite (split_go_skip "```" EmptyString "``" (String.length "```" - 1) (body +:+ "```") eq_refl).
      destruct (split_go_first "``" EmptyString body EmptyString Hb) as (l & Hl).
      rewrite append_nil_r in Hl. rewrite Hl. eauto. }
    destruct Hsplit as (l & Hsplit).
    unfold extract_json. cbv zeta. rewrite (strip_fenced "``" body).
    unfold Py.startswith.
    replace (String.prefix "```json" ("```" +:+ body +:+ "```")) with false.
    2:{ change ("```" +:+ body +:+ "```") with (String "`" (String "`" (String "`" (body +:+ "```")))).
        rewrite !prefix_cons.
        destruct (ascii_dec "`" "`"); [|congruence].
        rewrite (prefix_before_backquote "json" body "``" eq_refl), Hjson. reflexivity. }
    rewrite prefix_app, Hsplit.
    change (py_index (EmptyString :: body :: l) 1) with (Ok body : Res string).
    apply Hinner. left. reflexivity.
Qed.

End Reply.

(** ** The decomposition never fails with a worker registered *)

Section Decomposing.
Context `{Env}.

Lemma decomposer_decompose_run (d : LLMTaskDecomposer) (task : string)
    (available_agents : list string) (s : State) :
  ∃ entries s', decomposer_decompose d task available_agents s = (Ok entries, s').
Proof.
  unfold decomposer_decompose, try_except, ask_llm.
  rewrite bind_run. unfold foreign.
  destruct (messages_create d task available_agents (world s)) as [[text|e] w]; simpl;
    [|eauto].
  rewrite bind_run. unfold lift at 1.
  destruct (extract_json text) as [content|e|] eqn:Hc; simpl; [|eauto|].
  - rewrite bind_run. unfold lift at 1.
    destruct (json_loads content) as [entries|e]; simpl; eauto.
  - destruct (extract_json_no_fault text Hc).
Qed.

(** X6. [LLMTaskDecomposer.decompose] never raises, and what it returns
    is determined by the reply: when the request returns a text and what
    the fence removal leaves of it is decoded by [json.loads], the decoded
    entries are returned as they are; when the request raises, or the
    decoding raises, the single entry of the decomposer's own fallback is
    returned.  It creates no task object and leaves history, memory sink
    and trace alone: the state changes by what the request did to the
    outside world only. *)
Theorem decomposer_decompose_returns (d : LLMTaskDecomposer) (task : string)
    (available_agents : list string) (s : State) :
  let reply := messages_create d task available_agents (world s) in
  ∃ entries,
    decomposer_decompose d task available_agents s = (Ok entries, set_world reply.2 s) ∧
    match reply.1 with
    | Returned text =>
        ∃ content, extract_json text = Ok content ∧
          match json_loads content with
          | Returned decoded => entries = decoded
          | Threw _ => entries = decomposer_fallback_decompose task available_agents
          end
    | Threw _ => entries = decomposer_fallback_decompose task available_agents
    end.
Proof.
  intros reply. subst reply.
  unfold decomposer_decompose, try_except, ask_llm.
  rewrite bind_run. unfold foreign.
  destruct (messages_create d task available_agents (world s)) as [[text|e] w]; simpl.
  - rewrite bind_run. unfold lift at 1.
    destruct (extract_json text) as [content|e|] eqn:Hc; simpl.
    + rewrite bind_run. unfold lift at 1.
      destruct (json_loads content) as [entries|e] eqn:Hj; simpl.
      * eexists. split; [reflexivity|]. exists content. rewrite Hj. auto.
      * eexists. split; [reflexivity|]. exists content. rewrite Hj. auto.
    + destruct (extract_json_no_raise text e Hc).
    + destruct (extract_json_no_fault text Hc).
  - eexists. split; [reflexivity|]. reflexivity.
Qed.

Lemma task_of_dict_run st s :
  (∃ r s', task_of_dict st s = (Ok r, s')) ∨ (∃ e, task_of_dict st s = (Raise e, s)).
Proof.
  unfold task_of_dict. destruct st as [[id|] [descr|] [ty|] deps dur];
    rewrite ?bind_run; unfold lift; simpl; rewrite ?bind_run; simpl; eauto.
Qed.

Lemma list_comp_task_of_dict_run entries : ∀ s,
  (∃ refs s', list_comp entries task_of_dict s = (Ok refs, s')) ∨
  (∃ e s', list_comp entries task_of_dict s = (Raise e, s')).
Proof.
  induction entries as [|st entries IH]; intros s; simpl; [left; eauto|].
  rewrite bind_run.
  destruct (task_of_dict_run st s) as [(r & s1 & ->)|(e & ->)]; [|right; eauto].
  rewrite bind_run.
  destruct (IH s1) as [(refs & s2 & ->)|(e & s2 & ->)]; [left|right]; eauto.
Qed.

Lemma decompose_task_run (o : AgentOrchestrator) (task : string) (s : State) :
  dict_keys (agents o) ≠ [] →
  ∃ subtasks s1, decompose_task o task s = (Ok subtasks, s1).
Proof.
  intros Hne. destruct (dict_keys (agents o)) as [|first rest] eqn:Hkeys; [done|].
  unfold decompose_task. cbv zeta. rewrite Hkeys, bind_run.
  assert (Hfb : ∀ s0, ∃ subtasks s1,
            _fallback_decompose task (first :: rest) s0 = (Ok subtasks, s1)).
  { intros s0. rewrite fallback_run. eauto. }
  destruct (use_llm o); [|apply Hfb].
  destruct (decomposer o) as [d|]; [|apply Hfb].
  unfold try_except. rewrite bind_run.
  destruct (decomposer_decompose_run d task (first :: rest) s)
    as (entries & s0 & ->).
  rewrite bind_run.
  destruct (list_comp_task_of_dict_run entries s0) as [(refs & s1 & ->)|(e & s1 & ->)].
  - simpl. eauto.
  - apply Hfb.
Qed.

(** X7. With at least one worker type registered, [decompose_task] never
    raises: it returns distinct references to task objects it has just
    created, each pending with retry count 0 and 2 retries allowed; the
    objects that existed before are untouched and no event is recorded. *)
Theorem decompose_task_returns (o : AgentOrchestrator) (task : string) (s : State) :
  dict_keys (agents o) ≠ [] →
  ∃ subtasks s1 new,
    decompose_task o task s = (Ok subtasks, s1) ∧
    heap s1 = heap s ++ new ∧ Forall fresh new ∧
    NoDup subtasks ∧
    Forall (λ r, (List.length (heap s) ≤ r < List.length (heap s1))%nat) subtasks ∧
    trace s1 = trace s.
Proof.
  intros Hne. destruct (decompose_task_run o task s Hne) as (subtasks & s1 & Hdec).
  destruct (growing_decompose_task _ _ _ _ _ Hdec) as (new & Hh & Hf & Ht).
  destruct (decompose_task_refs _ _ _ _ _ Hdec) as (Hnd & _ & Hb).
  exists subtasks, s1, new. auto 10.
Qed.

Lemma task_of_dict_built st t s :
  task_from_entry st = Some t →
  task_of_dict st s = (Ok (List.length (heap s)), set_heap (heap s ++ [t]) s).
Proof.
  unfold task_from_entry, task_of_dict.
  destruct st as [[id|] [descr|] [ty|] deps dur]; simpl; try discriminate.
  intros [= <-]. reflexivity.
Qed.

Lemma list_comp_built entries : ∀ new s,
  task_from_entry <$> entries = Some <$> new →
  list_comp entries task_of_dict s =
    (Ok (seq (List.length (heap s)) (List.length new)), set_heap (heap s ++ new) s).
Proof.
  induction entries as [|st entries IH]; intros [|t new] s; simpl; try discriminate.
  - intros _. destruct s; simpl. rewrite app_nil_r. reflexivity.
  - intros [= Ht Hrest].
    rewrite (bind_ok _ _ _ _ _ (task_of_dict_built st t s Ht)).
    rewrite (bind_ok _ _ _ _ _ (IH new _ Hrest)).
    destruct s; simpl. rewrite length_app, <- app_assoc. simpl.
    rewrite Nat.add_1_r. reflexivity.
Qed.

(** X8. When the decomposer returns entries that all have the keys
    [task_id], [description] and [agent_type], [decompose_task] creates
    one subtask per entry, in the order of the entries, with those three
    values as given, the prerequisites of the entry or none when the key is
    missing, and the duration estimate of the entry or 3; the worker type
    is not checked against the registered workers. *)
Theorem decompose_task_from_entries (o : AgentOrchestrator) (d : LLMTaskDecomposer)
    (task : string) (s s1 : State) (entries : list SubtaskDict)
    (new : list AgentTask) :
  use_llm o = true → decomposer o = Some d →
  decomposer_decompose d task (dict_keys (agents o)) s = (Ok entries, s1) →
  task_from_entry <$> entries = Some <$> new →
  decompose_task o task s =
    (Ok (seq (List.length (heap s1)) (List.length new)), set_heap (heap s1 ++ new) s1).
Proof.
  intros Hllm Hd Hdec Hnew. unfold decompose_task. cbv zeta.
  rewrite Hllm, Hd, bind_run.
  erewrite try_except_ok; cycle 1.
  - rewrite (bind_ok _ _ _ _ _ Hdec).
    rewrite (bind_ok _ _ _ _ _ (list_comp_built entries new s1 Hnew)). reflexivity.
  - reflexivity.
Qed.

End Decomposing.

(** ** [execute_task], field by field *)

Section Executing.
Context `{Env}.
Variables (o : AgentOrchestrator).

Lemma insert_same_inv (h : list AgentTask) (r : ref) (t a b : AgentTask) :
  h !! r = Some t → <[r := a]> h = <[r := b]> h → a = b.
Proof.
  intros Ht Hh. pose proof (lookup_updated h r t a Ht) as Ha.
  rewrite Hh, (lookup_updated h r t b Ht) in Ha. congruence.
Qed.

Lemma with_retry_count_same t : with_retry_count (retry_count t) t = t.
Proof. destruct t; reflexivity. Qed.

Lemma invocations_other task x evs :
  x ≠ task → Forall (about_task task) evs → invocations x evs = 0%nat.
Proof.
  intros Hx Hev. unfold invocations.
  induction Hev as [|e evs He _ IH]; [reflexivity|].
  destruct e as [r v|r d|r|k ready|pending]; simpl in *; try exact IH; try done.
  subst r. rewrite decide_False by congruence. exact IH.
Qed.

(** The retry loop, with the object it leaves and the number of worker
    invocations. *)
Lemma retry_loop_shape agent task fuel : ∀ s t,
  heap s !! task = Some t →
  (S (max_retries t) - retry_count t ≤ fuel)%nat →
  ∃ t' w' ml evs,
    retry_loop o agent task fuel s =
      (Ok task, mkState (<[task := t']> (heap s)) w' (memory_log s ++ ml)
                  (execution_history s) (trace s ++ evs)) ∧
    retried t t' ∧ Forall (about_task task) evs ∧
    (invocations task evs ≤ S (max_retries t) - retry_count t)%nat ∧
    (ml = [] ∨ status t' = Completed ∧ memory o = true ∧
               ∃ text, ml = [Store ("task_" +:+ task_id t +:+ "_result")
                               (MemText text) "working"] ∧ result t' = Some text).
Proof.
  induction fuel as [|fuel IH]; intros s t Ht Hfuel.
  - exists t, (world s), [], []. split; [|split; [|split; [|split]]].
    + rewrite (retry_loop_exit o agent task 0 s t Ht) by lia. destruct s; simpl in *.
      rewrite list_insert_id, !app_nil_r by assumption. reflexivity.
    + apply retried_skipped; [lia|reflexivity].
    + constructor.
    + unfold invocations. simpl. lia.
    + left. reflexivity.
  - destruct (decide (max_retries t < retry_count t)%nat) as [Hlt|Hle].
    { exists t, (world s), [], []. split; [|split; [|split; [|split]]].
      + rewrite (retry_loop_exit o agent task _ s t Ht) by lia. destruct s; simpl in *.
        rewrite list_insert_id, !app_nil_r by assumption. reflexivity.
      + apply retried_skipped; [lia|reflexivity].
      + constructor.
      + unfold invocations. simpl. lia.
      + left. reflexivity. }
    destruct (execute agent (description t) (world s)) as [[res|e] w'] eqn:Hex.
    + exists (completed_task w' res t), w', (result_store o res t),
        [Invoked task (description t); StatusSet task Completed].
      split; [|split; [|split; [|split]]].
      * apply retry_loop_success; [assumption|lia|assumption].
      * apply (retried_completed t _ w' res (retry_count t)); [lia|].
        rewrite with_retry_count_same. reflexivity.
      * repeat constructor.
      * rewrite invocations_attempt_status. lia.
      * unfold result_store. destruct (memory o); [|left; reflexivity].
        right. split; [reflexivity|]. split; [reflexivity|]. eauto.
    + destruct (decide (retry_count t = max_retries t)) as [Heq|Hne].
      * exists (failed_task w' e t), w', [],
          [Invoked task (description t); StatusSet task Failed].
        split; [|split; [|split; [|split]]].
        -- rewrite app_nil_r. apply retry_loop_give_up; assumption.
        -- apply (retried_failed t _ w' e); [lia|].
           rewrite <- Heq, with_retry_count_same. reflexivity.
        -- repeat constructor.
        -- rewrite invocations_attempt_status. lia.
        -- left. reflexivity.
      * rewrite (retry_loop_retry o agent task fuel s t e w' Ht) by (assumption || lia).
        set (t2 := with_retry_count (retry_count t + 1) t).
        set (s2 := mkState _ _ _ _ _).
        assert (Ht2 : heap s2 !! task = Some t2).
        { simpl. apply lookup_updated with t. exact Ht. }
        destruct (IH s2 t2 Ht2) as (t' & w'' & ml & evs & Hrun & Hshape & Hev & Hinv & Hml).
        { simpl. lia. }
        exists t', w'', ml, ([Invoked task (description t); Slept task] ++ evs).
        split; [|split; [|split; [|split]]].
        -- rewrite Hrun. subst s2. simpl. rewrite list_insert_insert_eq.
           rewrite <- app_assoc. reflexivity.
        -- destruct Hshape as [Hlt _|w res k Hk ->|w e' Hk ->]; simpl in *.
           ++ lia.
           ++ apply (retried_completed t _ w res k); [lia|reflexivity].
           ++ apply (retried_failed t _ w e'); [lia|reflexivity].
        -- apply Forall_app. split; [repeat constructor|exact Hev].
        -- rewrite invocations_app, invocations_attempt_slept. simpl in Hinv. lia.
        -- exact Hml.
Qed.

(** [execute_task], with the object it leaves. *)
Lemma execute_task_shape task s t :
  heap s !! task = Some t →
  ∃ t' w' ml evs,
    execute_task o task s =
      (Ok task, mkState (<[task := t']> (heap s)) w' (memory_log s ++ ml)
                  (execution_history s) (trace s ++ evs)) ∧
    executed o t t' ∧ Forall (about_task task) evs ∧
    (invocations task evs ≤ S (max_retries t) - retry_count t)%nat ∧
    (dict_get (agent_type t) (agents o) = None → invocations task evs = 0%nat) ∧
    (ml = [] ∨ status t' = Completed ∧ memory o = true ∧
               ∃ text, ml = [Store ("task_" +:+ task_id t +:+ "_result")
                               (MemText text) "working"] ∧ result t' = Some text).
Proof.
  intros Ht.
  destruct (dict_get (agent_type t) (agents o)) as [agent|] eqn:Hag.
  - rewrite (execute_task_registered o agent task s t Ht Hag).
    set (s1 := mkState _ _ _ _ _).
    assert (Ht1 : heap s1 !! task = Some (running_task (world s) t)).
    { simpl. apply lookup_updated with t. exact Ht. }
    destruct (retry_loop_shape agent task
                (S (max_retries t) - retry_count t) s1 _ Ht1)
      as (t' & w' & ml & evs & Hrun & Hshape & Hev & Hinv & Hml).
    { simpl. lia. }
    exists t', w', ml, (StatusSet task Running :: evs).
    split; [|split; [|split; [|split; [|split]]]].
    + rewrite Hrun. subst s1. simpl. rewrite list_insert_insert_eq, <- app_assoc.
      reflexivity.
    + eapply executed_dispatched; eassumption.
    + constructor; [reflexivity|exact Hev].
    + change (StatusSet task Running :: evs) with ([StatusSet task Running] ++ evs).
      rewrite invocations_app, invocations_status. simpl in Hinv. lia.
    + discriminate.
    + exact Hml.
  - exists (rejected_task t), (world s), [], [StatusSet task Failed].
    split; [|split; [|split; [|split; [|split]]]].
    + rewrite (execute_task_unregistered o task s t Ht Hag), app_nil_r. reflexivity.
    + apply executed_rejected; [exact Hag|reflexivity].
    + repeat constructor.
    + rewrite invocations_status. lia.
    + intros _. apply invocations_status.
    + left. reflexivity.
Qed.

(** X9. [execute_task] always returns the task it was given, and it writes
    to that task object only: every other object is as before, no object is
    created, the attributes that identify the task (identifier,
    description, worker type, prerequisites, duration estimate, number of
    retries allowed) keep their values, the execution history is left
    alone, the memory sink receives at most the result of the task, and
    every recorded event is about that task. *)
Theorem execute_task_frame (task : ref) (s : State) (t : AgentTask) :
  heap s !! task = Some t →
  ∃ s' t' ml evs,
    execute_task o task s = (Ok task, s') ∧
    heap s' = <[task := t']> (heap s) ∧ same_spec t t' ∧
    execution_history s' = execution_history s ∧
    memory_log s' = memory_log s ++ ml ∧
    (ml = [] ∨ memory o = true ∧
               ∃ text, ml = [Store ("task_" +:+ task_id t +:+ "_result")
                               (MemText text) "working"] ∧ result t' = Some text) ∧
    trace s' = trace s ++ evs ∧ Forall (about_task task) evs.
Proof.
  intros Ht.
  destruct (execute_task_shape task s t Ht)
    as (t' & w' & ml & evs & Hrun & _ & Hev & _ & _ & Hml).
  destruct (execute_task_post o task s t Ht)
    as (t2 & w2 & ml2 & evs2 & Hrun2 & Hspec & _).
  assert (t2 = t') as ->.
  { rewrite Hrun in Hrun2. injection Hrun2 as Hh _ _ _.
    symmetry. exact (insert_same_inv _ _ _ _ _ Ht Hh). }
  eexists _, t', ml, evs. split; [exact Hrun|]. simpl.
  split; [reflexivity|]. split; [exact Hspec|]. split; [reflexivity|].
  split; [reflexivity|]. split; [|split; [reflexivity|exact Hev]].
  destruct Hml as [->|(_ & Hm & Hml)]; [left; reflexivity|right; auto].
Qed.

(** X10. The object [execute_task] leaves is one of four: with no worker
    registered for its type, the task as it was with status failed and the
    error "No agent registered for type: <type>"; with a worker and no
    attempt left (retry count above the retries allowed), the task marked
    running, with start time and assigned worker, and nothing else; with a
    worker that returned at the attempt bringing the retry count to [k], the
    running task with retry count [k], status completed, the result and
    the completion time; with a worker that raised on every attempt
    allowed, the running task with retry count one above the retries
    allowed, status failed, the error "Failed after <retries allowed>
    retries: <exception>" and the completion time. *)
Theorem execute_task_fields (task : ref) (s : State) (t : AgentTask) :
  heap s !! task = Some t →
  ∃ s' t', execute_task o task s = (Ok task, s') ∧
           heap s' !! task = Some t' ∧ executed o t t'.
Proof.
  intros Ht.
  destruct (execute_task_shape task s t Ht)
    as (t' & w' & ml & evs & Hrun & Hshape & _).
  eexists _, t'. split; [exact Hrun|]. simpl.
  split; [apply lookup_updated with t; exact Ht|exact Hshape].
Qed.

(** X11. One call of [execute_task] invokes the worker at most
    (retries allowed + 1 - retry count) times, that is three times for a
    task as decomposed, and not at all when no worker is registered for the
    type of the task; the invocations it records are for its own task. *)
Theorem execute_task_invocation_bound (task : ref) (s : State) (t : AgentTask) :
  heap s !! task = Some t →
  ∃ s', execute_task o task s = (Ok task, s') ∧
        (invocations task (trace s') ≤
           invocations task (trace s) + (S (max_retries t) - retry_count t))%nat ∧
        (dict_get (agent_type t) (agents o) = None →
           invocations task (trace s') = invocations task (trace s)) ∧
        (∀ x, x ≠ task → invocations x (trace s') = invocations x (trace s)).
Proof.
  intros Ht.
  destruct (execute_task_shape task s t Ht)
    as (t' & w' & ml & evs & Hrun & _ & Hev & Hinv & Hnone & _).
  eexists. split; [exact Hrun|]. simpl. split; [|split].
  - rewrite invocations_app. lia.
  - intros Hno. rewrite invocations_app, (Hnone Hno). lia.
  - intros x Hx. rewrite invocations_app, (invocations_other task x evs Hx Hev). lia.
Qed.

(** X12. Handing [execute_task] a task that has used up its retries (as a
    task that failed after retries has) and whose type has a worker does
    not invoke the worker: the task is marked running, with a new start
    time, and returned in that state, its earlier error and completion time
    still in place. *)
Theorem execute_task_no_attempt_left (agent : Agent) (task : ref) (s : State)
    (t : AgentTask) :
  heap s !! task = Some t →
  dict_get (agent_type t) (agents o) = Some agent →
  (max_retries t < retry_count t)%nat →
  execute_task o task s =
    (Ok task,
     mkState (<[task := running_task (world s) t]> (heap s)) (world s)
       (memory_log s) (execution_history s)
       (trace s ++ [StatusSet task Running])).
Proof.
  intros Ht Hag Hlt.
  rewrite (execute_task_registered o agent task s t Ht Hag).
  apply retry_loop_exit with (running_task (world s) t).
  - simpl. apply lookup_updated with t. exact Ht.
  - simpl. exact Hlt.
Qed.

(** X13. With a worker registered for its type, a task whose worker fails
    [k] times and then succeeds, [k] being within the retries the task has
    left, is completed: its retry count has grown by [k] and the worker was
    invoked [k + 1] times. *)
Theorem execute_task_recovers (agent : Agent) (task : ref) (s : State)
    (t : AgentTask) (k : nat) :
  heap s !! task = Some t →
  dict_get (agent_type t) (agents o) = Some agent →
  (retry_count t + k ≤ max_retries t)%nat →
  fails_then_succeeds agent (description t) k (world s) →
  ∃ s' t', execute_task o task s = (Ok task, s') ∧
           heap s' !! task = Some t' ∧ status t' = Completed ∧
           retry_count t' = (retry_count t + k)%nat ∧
           invocations task (trace s') = (invocations task (trace s) + S k)%nat.
Proof.
  intros Ht Hag Hk Hbeh.
  rewrite (execute_task_registered o agent task s t Ht Hag).
  set (s1 := mkState _ _ _ _ _).
  assert (Ht1 : heap s1 !! task = Some (running_task (world s) t)).
  { simpl. apply lookup_updated with t. exact Ht. }
  destruct (retry_loop_fails_then_succeeds o agent task k
              (S (max_retries t) - retry_count t) s1
              (running_task (world s) t) Ht1)
    as (s' & t' & Hrun & Hlook & Hst & Hrc' & Hinv).
  - simpl. lia.
  - lia.
  - exact Hbeh.
  - exists s', t'. split; [exact Hrun|]. split; [exact Hlook|]. split; [exact Hst|].
    split; [exact Hrc'|]. rewrite Hinv. subst s1. simpl.
    rewrite invocations_app, invocations_status. lia.
Qed.

End Executing.

(** ** What the decomposition leaves alone *)

Section Creating.
Context `{Env}.

Lemma created_refl s : created s s.
Proof. exists []. rewrite app_nil_r. repeat split. constructor. Qed.

Lemma created_trans s1 s2 s3 : created s1 s2 → created s2 s3 → created s1 s3.
Proof.
  intros (n1 & H1 & F1 & T1 & M1 & X1) (n2 & H2 & F2 & T2 & M2 & X2). exists (n1 ++ n2).
  rewrite H2, H1, app_assoc. split; [reflexivity|].
  split; [apply Forall_app; tauto|]. split; [congruence|]. split; congruence.
Qed.

Lemma pristine_init id d ty deps dur : pristine (AgentTask_init id d ty deps dur).
Proof. repeat split. Qed.

Lemma pristine_fresh t : pristine t → fresh t.
Proof. unfold pristine, fresh. tauto. Qed.

Lemma creating_ret {A} (a : A) : creating (mret a).
Proof. intros s r s' [= <- <-]. apply created_refl. Qed.

Lemma creating_bind {A B} (m : M A) (f : A → M B) :
  creating m → (∀ a, creating (f a)) → creating (m ≫= f).
Proof.
  intros Hm Hf s r s'. rewrite bind_run.
  destruct (m s) as [[a|e|] s1] eqn:E; specialize (Hm _ _ _ E).
  - intros E'. eapply created_trans; [exact Hm|]. eapply Hf. exact E'.
  - intros [= <- <-]. exact Hm.
  - intros [= <- <-]. exact Hm.
Qed.

Lemma creating_readonly {A} (m : M A) : readonly m → creating m.
Proof.
  intros Hr s r s' E. specialize (Hr s). rewrite E in Hr. simpl in Hr. subst s'.
  apply created_refl.
Qed.

Lemma creating_new id d ty deps dur : creating (new_AgentTask id d ty deps dur).
Proof.
  intros s r s' [= <- <-]. exists [AgentTask_init id d ty deps dur].
  split; [reflexivity|]. split; [|repeat split].
  constructor; [apply pristine_init|constructor].
Qed.

Lemma creating_foreign {A} (f : World → Outcome A * World) : creating (foreign f).
Proof.
  intros s r s'. unfold foreign. destruct (f (world s)) as [[a|e] w]; intros [= <- <-];
    exists []; simpl; rewrite app_nil_r; repeat split; constructor.
Qed.

Lemma creating_try_except {A} (body : M A) (handler : exn → M A) :
  creating body → (∀ e, creating (handler e)) → creating (try_except body handler).
Proof.
  intros Hb Hh s r s'. unfold try_except.
  destruct (body s) as [[a|e|] s1] eqn:E; specialize (Hb _ _ _ E).
  - intros [= <- <-]. exact Hb.
  - intros E'. eapply created_trans; [exact Hb|]. eapply Hh. exact E'.
  - intros [= <- <-]. exact Hb.
Qed.

Ltac creating :=
  repeat first
    [ apply creating_ret
    | apply creating_new
    | apply creating_foreign
    | apply creating_readonly;
      first [apply readonly_lift | apply readonly_previous_task_id | apply readonly_attr]
    | apply creating_bind; [|intros ?]
    | apply creating_try_except; [|intros ?] ].

Lemma creating_list_comp {A B} (l : list A) (f : A → M B) :
  (∀ x, creating (f x)) → creating (list_comp l f).
Proof. intros Hf. induction l; simpl; creating; auto. Qed.

Lemma creating_fallback task agents : creating (_fallback_decompose task agents).
Proof.
  unfold _fallback_decompose, research_block, analyze_block, write_block, default_block.
  cbv zeta. creating.
  - destruct (_ || _); creating.
  - destruct (Py.str_in _ _); creating.
  - destruct (_ || _); creating.
  - destruct a1; creating.
Qed.

Lemma creating_decompose_task o task : creating (decompose_task o task).
Proof.
  unfold decompose_task. cbv zeta. apply creating_bind.
  - destruct (use_llm o); [|apply creating_ret].
    destruct (decomposer o) as [d|]; [|apply creating_ret].
    apply creating_try_except; [|intros ?; apply creating_ret].
    apply creating_bind; [unfold decomposer_decompose, ask_llm; creating|].
    intros entries. apply creating_bind; [|intros ?; apply creating_ret].
    apply creating_list_comp. intros st. unfold task_of_dict. creating.
  - intros [subtasks|]; [apply creating_ret|apply creating_fallback].
Qed.

(** The subtasks [decompose_task] returns are distinct objects it has just
    created. *)
Lemma decompose_task_pristine o task s subtasks s1 :
  decompose_task o task s = (Ok subtasks, s1) →
  created s s1 ∧ NoDup subtasks ∧
  Forall (λ r, (List.length (heap s) ≤ r)%nat ∧ ∃ t, heap s1 !! r = Some t ∧ pristine t)
    subtasks.
Proof.
  intros E. pose proof (creating_decompose_task _ _ _ _ _ E) as Hc.
  split; [exact Hc|]. destruct Hc as (new & Hh & Hf & _).
  apply decompose_task_refs in E as (Hnd & Hn & Hb).
  split; [exact Hnd|].
  eapply Forall_impl; [exact Hb|]. intros r [Hlo Hhi]. simpl in *.
  split; [exact Hlo|].
  rewrite Hh in *. rewrite length_app in Hhi.
  destruct (new !! (r - List.length (heap s))%nat) as [t|] eqn:Ht'.
  - exists t. split.
    + rewrite lookup_app_r by lia. exact Ht'.
    + rewrite Forall_forall in Hf. apply Hf. eapply list_elem_of_lookup_2. exact Ht'.
  - apply lookup_ge_None in Ht'. lia.
Qed.

End Creating.

(** ** An invariant rule for the loop of [coordinate] *)

Section Calls.
Context `{Env}.
Variable o : AgentOrchestrator.

(** Everything known about one call of [execute_task]. *)
Lemma execute_task_full task s t :
  heap s !! task = Some t →
  ∃ t' w' ml evs,
    execute_task o task s =
      (Ok task, mkState (<[task := t']> (heap s)) w' (memory_log s ++ ml)
                  (execution_history s) (trace s ++ evs)) ∧
    execution o task t t' ml evs.
Proof.
  intros Ht.
  destruct (execute_task_shape o task s t Ht)
    as (t' & w' & ml & evs & Hrun & Hshape & Hev & Hinv & Hnone & Hml).
  exists t', w', ml, evs. split; [exact Hrun|].
  split; [exact Hshape|]. split; [|split; [exact Hev|split; [exact Hinv|
    split; [exact Hnone|split; [exact Hml|]]]]].
  - destruct Hshape as [_ ->|agent w _ [_ ->|w1 res k _ ->|w1 e _ ->]]; repeat split.
  - intros Hle. revert Hrun.
    destruct (dict_get (agent_type t) (agents o)) as [agent|] eqn:Hag.
    + rewrite (execute_task_registered o agent task s t Ht Hag).
      set (s1 := mkState _ _ _ _ _).
      assert (Ht1 : heap s1 !! task = Some (running_task (world s) t)).
      { simpl. apply lookup_updated with t. exact Ht. }
      destruct (retry_loop_post o agent task
                  (S (max_retries t) - retry_count t) s1 _ Ht1)
        as (t2 & w2 & ml2 & evs2 & Hrun2 & _ & _ & Hout).
      { simpl. lia. }
      rewrite Hrun2. subst s1. simpl. rewrite list_insert_insert_eq.
      intros [= Hh _ _ Htr].
      assert (t2 = t') as -> by exact (insert_same_inv _ _ _ _ _ Ht Hh).
      rewrite <- app_assoc in Htr. apply app_inv_head in Htr. subst evs.
      change ([StatusSet task Running] ++ evs2) with (StatusSet task Running :: evs2).
      assert (Hhd : ∀ l, status_history task (StatusSet task Running :: l)
                         = Running :: status_history task l).
      { intros l. unfold status_history. simpl. rewrite decide_True; reflexivity. }
      rewrite Hhd.
      destruct Hout as [Hlt _ _|_ Hs _ Hh' _|_ Hs _ Hh' _]; simpl in *;
        [lia|rewrite Hh', Hs; auto..].
    + rewrite (execute_task_unregistered o task s t Ht Hag).
      intros [= Hh _ _ Htr]. apply app_inv_head in Htr. subst evs.
      assert (rejected_task t = t') as <- by exact (insert_same_inv _ _ _ _ _ Ht Hh).
      split; [right; reflexivity|]. apply status_history_self.
Qed.

End Calls.

Section LoopRule.
Context `{Env}.
Variables (o : AgentOrchestrator) (subtasks : list ref) (h0 : list AgentTask).
Hypothesis subtasks_distinct : NoDup subtasks.

Lemma resolve_insert (h : list AgentTask) (r1 : ref) t1 t1' dep_id :
  h !! r1 = Some t1 → task_id t1' = task_id t1 →
  resolve (<[r1 := t1']> h) subtasks dep_id = resolve h subtasks dep_id.
Proof.
  intros Ht1 Hid. unfold resolve. f_equal. apply list_filter_iff. intros r. cbv beta.
  destruct (decide (r = r1)) as [->|Hne].
  - rewrite (lookup_updated h r1 t1 t1' Ht1), Ht1. simpl. rewrite Hid. reflexivity.
  - rewrite list_lookup_insert_ne by congruence. reflexivity.
Qed.

Lemma resolved_status_insert (h : list AgentTask) (r1 : ref) t1 t1' dep_id :
  h !! r1 = Some t1 → status t1 = Pending → task_id t1' = task_id t1 →
  resolved_status h subtasks dep_id = Some Completed →
  resolved_status (<[r1 := t1']> h) subtasks dep_id = Some Completed.
Proof.
  intros Ht1 Hst Hid. unfold resolved_status.
  rewrite (resolve_insert h r1 t1 t1' dep_id Ht1 Hid).
  destruct (resolve h subtasks dep_id) as [d|]; simpl; [|done].
  destruct (decide (d = r1)) as [->|Hne].
  - rewrite Ht1. simpl. congruence.
  - rewrite list_lookup_insert_ne by congruence. auto.
Qed.

Lemma ready_spec_insert (h : list AgentTask) (r r1 : ref) t1 t1' :
  r ≠ r1 → h !! r1 = Some t1 → status t1 = Pending → task_id t1' = task_id t1 →
  ready_spec h subtasks r → ready_spec (<[r1 := t1']> h) subtasks r.
Proof.
  intros Hne Ht1 Hst Hid. unfold ready_spec.
  rewrite list_lookup_insert_ne by congruence. unfold ref in *.
  destruct (h !! r) as [t|]; [|done].
  intros [Hp Hall]. split; [exact Hp|].
  eapply Forall_impl; [exact Hall|]. intros dep_id.
  apply (resolved_status_insert h r1 t1 t1' dep_id Ht1 Hst Hid).
Qed.

Variable P : State → Prop.
Hypothesis P_emit : ∀ s ev,
  (∀ r, ¬ about_task r ev) → P s → P (set_trace (trace s ++ [ev]) s).
Hypothesis P_execute : ∀ s r t t' w' ml evs,
  P s → run_inv h0 (heap s) subtasks → r ∈ subtasks →
  h0 !! r = Some t → heap s !! r = Some t →
  status t = Pending → (retry_count t ≤ max_retries t)%nat →
  ready_spec (heap s) subtasks r →
  execution o r t t' ml evs →
  P (mkState (<[r := t']> (heap s)) w' (memory_log s ++ ml)
       (execution_history s) (trace s ++ evs)).

(** The batch of one iteration keeps an invariant that every call of
    [execute_task] on a ready subtask keeps. *)
Lemma gather_rule ready : ∀ s s',
  NoDup ready → (∀ r, r ∈ ready → r ∈ subtasks) →
  Forall (ready_spec (heap s) subtasks) ready →
  run_inv h0 (heap s) subtasks → P s →
  for_each ready (λ task, execute_task o task ;; mret tt) s = (Ok tt, s') →
  P s'.
Proof.
  induction ready as [|r ready IH]; intros s s' Hnd Hsub Hready Hinv HP Hrun.
  - injection Hrun as <-. exact HP.
  - apply NoDup_cons in Hnd as [Hnotin Hnd].
    apply Forall_cons in Hready as [Hr Hready].
    assert (Hrs : r ∈ subtasks) by (apply Hsub; left).
    pose proof Hr as Hr'. unfold ready_spec in Hr'.
    destruct (heap s !! r) as [t|] eqn:Ht; [|done]. destruct Hr' as [Hst _].
    destruct (run_inv_lookup _ _ _ r Hinv Hrs) as (t0 & t1 & Ht0 & Ht1 & Hspec0 & Hcase).
    rewrite Ht in Ht1. injection Ht1 as <-.
    destruct Hcase as [(Heq & _ & Hle)|[Hc|Hc]]; [|congruence..]. subst t0.
    destruct (execute_task_full o r s t Ht) as (t' & w' & ml & evs & Hex & Hexec).
    simpl in Hrun. rewrite bind_run, bind_run, Hex in Hrun.
    change ((mret tt : M unit) ?x) with (Ok tt, x) in Hrun.
    set (s1 := mkState _ _ _ _ _) in *.
    pose proof Hexec as (Hshape & Hsame & _ & _ & _ & _ & Hterm).
    destruct (Hterm Hle) as [Hterm' _].
    refine (IH s1 s' Hnd _ _ _ _ Hrun).
    + intros x Hx. apply Hsub. right. exact Hx.
    + apply Forall_forall. intros x Hx. rewrite Forall_forall in Hready.
      simpl. apply ready_spec_insert with t; try assumption.
      * intros ->. contradiction.
      * apply Hsame.
      * apply Hready. exact Hx.
    + apply Forall_forall. intros x Hx.
      destruct (decide (x = r)) as [->|Hne].
      * exists t, t'. split; [exact Ht0|]. split.
        -- simpl. apply lookup_updated with t. exact Ht.
        -- split; [exact Hsame|]. right. exact Hterm'.
      * destruct (run_inv_lookup _ _ _ x Hinv Hx) as (x0 & x1 & Hx0 & Hx1 & Hxi).
        exists x0, x1. split; [exact Hx0|]. split; [|exact Hxi].
        simpl. rewrite list_lookup_insert_ne by congruence. exact Hx1.
    + apply (P_execute s r t t' w' ml evs); assumption.
Qed.

(** The loop of [coordinate] keeps such an invariant. *)
Lemma loop_rule fuel : ∀ i s n s',
  run_inv h0 (heap s) subtasks → P s →
  coordinate_loop o subtasks fuel i s = (Ok n, s') → P s'.
Proof.
  induction fuel as [|fuel IH]; intros i s n s' Hinv HP Hrun;
    pose proof (run_inv_valid _ _ _ Hinv) as Hvalid.
  - destruct (decide (Exists (has_status_in (heap s) Pending) subtasks
                      ∧ (i < max_iterations)%nat)) as [[Hp Hlt]|Hno].
    + rewrite coordinate_loop_unfold in Hrun.
      rewrite (bind_ok _ _ _ _ _ (any_status_run Pending subtasks s Hvalid)) in Hrun.
      rewrite (bool_decide_eq_true_2 _ Hp), (bool_decide_eq_true_2 _ Hlt) in Hrun.
      discriminate.
    + rewrite (coordinate_loop_done o subtasks 0 i s Hvalid Hno) in Hrun.
      injection Hrun as _ <-. exact HP.
  - destruct (decide (Exists (has_status_in (heap s) Pending) subtasks
                      ∧ (i < max_iterations)%nat)) as [[Hp Hlt]|Hno].
    2:{ rewrite (coordinate_loop_done o subtasks _ i s Hvalid Hno) in Hrun.
        injection Hrun as _ <-. exact HP. }
    destruct (decide (readySet (heap s) subtasks = [])) as [Hready|Hready].
    + rewrite (coordinate_loop_stall o subtasks fuel i s Hvalid Hp Hlt Hready) in Hrun.
      injection Hrun as _ <-. apply P_emit; [|exact HP]. intros r Habs. exact Habs.
    + rewrite (coordinate_loop_dispatch o subtasks fuel i s Hvalid Hp Hlt Hready) in Hrun.
      set (s1 := set_trace _ s) in Hrun.
      destruct (iteration_post o subtasks h0 subtasks_distinct s1)
        as (s2 & evs2 & Hrun2 & Hinv2 & _).
      { exact Hinv. }
      { exact Hready. }
      rewrite bind_run in Hrun. simpl in Hrun2. rewrite Hrun2 in Hrun.
      apply (IH (i + 1)%nat s2 n s' Hinv2); [|exact Hrun].
      apply (gather_rule (readySet (heap s) subtasks) s1 s2).
      * apply NoDup_filter. exact subtasks_distinct.
      * intros r. unfold readySet. rewrite list_elem_of_filter. tauto.
      * apply Forall_forall. intros r. unfold readySet.
        rewrite list_elem_of_filter. simpl. tauto.
      * exact Hinv.
      * apply P_emit; [|exact HP]. intros r Habs. exact Habs.
      * exact Hrun2.
Qed.

End LoopRule.

(** ** [coordinate] as decomposition, loop and report *)

Section Runs.
Context `{Env}.
Variable o : AgentOrchestrator.

Lemma prelude_run task subtasks s :
  valid_refs (heap s) subtasks →
  (if memory o then
     memory_store o "orchestration_task" (MemText task) "working" ;;
     dicts ← list_comp subtasks (attr to_dict);
     memory_store o "subtasks" (MemTasks dicts) "working"
   else mret tt) s =
  (Ok tt,
   mkState (heap s) (world s)
     (memory_log s ++
      (if memory o
       then [Store "orchestration_task" (MemText task) "working";
             Store "subtasks" (MemTasks (to_dict <$> objects (heap s) subtasks)) "working"]
       else []))
     (execution_history s) (trace s)).
Proof.
  intros Hv. destruct (memory o) eqn:Hm.
  - rewrite bind_run. unfold memory_store at 1. rewrite Hm. cbn beta iota.
    erewrite (bind_ok _ _ _ _ _ (list_comp_run (attr to_dict) to_dict subtasks _ _ _)).
    + unfold memory_store. rewrite Hm. destruct s; simpl.
      rewrite <- app_assoc. reflexivity.
  - destruct s; simpl. rewrite app_nil_r. reflexivity.
  Unshelve.
  + intros r t Ht. apply attr_run. exact Ht.
  + exact Hv.
Qed.

(** [coordinate] is the decomposition, the memory prelude, the loop, and
    the report on the objects the loop leaves. *)
Lemma coordinate_factor task s subtasks s1 :
  decompose_task o task s = (Ok subtasks, s1) →
  ∃ s1m n s2,
    s1m = mkState (heap s1) (world s1)
            (memory_log s1 ++
             (if memory o
              then [Store "orchestration_task" (MemText task) "working";
                    Store "subtasks" (MemTasks (to_dict <$> objects (heap s1) subtasks))
                      "working"]
              else []))
            (execution_history s1) (trace s1) ∧
    run_inv (heap s1) (heap s1m) subtasks ∧
    coordinate_loop o subtasks max_iterations 0 s1m = (Ok n, s2) ∧
    run_inv (heap s1) (heap s2) subtasks ∧
    coordinate o task s =
      (Ok (report o task (now (world s)) (now (world s2)) (heap s2) subtasks),
       mkState (heap s2) (world s2)
         (memory_log s2 ++
          (if memory o &&
              r_success (report o task (now (world s)) (now (world s2)) (heap s2) subtasks)
           then [StoreFact ("Successfully orchestrated: " +:+ task) "orchestrator"]
           else []))
         (execution_history s2 ++
          [report o task (now (world s)) (now (world s2)) (heap s2) subtasks])
         (trace s2)).
Proof.
  intros Hdec.
  destruct (decompose_task_fresh _ _ _ _ _ Hdec) as (Hnd & Hfresh & _).
  pose proof (fresh_run_inv _ _ Hfresh) as Hinv1.
  pose proof (prelude_run task subtasks s1 (run_inv_valid _ _ _ Hinv1)) as Hmem.
  set (s1m := mkState _ _ _ _ _) in Hmem.
  destruct (coordinate_loop_post o subtasks (heap s1) Hnd max_iterations 0 s1m)
    as (n & s2 & evs & Hloop & Hinv2 & _).
  { reflexivity. }
  { exact Hinv1. }
  pose proof (run_inv_valid _ _ _ Hinv2) as Hv2.
  exists s1m, n, s2. split; [reflexivity|]. split; [exact Hinv1|].
  split; [exact Hloop|]. split; [exact Hinv2|].
  unfold coordinate. rewrite bind_run. unfold clock at 1. cbn beta iota.
  rewrite (bind_ok _ _ _ _ _ Hdec).
  rewrite (bind_ok _ _ _ _ _ Hmem).
  rewrite (bind_ok _ _ _ _ _ Hloop).
  rewrite (bind_ok _ _ _ _ _ (list_filter_status_run Completed subtasks s2 Hv2)).
  rewrite (bind_ok _ _ _ _ _ (list_filter_status_run Failed subtasks s2 Hv2)).
  erewrite (bind_ok _ _ _ _ _ (list_comp_run _ _ _ s2 (part_run s2) _)).
  rewrite bind_run. unfold clock at 1. cbn beta iota zeta.
  erewrite (bind_ok _ _ _ _ _ (list_comp_run (attr to_dict) to_dict subtasks s2 _ Hv2)).
  rewrite bind_run. unfold history_append at 1. cbn beta iota.
  rewrite epilogue_run. unfold report. cbn [r_success].
  destruct (memory o && _); destruct s2; simpl; rewrite ?app_nil_r; reflexivity.
  Unshelve.
  + apply valid_refs_filter. exact Hv2.
  + intros r t Ht. apply attr_run. exact Ht.
Qed.

End Runs.

(** ** Whole runs *)

Section RunProperties.
Context `{Env}.
Variable o : AgentOrchestrator.

Lemma objects_length h l : valid_refs h l → List.length (objects h l) = List.length l.
Proof.
  induction 1 as [|r l [t Ht] _ IH]; [reflexivity|].
  unfold objects in *. simpl. rewrite Ht. simpl. f_equal. exact IH.
Qed.

Lemma dict_status_count h l v :
  valid_refs h l →
  List.length (filter (λ d, td_status d = v) (to_dict <$> objects h l)) =
  List.length (filter (has_status_in h v) l).
Proof.
  induction 1 as [|r l [t Ht] _ IH]; [reflexivity|].
  unfold objects in *. simpl. rewrite Ht. simpl.
  rewrite !filter_cons. simpl.
  pose proof (has_status_in_iff h v r t Ht) as Hiff.
  destruct (decide (status t = v)) as [Hs|Hs].
  - rewrite decide_True by tauto. simpl. f_equal. exact IH.
  - rewrite decide_False by tauto. exact IH.
Qed.

Lemma status_partition h0 h l :
  run_inv h0 h l →
  (List.length (filter (has_status_in h Pending) l) +
   List.length (filter (has_status_in h Completed) l) +
   List.length (filter (has_status_in h Failed) l) = List.length l)%nat.
Proof.
  induction 1 as [|r l (t0 & t & _ & Ht & _ & Hcase) _ IH]; [reflexivity|].
  rewrite !filter_cons.
  pose proof (has_status_in_iff h Pending r t Ht) as Hp.
  pose proof (has_status_in_iff h Completed r t Ht) as Hc.
  pose proof (has_status_in_iff h Failed r t Ht) as Hf.
  destruct Hcase as [(_ & Hs & _)|[Hs|Hs]].
  - rewrite (decide_True (P := has_status_in h Pending r)) by tauto.
    rewrite (decide_False (P := has_status_in h Completed r)) by (rewrite Hc; congruence).
    rewrite (decide_False (P := has_status_in h Failed r)) by (rewrite Hf; congruence).
    simpl. lia.
  - rewrite (decide_False (P := has_status_in h Pending r)) by (rewrite Hp; congruence).
    rewrite (decide_True (P := has_status_in h Completed r)) by tauto.
    rewrite (decide_False (P := has_status_in h Failed r)) by (rewrite Hf; congruence).
    simpl. lia.
  - rewrite (decide_False (P := has_status_in h Pending r)) by (rewrite Hp; congruence).
    rewrite (decide_False (P := has_status_in h Completed r)) by (rewrite Hc; congruence).
    rewrite (decide_True (P := has_status_in h Failed r)) by tauto.
    simpl. lia.
Qed.

(** X14. The numbers in the result of [coordinate] agree with its list of
    subtask snapshots: the total is the length of the list, the completed
    and failed counts are the numbers of snapshots with those statuses,
    every snapshot is pending, completed or failed, so that the three
    numbers add up to the total, and success is reported exactly when the
    completed count equals the total, in which case nothing has failed. *)
Theorem coordinate_counts (task : string) (s : State) (subtasks : list ref)
    (s1 : State) :
  decompose_task o task s = (Ok subtasks, s1) →
  ∃ r s',
    coordinate o task s = (Ok r, s') ∧
    r_total_subtasks r = List.length (r_subtasks r) ∧
    r_total_subtasks r = List.length subtasks ∧
    r_completed r = List.length (filter (λ d, td_status d = Completed) (r_subtasks r)) ∧
    r_failed r = List.length (filter (λ d, td_status d = Failed) (r_subtasks r)) ∧
    (List.length (filter (λ d, td_status d = Pending) (r_subtasks r)) +
     r_completed r + r_failed r = r_total_subtasks r)%nat ∧
    (r_success r = true ↔ r_completed r = r_total_subtasks r) ∧
    (r_success r = true → r_failed r = 0%nat).
Proof.
  intros Hdec.
  destruct (coordinate_factor o task s subtasks s1 Hdec)
    as (s1m & n & s2 & _ & _ & _ & Hinv2 & Hrun).
  pose proof (run_inv_valid _ _ _ Hinv2) as Hv2.
  pose proof (status_partition _ _ _ Hinv2) as Hpart.
  eexists _, _. split; [exact Hrun|]. unfold report. simpl.
  rewrite !dict_status_count by exact Hv2.
  rewrite length_fmap, objects_length by exact Hv2.
  split; [reflexivity|]. split; [reflexivity|]. split; [reflexivity|].
  split; [reflexivity|]. split; [exact Hpart|].
  rewrite bool_decide_eq_true. split; [tauto|]. lia.
Qed.

Lemma keyword_plan_length task first agents :
  (1 ≤ List.length (keyword_plan task first agents) ≤ 3)%nat.
Proof.
  unfold keyword_plan, keyword_step. cbv zeta.
  destruct (Py.str_in "research" _ || Py.str_in "find" _);
    destruct (Py.str_in "analyze" _);
    destruct (Py.str_in "write" _ || Py.str_in "report" _); simpl; lia.
Qed.

Lemma decompose_task_keyword task s :
  use_llm o = false ∨ decomposer o = None →
  decompose_task o task s = _fallback_decompose task (dict_keys (agents o)) s.
Proof.
  intros Hkw. unfold decompose_task. cbv zeta. rewrite bind_run.
  destruct Hkw as [-> | ->]; [reflexivity|]. destruct (use_llm o); reflexivity.
Qed.

(** X15. With the keyword decomposition in use (no LLM decomposer, so that
    no reply of a model is read) and at least one worker type registered,
    [coordinate] never raises, whatever the task text and the workers do:
    it returns a result of one to three subtasks for the task it was given,
    stamped with the identity of the orchestrator and the time of the
    call, and appends that result, and nothing else, to the execution
    history, where [get_history] then finds it last; the objects that
    existed before the call are untouched. *)
Theorem coordinate_returns (task : string) (s : State) :
  use_llm o = false ∨ decomposer o = None →
  dict_keys (agents o) ≠ [] →
  ∃ r s',
    coordinate o task s = (Ok r, s') ∧
    r_task r = task ∧ r_orchestrator_id r = orchestrator_id o ∧
    r_started_at r = now (world s) ∧
    (1 ≤ r_total_subtasks r ≤ 3)%nat ∧
    execution_history s' = execution_history s ++ [r] ∧
    get_history s' = (Ok (execution_history s ++ [r]), s') ∧
    (∀ x t, heap s !! x = Some t → heap s' !! x = Some t).
Proof.
  intros Hkw Hne.
  destruct (dict_keys (agents o)) as [|first rest] eqn:Hkeys; [done|].
  pose proof (decompose_task_keyword task s Hkw) as Hdec.
  rewrite Hkeys, fallback_run in Hdec.
  set (subtasks := seq _ _) in Hdec. set (s1 := set_heap _ s) in Hdec.
  destruct (decompose_task_pristine _ _ _ _ _ Hdec)
    as ((new & Hh & _ & _ & _ & Hx) & Hnd & Hnew).
  destruct (coordinate_factor o task s subtasks s1 Hdec)
    as (s1m & n & s2 & Hs1m & Hinv1 & Hloop & Hinv2 & Hrun).
  assert (HP : execution_history s2 = execution_history s ∧
               ∀ x, x ∉ subtasks → heap s2 !! x = heap s1 !! x).
  { refine (loop_rule o subtasks (heap s1) Hnd
              (λ st, execution_history st = execution_history s ∧
                     ∀ x, x ∉ subtasks → heap st !! x = heap s1 !! x)
              _ _ max_iterations 0 s1m n s2 Hinv1 _ Hloop).
    - intros st ev _ HP. exact HP.
    - intros st r t t' w' ml evs [Hhist Hout] _ Hr _ _ _ _ _ _. simpl.
      split; [exact Hhist|]. intros x Hx'.
      rewrite list_lookup_insert_ne by (intros ->; contradiction). auto.
    - subst s1m. simpl. split; [exact Hx|]. reflexivity. }
  destruct HP as [Hhist Hout].
  eexists _, _. split; [exact Hrun|]. unfold get_history. simpl. rewrite Hhist.
  do 3 (split; [reflexivity|]).
  split; [subst subtasks; rewrite length_seq; apply keyword_plan_length|].
  do 2 (split; [reflexivity|]).
  intros x t Hxt. rewrite Hout.
  - rewrite Hh. apply lookup_app_l_Some. exact Hxt.
  - intros Hin. rewrite Forall_forall in Hnew. destruct (Hnew x Hin) as [Hge _].
    apply lookup_lt_Some in Hxt. lia.
Qed.

(** X16. No subtask is started before its prerequisites: in the result of
    [coordinate], every snapshot that is not pending has each of its
    prerequisite identifiers carried by a completed snapshot of the list.
    This holds for every decomposition, cyclic or dangling prerequisites
    included. *)
Theorem coordinate_prerequisites_first (task : string) (s : State)
    (subtasks : list ref) (s1 : State) :
  decompose_task o task s = (Ok subtasks, s1) →
  ∃ r s',
    coordinate o task s = (Ok r, s') ∧
    Forall (λ d, td_status d ≠ Pending → prerequisites_completed (r_subtasks r) d)
      (r_subtasks r).
Proof.
  intros Hdec.
  destruct (decompose_task_fresh _ _ _ _ _ Hdec) as (Hnd & Hfresh & _).
  destruct (coordinate_factor o task s subtasks s1 Hdec)
    as (s1m & n & s2 & Hs1m & Hinv1 & Hloop & Hinv2 & Hrun).
  assert (HP : ∀ x t, x ∈ subtasks → heap s2 !! x = Some t → status t ≠ Pending →
                 Forall (λ dep_id, resolved_status (heap s2) subtasks dep_id
                                   = Some Completed) (dependencies t)).
  { refine (loop_rule o subtasks (heap s1) Hnd
              (λ st, ∀ x t, x ∈ subtasks → heap st !! x = Some t → status t ≠ Pending →
                     Forall (λ dep_id, resolved_status (heap st) subtasks dep_id
                                       = Some Completed) (dependencies t))
              _ _ max_iterations 0 s1m n s2 Hinv1 _ Hloop).
    - intros st ev _ HP. exact HP.
    - intros st r t t' w' ml evs HP _ Hr _ Ht Hst _ Hready (_ & Hsame & _).
      cbn [heap]. intros x tx Hx Htx Hnp.
      assert (Hlift : ∀ deps,
                Forall (λ dep_id, resolved_status (heap st) subtasks dep_id
                                  = Some Completed) deps →
                Forall (λ dep_id, resolved_status (<[r := t']> (heap st)) subtasks dep_id
                                  = Some Completed) deps).
      { intros deps Hall. eapply Forall_impl; [exact Hall|]. intros dep_id.
        apply (resolved_status_insert subtasks (heap st) r t t' dep_id Ht Hst).
        apply Hsame. }
      apply Hlift. destruct (decide (x = r)) as [->|Hne].
      + rewrite (lookup_updated _ _ _ t' Ht) in Htx. injection Htx as <-.
        destruct Hsame as (_ & _ & _ & -> & _).
        unfold ready_spec in Hready. rewrite Ht in Hready. tauto.
      + rewrite list_lookup_insert_ne in Htx by congruence. eauto.
    - subst s1m. cbn [heap]. intros x t Hx Ht Hnp.
      rewrite Forall_forall in Hfresh. destruct (Hfresh x Hx) as (t1 & Ht1 & Hst & _).
      congruence. }
  eexists _, _. split; [exact Hrun|]. unfold report. cbn [r_subtasks].
  apply Forall_forall. intros d Hd. apply list_elem_of_fmap in Hd as (t & -> & Ht).
  apply elem_of_objects in Ht as (x & Hx & Ht). simpl. intros Hnp.
  unfold prerequisites_completed. simpl.
  eapply Forall_impl; [exact (HP x t Hx Ht Hnp)|]. intros dep_id Hres. simpl in Hres.
  unfold resolved_status in Hres.
  destruct (resolve (heap s2) subtasks dep_id) as [y|] eqn:Hy; [|discriminate].
  simpl in Hres. apply resolve_Some in Hy as [Hyin Hyid].
  destruct (heap s2 !! y) as [ty|] eqn:Hty; [|discriminate].
  simpl in Hres, Hyid. exists (to_dict ty). split; [|split].
  - apply list_elem_of_fmap. exists ty. split; [reflexivity|].
    apply elem_of_objects. eauto.
  - simpl. congruence.
  - simpl. congruence.
Qed.

Lemma executed_settled t0 t :
  pristine t0 → executed o t0 t → status t = Completed ∨ status t = Failed →
  settled (to_dict t).
Proof.
  intros (Hst & Hres & Herr & Hag & Hsa & Hca & Hrc & Hmr) Hex Hterm.
  destruct t0 as [id descr ty deps dur st res err ag sa ca rc mr]. simpl in *. subst.
  destruct Hex as [_ ->|agent w _ [Hlt ->|w1 r k Hk ->|w1 e _ ->]]; unfold settled; simpl in *.
  - split; [reflexivity|]. left. repeat split.
  - lia.
  - repeat split; eauto. lia.
  - split; [reflexivity|]. right. repeat split; eauto.
Qed.

(** X17. In the result of [coordinate], the snapshot of every subtask is
    in one of four shapes.  Pending: no result, no error, no assigned
    worker, no start or completion time, retry count 0.  Completed: a
    result and no error, the worker type assigned, start and completion
    times, retry count at most 2.  Failed for want of a worker: no
    result, the error "No agent registered for type: <type>", nothing
    else set, retry count 0.  Failed after retries: no result, an error
    starting with "Failed after 2 retries: ", the worker type assigned,
    start and completion times, retry count 3.  No snapshot is running. *)
Theorem coordinate_subtask_fields (task : string) (s : State)
    (subtasks : list ref) (s1 : State) :
  decompose_task o task s = (Ok subtasks, s1) →
  ∃ r s', coordinate o task s = (Ok r, s') ∧ Forall settled (r_subtasks r).
Proof.
  intros Hdec.
  destruct (decompose_task_pristine _ _ _ _ _ Hdec) as (_ & Hnd & Hnew).
  destruct (coordinate_factor o task s subtasks s1 Hdec)
    as (s1m & n & s2 & Hs1m & Hinv1 & Hloop & Hinv2 & Hrun).
  assert (HP : ∀ x, x ∈ subtasks →
                 ∃ t0 t, heap s1 !! x = Some t0 ∧ heap s2 !! x = Some t ∧
                         (t = t0 ∨ executed o t0 t ∧
                                   (status t = Completed ∨ status t = Failed))).
  { refine (loop_rule o subtasks (heap s1) Hnd
              (λ st, ∀ x, x ∈ subtasks →
                 ∃ t0 t, heap s1 !! x = Some t0 ∧ heap st !! x = Some t ∧
                         (t = t0 ∨ executed o t0 t ∧
                                   (status t = Completed ∨ status t = Failed)))
              _ _ max_iterations 0 s1m n s2 Hinv1 _ Hloop).
    - intros st ev _ HP. exact HP.
    - intros st r t t' w' ml evs HP _ Hr Ht0 Ht _ Hle _ (Hex & _ & _ & _ & _ & _ & Hterm).
      cbn [heap]. intros x Hx. destruct (decide (x = r)) as [->|Hne].
      + exists t, t'. split; [exact Ht0|]. split; [apply lookup_updated with t; exact Ht|].
        right. split; [exact Hex|]. apply Hterm. exact Hle.
      + rewrite list_lookup_insert_ne by congruence. auto.
    - subst s1m. cbn [heap]. intros x Hx.
      rewrite Forall_forall in Hnew. destruct (Hnew x Hx) as (_ & t & Ht & _).
      exists t, t. auto. }
  eexists _, _. split; [exact Hrun|]. unfold report. cbn [r_subtasks].
  apply Forall_forall. intros d Hd. apply list_elem_of_fmap in Hd as (t & -> & Ht).
  apply elem_of_objects in Ht as (x & Hx & Ht).
  destruct (HP x Hx) as (t0 & t' & Ht0 & Ht' & Hcase).
  rewrite Ht in Ht'. injection Ht' as <-.
  rewrite Forall_forall in Hnew. destruct (Hnew x Hx) as (_ & t1 & Ht1 & Hpr).
  pose proof (eq_trans (eq_sym Ht0) Ht1) as Heq. injection Heq as <-.
  destruct Hcase as [->|[Hex Hterm]].
  - destruct Hpr as (Hst & Hres & Herr & Hag & Hsa & Hca & Hrc & Hmr).
    unfold settled. simpl. rewrite Hst. auto 10.
  - exact (executed_settled t0 t Hpr Hex Hterm).
Qed.

Lemma silent_event x ev :
  (∀ r, ¬ about_task r ev) → invocations x [ev] = 0%nat ∧ status_history x [ev] = [].
Proof.
  intros Hno. destruct ev as [r v|r d|r|k ready|pending]; try (split; reflexivity);
    exfalso; apply (Hno r); reflexivity.
Qed.

Lemma status_history_other task x evs :
  x ≠ task → Forall (about_task task) evs → status_history x evs = [].
Proof.
  intros Hx Hev. unfold status_history.
  induction Hev as [|e evs He _ IH]; [reflexivity|].
  destruct e as [r v|r d|r|k ready|pending]; simpl in *; try exact IH; try done.
  subst r. rewrite decide_False by congruence. exact IH.
Qed.

(** X18. In one run of [coordinate] every subtask is executed at most
    once: the statuses assigned to it, after pending, are none, or failed
    (no worker for its type), or running then completed, or running then
    failed, the last of them being its status in the end; its worker is
    invoked at most three times, and not at all if the subtask is still
    pending when the run ends. *)
Theorem coordinate_each_subtask_once (task : string) (s : State)
    (subtasks : list ref) (s1 : State) :
  decompose_task o task s = (Ok subtasks, s1) →
  ∃ r s' evs,
    coordinate o task s = (Ok r, s') ∧ trace s' = trace s ++ evs ∧
    Forall (λ x, ∃ t, heap s' !! x = Some t ∧ once x t evs) subtasks.
Proof.
  intros Hdec.
  destruct (decompose_task_fresh _ _ _ _ _ Hdec) as (Hnd & Hfresh & Htr1).
  destruct (coordinate_factor o task s subtasks s1 Hdec)
    as (s1m & n & s2 & Hs1m & Hinv1 & Hloop & Hinv2 & Hrun).
  assert (HP : ∃ evs, trace s2 = trace s ++ evs ∧
                 ∀ x, x ∈ subtasks → ∃ t, heap s2 !! x = Some t ∧ once x t evs).
  { refine (loop_rule o subtasks (heap s1) Hnd
              (λ st, ∃ evs, trace st = trace s ++ evs ∧
                 ∀ x, x ∈ subtasks → ∃ t, heap st !! x = Some t ∧ once x t evs)
              _ _ max_iterations 0 s1m n s2 Hinv1 _ Hloop).
    - intros st ev Hsilent (evs & Htr & HP). exists (evs ++ [ev]).
      split; [simpl; rewrite Htr, <- app_assoc; reflexivity|].
      intros x Hx. destruct (HP x Hx) as (t & Ht & Hi & Hp & Hc & Hl).
      destruct (silent_event x ev Hsilent) as [Hi0 Hs0].
      exists t. split; [exact Ht|]. unfold once.
      rewrite invocations_app, status_history_app, Hi0, Hs0, app_nil_r, Nat.add_0_r.
      auto.
    - intros st r t t' w' ml evs_r (evs & Htr & HP) _ Hr Ht0 Ht Hst Hle _
        (Hex & _ & Hev & Hinv & Hnone & _ & Hterm).
      destruct (Hterm Hle) as [Hterm' Hhist].
      assert (Hcycle : Pending :: status_history r evs_r ∈ life_cycles ∧
                       last (Pending :: status_history r evs_r) = Some (status t')).
      { rewrite Hhist. unfold life_cycles.
        destruct (dict_get (agent_type t) (agents o)) as [agent|] eqn:Hag.
        - destruct Hterm' as [Hs|Hs]; rewrite Hs;
            (split; [repeat constructor|reflexivity]).
        - assert (Hs : status t' = Failed).
          { destruct Hex as [_ ->|agent w Hag' _]; [reflexivity|congruence]. }
          rewrite Hs. split; [repeat constructor|reflexivity]. }
      rewrite Forall_forall in Hfresh. destruct (Hfresh r Hr) as (t1 & Ht1 & _ & Hrc & Hmr).
      rewrite Ht0 in Ht1. injection Ht1 as <-. rewrite Hrc, Hmr in Hinv.
      exists (evs ++ evs_r). split; [simpl; rewrite Htr, <- app_assoc; reflexivity|].
      cbn [heap]. intros x Hx. destruct (HP x Hx) as (tx & Htx & Hi & Hp & Hc & Hl).
      unfold once. rewrite invocations_app, status_history_app.
      destruct (decide (x = r)) as [->|Hne].
      + rewrite Ht in Htx. injection Htx as <-.
        assert (Hh0 : status_history r evs = []).
        { rewrite Hst in Hl. clear -Hc Hl. unfold life_cycles in Hc.
          destruct (status_history r evs) as [|a l]; [reflexivity|].
          rewrite !elem_of_cons in Hc.
          destruct Hc as [Hc|[Hc|[Hc|[Hc|Hc]]]];
            [discriminate|injection Hc as -> ->; simpl in Hl; discriminate..|inversion Hc]. }
        exists t'. split; [apply lookup_updated with t; exact Ht|].
        rewrite (Hp Hst), Hh0. simpl.
        split; [lia|]. split; [destruct Hterm'; congruence|]. exact Hcycle.
      + rewrite list_lookup_insert_ne by congruence.
        rewrite (invocations_other r x evs_r Hne Hev),
                (status_history_other r x evs_r Hne Hev), app_nil_r, Nat.add_0_r.
        exists tx. auto.
    - subst s1m. cbn [heap trace]. exists []. rewrite app_nil_r.
      split; [exact Htr1|]. intros x Hx.
      rewrite Forall_forall in Hfresh. destruct (Hfresh x Hx) as (t & Ht & Hst & _).
      exists t. split; [exact Ht|]. unfold once, life_cycles, invocations. simpl.
      rewrite Hst. split; [lia|]. split; [reflexivity|]. split; [left|reflexivity]. }
  destruct HP as (evs & Htr & HP).
  eexists _, _, evs. split; [exact Hrun|]. cbn [heap trace].
  split; [exact Htr|]. apply Forall_forall. exact HP.
Qed.

(** X19. A run whose decomposition is empty (the model answered with an
    empty list) reports success: [coordinate] returns at once a result
    with no subtask, total 0, an empty final output and success true,
    records no event, and, with a memory sink attached, stores the fact
    that the task was successfully orchestrated. *)
Theorem coordinate_nothing_to_do (task : string) (s s1 : State) :
  decompose_task o task s = (Ok [], s1) →
  ∃ r s',
    coordinate o task s = (Ok r, s') ∧
    r_subtasks r = [] ∧ r_total_subtasks r = 0%nat ∧ r_final_output r = EmptyString ∧
    r_success r = true ∧ trace s' = trace s ∧ world s' = world s1 ∧
    (memory o = true →
     last (memory_log s') =
       Some (StoreFact ("Successfully orchestrated: " +:+ task) "orchestrator")).
Proof.
  intros Hdec.
  destruct (decompose_task_fresh _ _ _ _ _ Hdec) as (_ & _ & Htr1).
  destruct (coordinate_factor o task s [] s1 Hdec)
    as (s1m & n & s2 & Hs1m & Hinv1 & Hloop & Hinv2 & Hrun).
  rewrite (coordinate_loop_done o [] max_iterations 0 s1m) in Hloop.
  - injection Hloop as _ <-. subst s1m.
    eexists _, _. split; [exact Hrun|]. cbn.
    repeat split; try reflexivity; try exact Htr1.
    intros ->. simpl. rewrite last_snoc. reflexivity.
  - constructor.
  - rewrite Exists_nil. tauto.
Qed.

Lemma objects_filter_status h l v :
  valid_refs h l →
  to_dict <$> objects h (filter (has_status_in h v) l) =
  filter (λ d, td_status d = v) (to_dict <$> objects h l).
Proof.
  induction 1 as [|r l [t Ht] _ IH]; [reflexivity|].
  rewrite filter_cons. pose proof (has_status_in_iff h v r t Ht) as Hiff.
  unfold objects in *. cbn [omap list_omap]. rewrite Ht. cbn [fmap list_fmap].
  rewrite filter_cons. cbn [td_status to_dict].
  destruct (decide (status t = v)) as [Hs|Hs].
  - rewrite decide_True by tauto. cbn [omap list_omap]. rewrite Ht.
    cbn [fmap list_fmap]. f_equal. exact IH.
  - rewrite decide_False by tauto. exact IH.
Qed.

(** X22. The final output of a run is made of the completed snapshots of
    its result, in the order of the list: one paragraph
    "<identifier> (<type>):" followed by the result on the next line for
    each, the paragraphs separated by an empty line; pending and failed
    subtasks contribute nothing. *)
Theorem coordinate_final_output (task : string) (s : State) (subtasks : list ref)
    (s1 : State) :
  decompose_task o task s = (Ok subtasks, s1) →
  ∃ r s',
    coordinate o task s = (Ok r, s') ∧
    r_final_output r =
      Py.join (nl +:+ nl)
        (output_part <$> filter (λ d, td_status d = Completed) (r_subtasks r)).
Proof.
  intros Hdec.
  destruct (coordinate_factor o task s subtasks s1 Hdec)
    as (s1m & n & s2 & _ & _ & _ & Hinv2 & Hrun).
  pose proof (run_inv_valid _ _ _ Hinv2) as Hv2.
  eexists _, _. split; [exact Hrun|]. unfold report. cbn [r_final_output r_subtasks].
  rewrite <- (objects_filter_status _ _ _ Hv2), <- list_fmap_compose. reflexivity.
Qed.

(** X23. For a decomposition of at most 50 subtasks, [coordinate] stops
    only when nothing more can run: in the state it leaves, no subtask is
    ready, and [get_ready_tasks] on the subtasks returns the empty list. *)
Theorem coordinate_leaves_nothing_ready (task : string) (s : State)
    (subtasks : list ref) (s1 : State) :
  decompose_task o task s = (Ok subtasks, s1) →
  (List.length subtasks ≤ max_iterations)%nat →
  ∃ r s',
    coordinate o task s = (Ok r, s') ∧
    readySet (heap s') subtasks = [] ∧
    get_ready_tasks subtasks s' = (Ok [], s').
Proof.
  intros Hdec Hlen.
  destruct (coordinate_post o task s subtasks s1 Hdec)
    as (r & s' & evs & Hrun & Hinv & _ & _ & _ & Hexit & _).
  pose proof (run_inv_valid _ _ _ Hinv) as Hv.
  assert (Hnone : readySet (heap s') subtasks = []).
  { assert (Hdone : pending_refs (heap s') subtasks = [] →
                    readySet (heap s') subtasks = []).
    { intros Hp. destruct (readySet (heap s') subtasks) as [|x l] eqn:Hr; [reflexivity|].
      exfalso. assert (Hx : x ∈ readySet (heap s') subtasks) by (rewrite Hr; left).
      destruct (readySet_pending _ _ _ Hx) as (t & Ht & Hst).
      unfold readySet in Hx. apply list_elem_of_filter in Hx as [_ Hx].
      apply (filter_nil_not_elem_of _ _ x Hp); [|exact Hx].
      unfold has_status_in. rewrite Ht. simpl. congruence. }
    destruct Hexit as [Hp|[(_ & _ & Hstall)|(Hcount & _)]].
    - exact (Hdone Hp).
    - exact Hstall.
    - apply Hdone. apply length_zero_iff_nil.
      pose proof (length_filter (has_status_in (heap s1) Pending) subtasks) as Hle.
      unfold pending_refs in *. unfold max_iterations in *. lia. }
  exists r, s'. split; [exact Hrun|]. split; [exact Hnone|].
  unfold get_ready_tasks.
  rewrite (ready_loop_run subtasks subtasks [] s' Hv Hv), app_nil_l.
  fold (readySet (heap s') subtasks). rewrite Hnone. reflexivity.
Qed.

End RunProperties.

(** ** The constructors *)

Section Construction.
Context `{Env}.

Lemma truthy_Some v : truthy v = true ↔ ∃ key, v = Some key ∧ key ≠ EmptyString.
Proof.
  destruct v as [[|c key]|]; simpl; split; try discriminate.
  - intros (key & [= <-] & Hne). congruence.
  - intros _. eexists. split; [reflexivity|discriminate].
  - intros (key' & [= <-] & _). reflexivity.
  - intros (key & Hk & _). discriminate.
Qed.

(** X20. A new orchestrator has no worker registered, the identifier drawn
    for it, and the memory sink it was given.  It gets a decomposer exactly
    when LLM decomposition is asked for, a non-empty key is passed and the
    client library accepts it: the environment variable is never
    consulted in its place.  Its LLM flag is switched off only when the
    library raised; without a key the flag stays as asked, with no
    decomposer.  The constructor never raises. *)
Theorem AgentOrchestrator_init_decomposer (p : Platform) (sink : bool)
    (given : option string) (use_llm_decomposition : bool) :
  let o := AgentOrchestrator_init p sink given use_llm_decomposition in
  agents o = [] ∧ orchestrator_id o = uuid4 p ∧ memory o = sink ∧
  (∀ d, decomposer o = Some d ↔
        use_llm_decomposition = true ∧ given = Some (api_key d) ∧
        api_key d ≠ EmptyString ∧
        Anthropic p (api_key d) = Returned (messages_create d)) ∧
  (use_llm o = false ↔
   use_llm_decomposition = false ∨
   ∃ key e, given = Some key ∧ key ≠ EmptyString ∧ Anthropic p key = Threw e).
Proof.
  intros o. subst o. unfold AgentOrchestrator_init, LLMTaskDecomposer_init.
  destruct use_llm_decomposition; simpl.
  2:{ do 3 (split; [reflexivity|]). split.
      - intros d. split; [discriminate|intros (Habs & _); discriminate].
      - split; [intros _; left; reflexivity|reflexivity]. }
  destruct (truthy given) eqn:Hk; simpl.
  - rewrite Hk. simpl.
    apply truthy_Some in Hk as (k & -> & Hne). simpl.
    destruct (Anthropic p k) as [client|e] eqn:Hc; simpl.
    + do 3 (split; [reflexivity|]). split.
      * intros d. split.
        -- intros [= <-]. simpl. auto.
        -- intros (_ & [= Hkey] & _ & Hcl). destruct d as [k' c']. simpl in *.
           subst k'. rewrite Hc in Hcl. injection Hcl as ->. reflexivity.
      * split; [discriminate|].
        intros [Habs|(k' & e & [= <-] & _ & Habs)]; [discriminate|congruence].
    + do 3 (split; [reflexivity|]). split.
      * intros d. split; [discriminate|].
        intros (_ & [= Hkey] & _ & Hcl). rewrite <- Hkey in Hcl. congruence.
      * split; [|reflexivity]. intros _. right. eauto.
  - do 3 (split; [reflexivity|]). split.
    + intros d. split; [discriminate|].
      intros (_ & -> & Hne & _). simpl in Hk.
      destruct (api_key d); [congruence|discriminate].
    + split; [discriminate|].
      intros [Habs|(k & e & -> & Hne & _)]; [discriminate|].
      destruct k; [congruence|discriminate].
Qed.

End Construction.

(** ** The memory sink is write-only *)

Section WriteOnly.
Context `{Env}.
Variable o : AgentOrchestrator.

Lemma sinkless_ret {A} (a : A) : sinkless (mret a) (mret a).
Proof. intros s. reflexivity. Qed.

Lemma sinkless_bind {A B} (m m' : M A) (f f' : A → M B) :
  sinkless m m' → (∀ a, sinkless (f a) (f' a)) → sinkless (m ≫= f) (m' ≫= f').
Proof.
  intros Hm Hf s. rewrite !bind_run, Hm.
  destruct (m s) as [[a|e|] s1]; simpl; [apply Hf|reflexivity..].
Qed.

Lemma sinkless_try_except {A} (body body' : M A) (handler handler' : exn → M A) :
  sinkless body body' → (∀ e, sinkless (handler e) (handler' e)) →
  sinkless (try_except body handler) (try_except body' handler').
Proof.
  intros Hb Hh s. unfold try_except. rewrite Hb.
  destruct (body s) as [[a|e|] s1]; simpl; [reflexivity|apply Hh|reflexivity].
Qed.

Lemma sinkless_lift {A} (r : Res A) : sinkless (lift r) (lift r).
Proof. intros s. reflexivity. Qed.

Lemma sinkless_fault {A} : sinkless (fault : M A) fault.
Proof. intros s. reflexivity. Qed.

Lemma sinkless_deref r : sinkless (deref r) (deref r).
Proof. intros [h w ml x tr]. unfold deref, erase. simpl. destruct (h !! r); reflexivity. Qed.

Lemma sinkless_attr {A} (f : AgentTask → A) r : sinkless (attr f r) (attr f r).
Proof.
  unfold attr. apply sinkless_bind; [apply sinkless_deref|]. intros t. apply sinkless_ret.
Qed.

Lemma sinkless_assign r upd : sinkless (assign r upd) (assign r upd).
Proof. intros [h w ml x tr]. unfold assign, erase. simpl. destruct (h !! r); reflexivity. Qed.

Lemma sinkless_emit e : sinkless (emit e) (emit e).
Proof. intros s. reflexivity. Qed.

Lemma sinkless_set_status r v : sinkless (set_status r v) (set_status r v).
Proof.
  unfold set_status. apply sinkless_bind; [apply sinkless_assign|].
  intros _. apply sinkless_emit.
Qed.

Lemma sinkless_new id d ty deps dur :
  sinkless (new_AgentTask id d ty deps dur) (new_AgentTask id d ty deps dur).
Proof. intros s. reflexivity. Qed.

Lemma sinkless_clock : sinkless clock clock.
Proof. intros s. reflexivity. Qed.

Lemma sinkless_sleep task : sinkless (asyncio_sleep task) (asyncio_sleep task).
Proof. intros s. reflexivity. Qed.

Lemma sinkless_call_agent task agent d :
  sinkless (call_agent task agent d) (call_agent task agent d).
Proof.
  intros [h w ml x tr]. unfold call_agent, erase. simpl.
  destruct (execute agent d w) as [r w']. reflexivity.
Qed.

Lemma sinkless_foreign {A} (f : World → Outcome A * World) : sinkless (foreign f) (foreign f).
Proof.
  intros [h w ml x tr]. unfold foreign, erase. simpl.
  destruct (f w) as [[a|e] w']; reflexivity.
Qed.

Lemma sinkless_history_append r : sinkless (history_append r) (history_append r).
Proof. intros s. reflexivity. Qed.

Lemma sinkless_memory_store key value level :
  sinkless (memory_store o key value level)
           (memory_store (without_memory o) key value level).
Proof. intros s. unfold memory_store. simpl. destruct (memory o); reflexivity. Qed.

Lemma sinkless_store_fact (c : bool) text source :
  sinkless (if memory o && c then memory_store_fact text source else mret tt)
           (if memory (without_memory o) && c then memory_store_fact text source
            else mret tt).
Proof. intros s. simpl. destruct (memory o && c); reflexivity. Qed.

Ltac sinkless :=
  repeat first
    [ apply sinkless_ret
    | apply sinkless_lift
    | apply sinkless_fault
    | apply sinkless_attr
    | apply sinkless_assign
    | apply sinkless_emit
    | apply sinkless_set_status
    | apply sinkless_new
    | apply sinkless_clock
    | apply sinkless_sleep
    | apply sinkless_call_agent
    | apply sinkless_foreign
    | apply sinkless_history_append
    | apply sinkless_memory_store
    | apply sinkless_store_fact
    | apply sinkless_bind; [|intros ?]
    | apply sinkless_try_except; [|intros ?]
    | assumption
    | match goal with
      | |- sinkless (if ?c then _ else _) _ => destruct c
      | |- sinkless (match ?x with _ => _ end) _ => destruct x
      end ].

Lemma sinkless_for_each {A} (l : list A) (body body' : A → M unit) :
  (∀ x, sinkless (body x) (body' x)) → sinkless (for_each l body) (for_each l body').
Proof. intros Hb. induction l; simpl; sinkless. apply Hb. Qed.

Lemma sinkless_list_comp {A B} (l : list A) (f f' : A → M B) :
  (∀ x, sinkless (f x) (f' x)) → sinkless (list_comp l f) (list_comp l f').
Proof. intros Hf. induction l; simpl; sinkless. apply Hf. Qed.

Lemma sinkless_list_filter {A} (l : list A) (p : A → M bool) :
  (∀ x, sinkless (p x) (p x)) → sinkless (list_filter l p) (list_filter l p).
Proof. intros Hp. induction l; simpl; sinkless. apply Hp. Qed.

Lemma sinkless_any {A} (l : list A) (p : A → M bool) :
  (∀ x, sinkless (p x) (p x)) → sinkless (any l p) (any l p).
Proof. intros Hp. induction l; simpl; sinkless. apply Hp. Qed.

Lemma sinkless_has_status v t : sinkless (has_status v t) (has_status v t).
Proof. unfold has_status. sinkless. Qed.

Lemma sinkless_previous_task_id subtasks :
  sinkless (previous_task_id subtasks) (previous_task_id subtasks).
Proof. unfold previous_task_id. sinkless. Qed.

Lemma sinkless_fallback task agents :
  sinkless (_fallback_decompose task agents) (_fallback_decompose task agents).
Proof.
  unfold _fallback_decompose, research_block, analyze_block, write_block, default_block.
  cbv zeta. sinkless; apply sinkless_previous_task_id.
Qed.

Lemma sinkless_decompose_task task :
  sinkless (decompose_task o task) (decompose_task (without_memory o) task).
Proof.
  unfold decompose_task. cbv zeta. simpl. apply sinkless_bind.
  - destruct (use_llm o); [|apply sinkless_ret].
    destruct (decomposer o) as [d|]; [|apply sinkless_ret].
    apply sinkless_try_except; [|intros ?; apply sinkless_ret].
    apply sinkless_bind; [unfold decomposer_decompose, ask_llm; sinkless|].
    intros entries. apply sinkless_bind; [|intros ?; apply sinkless_ret].
    apply sinkless_list_comp. intros st. unfold task_of_dict. sinkless.
  - intros [subtasks|]; [apply sinkless_ret|apply sinkless_fallback].
Qed.

Lemma sinkless_retry_loop agent task fuel :
  sinkless (retry_loop o agent task fuel) (retry_loop (without_memory o) agent task fuel).
Proof.
  induction fuel as [|fuel IH]; cbn [retry_loop]; sinkless.
Qed.

Lemma sinkless_execute_task task :
  sinkless (execute_task o task) (execute_task (without_memory o) task).
Proof.
  unfold execute_task. simpl. sinkless. apply sinkless_retry_loop.
Qed.

Lemma sinkless_find_task tasks dep_id :
  sinkless (find_task tasks dep_id) (find_task tasks dep_id).
Proof. induction tasks; simpl; sinkless. Qed.

Lemma sinkless_check_dependencies tasks deps :
  sinkless (check_dependencies tasks deps) (check_dependencies tasks deps).
Proof. induction deps; simpl; sinkless. apply sinkless_find_task. Qed.

Lemma sinkless_ready_loop tasks todo : ∀ ready,
  sinkless (ready_loop tasks todo ready) (ready_loop tasks todo ready).
Proof.
  induction todo; intros ready; simpl; sinkless; try apply IHtodo.
  apply sinkless_check_dependencies.
Qed.

Lemma sinkless_coordinate_loop subtasks fuel : ∀ i,
  sinkless (coordinate_loop o subtasks fuel i)
           (coordinate_loop (without_memory o) subtasks fuel i).
Proof.
  induction fuel as [|fuel IH]; intros i; cbn [coordinate_loop]; cbv zeta.
  - sinkless. apply sinkless_any, sinkless_has_status.
  - apply sinkless_bind; [apply sinkless_any, sinkless_has_status|]. intros pending.
    destruct (pending && _); [|apply sinkless_ret].
    apply sinkless_bind; [apply sinkless_ready_loop|]. intros ready.
    destruct ready as [|r0 ready].
    + sinkless. apply sinkless_list_filter, sinkless_has_status.
    + apply sinkless_bind; [apply sinkless_emit|]. intros _.
      apply sinkless_bind; [|intros _; apply IH].
      apply sinkless_for_each. intros task.
      apply sinkless_bind; [apply sinkless_execute_task|]. intros _. apply sinkless_ret.
Qed.

Lemma sinkless_bind_post {A B} (m m' : M A) (f f' : A → M B) :
  sinkless m m' →
  (∀ s a s1, m s = (Ok a, s1) → f' a (erase s1) = ((f a s1).1, erase (f a s1).2)) →
  sinkless (m ≫= f) (m' ≫= f').
Proof.
  intros Hm Hf s. rewrite !bind_run, Hm.
  destruct (m s) as [[a|e|] s1] eqn:E; simpl; [eapply Hf; exact E|reflexivity..].
Qed.

(** X21. The memory sink is write-only.  Run without the sink, from a
    state that differs only in what the sink holds, [coordinate] returns
    the same result (or raises the same exception) and leaves the same
    task objects, world, execution history and events: attaching a sink
    adds the writes to the sink and changes nothing else. *)
Theorem coordinate_memory_write_only (task : string) (s : State) :
  coordinate (without_memory o) task (erase s) =
  ((coordinate o task s).1, erase (coordinate o task s).2).
Proof.
  revert s. change (sinkless (coordinate o task) (coordinate (without_memory o) task)).
  unfold coordinate. cbn [memory orchestrator_id without_memory].
  apply sinkless_bind; [apply sinkless_clock|]. intros start_time.
  apply sinkless_bind_post; [apply sinkless_decompose_task|]. intros s0 subtasks s1 Hdec.
  destruct (decompose_task_fresh _ _ _ _ _ Hdec) as (_ & Hfresh & _).
  pose proof (run_inv_valid _ _ _ (fresh_run_inv _ _ Hfresh)) as Hv.
  match goal with
  | |- (_ ≫= ?k') _ = (((_ ≫= ?k) _).1, _) =>
      assert (Hrest : sinkless (k tt) (k' tt))
  end.
  { cbv beta.
    apply sinkless_bind; [apply sinkless_coordinate_loop|]. intros n.
    apply sinkless_bind; [apply sinkless_list_filter, sinkless_has_status|].
    intros completed.
    apply sinkless_bind; [apply sinkless_list_filter, sinkless_has_status|].
    intros failed.
    apply sinkless_bind.
    { apply sinkless_list_comp. intros t. sinkless. }
    intros parts. cbv zeta.
    apply sinkless_bind; [apply sinkless_clock|]. intros end_time.
    apply sinkless_bind; [apply sinkless_list_comp; intros t; apply sinkless_attr|].
    intros dicts.
    apply sinkless_bind; [apply sinkless_history_append|]. intros _.
    apply sinkless_bind; [|intros _; apply sinkless_ret].
    apply (sinkless_store_fact _ _ _). }
  rewrite (bind_ok _ _ _ _ _ (prelude_run o task subtasks s1 Hv)).
  match goal with |- _ = ((_ ?x).1, _) => exact (Hrest x) end.
Qed.

End WriteOnly.

(** * Witnesses and counterexamples *)

#[local] Existing Instance script_env.

(** In a chain of three subtasks whose first is completed, the second is
    the ready set. *)
Lemma get_ready_tasks_spec_witness :
  valid_refs demo_heap [0; 1; 2]%nat ∧
  get_ready_tasks [0; 1; 2]%nat (state_of demo_heap []) = (Ok [1%nat], state_of demo_heap []) ∧
  ready_unique demo_heap [0; 1; 2]%nat 1%nat.
Proof.
  assert (Hv : valid_refs (heap (state_of demo_heap [])) [0; 1; 2]%nat).
  { repeat constructor; eexists; reflexivity. }
  destruct (get_ready_tasks_spec [0; 1; 2]%nat (state_of demo_heap []) Hv) as [Hrun Huniq].
  split; [exact Hv|]. split.
  - rewrite Hrun. reflexivity.
  - apply Huniq.
    + apply (bool_decide_unpack _). vm_compute. exact I.
    + apply (bool_decide_unpack _). vm_compute. exact I.
Defined.

(** The default subtask of an orchestrator without workers. *)
Lemma execute_task_unregistered_fails_witness :
  ∃ s' t',
    execute_task (keyword_orchestrator []) 0%nat (state_of [general_task] []) = (Ok 0%nat, s') ∧
    heap s' !! 0%nat = Some t' ∧
    status t' = Failed ∧
    error t' = Some "No agent registered for type: general" ∧
    retry_count t' = 0%nat ∧
    trace s' = [StatusSet 0 Failed] ∧
    invocations 0 (trace s') = 0%nat ∧
    world s' = [].
Proof.
  exact (execute_task_unregistered_fails (keyword_orchestrator []) 0%nat
           (state_of [general_task] []) general_task eq_refl eq_refl).
Defined.

(** The error text of the code starts with "No agent", not "no worker". *)
Lemma unregistered_error_text :
  let s' := (execute_task (keyword_orchestrator []) 0%nat (state_of [general_task] [])).2 in
  error <$> heap s' !! 0%nat ≠ Some (Some "no worker registered for type: general").
Proof. vm_compute. discriminate. Qed.

(** A worker that is busy twice, and a worker that never succeeds. *)
Lemma execute_task_retry_accounting_witness :
  (∃ s' t',
     execute_task (keyword_orchestrator [("general", scripted)]) 0%nat
       (state_of [general_task] [Threw (Error "busy"); Threw (Error "busy")]) = (Ok 0%nat, s') ∧
     heap s' !! 0%nat = Some t' ∧ status t' = Completed ∧ retry_count t' = 2%nat) ∧
  (∃ s' t',
     execute_task (keyword_orchestrator [("general", broken)]) 0%nat
       (state_of [general_task] []) = (Ok 0%nat, s') ∧
     heap s' !! 0%nat = Some t' ∧ status t' = Failed ∧ retry_count t' = 3%nat ∧
     invocations 0 (trace s') = 3%nat).
Proof.
  split.
  - apply (execute_task_retry_accounting (keyword_orchestrator [("general", scripted)])
             scripted 0%nat
             (state_of [general_task] [Threw (Error "busy"); Threw (Error "busy")])
             general_task eq_refl eq_refl eq_refl eq_refl).
    simpl. eexists _, _. split; [reflexivity|].
    eexists _, _. split; [reflexivity|]. eexists _, _. reflexivity.
  - apply (execute_task_retry_accounting (keyword_orchestrator [("general", broken)])
             broken 0%nat (state_of [general_task] [])
             general_task eq_refl eq_refl eq_refl eq_refl).
    intros w. eexists _, _. reflexivity.
Defined.

(** A registered worker that succeeds at once. *)
Lemma execute_task_transitions_witness :
  ∃ s' evs t',
    execute_task (keyword_orchestrator [("general", scripted)]) 0%nat
      (state_of [general_task] []) = (Ok 0%nat, s') ∧
    trace s' = evs ∧
    heap s' !! 0%nat = Some t' ∧
    via_running (Pending :: status_history 0 evs) ∧
    last (Pending :: status_history 0 evs) = Some (status t').
Proof.
  exact (execute_task_transitions (keyword_orchestrator [("general", scripted)]) 0%nat
           (state_of [general_task] []) general_task eq_refl eq_refl
           (le_S _ _ (le_S _ _ (le_n 0)))).
Defined.

(** Without a worker the subtask goes from pending to failed: it is never
    set to running. *)
Lemma unregistered_skips_running :
  ¬ via_running
      (Pending ::
       status_history 0
         (trace (execute_task (keyword_orchestrator []) 0%nat
                   (state_of [general_task] [])).2)).
Proof. vm_compute. intros [E|E]; discriminate. Qed.

(** A task text with the markers in mixed case. *)
Lemma fallback_research_report_witness :
  _fallback_decompose "Research the market and write a REPORT" ["research"; "writing"]
    (state_of [] []) =
  (Ok [0; 1]%nat,
   state_of
     [AgentTask_init "task-1" "Research: Research the market and write a REPORT"
        "research" None 3;
      AgentTask_init "task-2" "Write report" "writing" (Some ["task-1"]) 3] []).
Proof.
  exact (fallback_research_report "Research the market and write a REPORT"
           (state_of [] []) eq_refl eq_refl eq_refl).
Defined.

(** An LLM that cannot be reached, and one whose entry has no [task_id]. *)
Lemma decompose_task_failures_witness :
  let agents := [("research", scripted); ("writing", scripted)] in
  let task := "research and report" in
  decompose_task (llm_orchestrator llm_down agents) task (state_of [] []) =
    (Ok [0%nat], state_of [AgentTask_init "task-1" task "research" (Some []) 3] []) ∧
  decompose_task (llm_orchestrator (llm_says "nameless") agents) task (state_of [] []) =
    _fallback_decompose task ["research"; "writing"] (state_of [] []).
Proof.
  split.
  - exact (proj1 (decompose_task_failures
                    (llm_orchestrator llm_down [("research", scripted); ("writing", scripted)])
                    llm_down "research and report" (state_of [] []) eq_refl eq_refl)
             (Error "connection refused") (state_of [] []) eq_refl).
  - exact (proj2 (decompose_task_failures
                    (llm_orchestrator (llm_says "nameless")
                       [("research", scripted); ("writing", scripted)])
                    (llm_says "nameless") "research and report" (state_of [] [])
                    eq_refl eq_refl)
             [nameless_entry] (state_of [] []) (KeyError "task_id") (state_of [] [])
             eq_refl eq_refl).
Defined.

(** When the call to the LLM fails, the engine gets one subtask where the
    keyword fallback would build two. *)
Lemma llm_failure_skips_keyword_fallback :
  let o := llm_orchestrator llm_down [("research", scripted); ("writing", scripted)] in
  let task := "research and report" in
  (decompose_task o task (state_of [] [])).1 = Ok [0%nat] ∧
  (_fallback_decompose task (dict_keys (agents o)) (state_of [] [])).1 = Ok [0; 1]%nat ∧
  decompose_task o task (state_of [] []) ≠
    _fallback_decompose task (dict_keys (agents o)) (state_of [] []).
Proof. vm_compute. repeat split. discriminate. Qed.






(** ** Examples for the further properties *)

(** A fenced reply, with and without the language tag. *)
Lemma extract_json_fenced_witness :
  no_backquote " [1, 2] " = true ∧
  extract_json "```json [1, 2] ```" = Ok "[1, 2]" ∧
  extract_json "``` [1, 2] ```" = Ok "[1, 2]".
Proof.
  split; [reflexivity|].
  destruct (extract_json_fenced " [1, 2] " eq_refl) as [Hjson Hplain].
  split; [exact Hjson|exact (Hplain eq_refl)].
Defined.

(** One worker registered, keyword decomposition. *)
Lemma decompose_task_returns_witness :
  let o := keyword_orchestrator [("general", scripted)] in
  let s := state_of [] [] in
  dict_keys (agents o) = ["general"] ∧
  ∃ subtasks s1 new,
    decompose_task o "tidy up" s = (Ok subtasks, s1) ∧
    heap s1 = heap s ++ new ∧ Forall fresh new ∧
    NoDup subtasks ∧
    Forall (λ r, (List.length (heap s) ≤ r < List.length (heap s1))%nat) subtasks ∧
    trace s1 = trace s.
Proof.
  intros o s. split; [reflexivity|].
  apply (decompose_task_returns o "tidy up" s). discriminate.
Defined.

(** Two entries, the second with a prerequisite. *)
Lemma decompose_task_from_entries_witness :
  let o := llm_orchestrator (llm_says "blocked") [("general", scripted)] in
  decompose_task o "build the site" (state_of [] []) =
    (Ok [0; 1]%nat,
     state_of [AgentTask_init "task-1" "do task-1" "general" (Some []) 1;
               AgentTask_init "blocked" "do blocked" "general" (Some ["ghost"]) 1] []).
Proof.
  intros o.
  exact (decompose_task_from_entries o (llm_says "blocked") "build the site"
           (state_of [] []) (state_of [] [])
           [entry "task-1" "general" []; blocked_entry]
           [AgentTask_init "task-1" "do task-1" "general" (Some []) 1;
            AgentTask_init "blocked" "do blocked" "general" (Some ["ghost"]) 1]
           eq_refl eq_refl eq_refl eq_refl).
Defined.

(** A worker that is busy once, beside a task that is not touched. *)
Lemma execute_task_frame_witness :
  let o := keyword_orchestrator [("general", scripted)] in
  let s := state_of [general_task; exhausted_task] [Threw (Error "busy")] in
  ∃ s' t' ml evs,
    execute_task o 0%nat s = (Ok 0%nat, s') ∧
    heap s' = <[0%nat := t']> (heap s) ∧ same_spec general_task t' ∧
    execution_history s' = execution_history s ∧
    memory_log s' = memory_log s ++ ml ∧
    (ml = [] ∨ memory o = true ∧
               ∃ text, ml = [Store ("task_" +:+ task_id general_task +:+ "_result")
                               (MemText text) "working"] ∧ result t' = Some text) ∧
    trace s' = trace s ++ evs ∧ Forall (about_task 0%nat) evs.
Proof.
  intros o s. exact (execute_task_frame o 0%nat s general_task eq_refl).
Defined.

Lemma execute_task_fields_witness :
  let o := keyword_orchestrator [("general", scripted)] in
  let s := state_of [general_task] [Threw (Error "busy")] in
  ∃ s' t', execute_task o 0%nat s = (Ok 0%nat, s') ∧
           heap s' !! 0%nat = Some t' ∧ executed o general_task t'.
Proof.
  intros o s. exact (execute_task_fields o 0%nat s general_task eq_refl).
Defined.

(** A worker that never succeeds is invoked three times. *)
Lemma execute_task_invocation_bound_witness :
  let o := keyword_orchestrator [("general", broken)] in
  let s := state_of [general_task; general_task] [] in
  ∃ s', execute_task o 0%nat s = (Ok 0%nat, s') ∧
        (invocations 0 (trace s') ≤ invocations 0 (trace s) + 3)%nat ∧
        (dict_get "general" (agents o) = None →
           invocations 0 (trace s') = invocations 0 (trace s)) ∧
        (∀ x, x ≠ 0%nat → invocations x (trace s') = invocations x (trace s)).
Proof.
  intros o s. exact (execute_task_invocation_bound o 0%nat s general_task eq_refl).
Defined.

(** A failed task handed to [execute_task] again. *)
Lemma execute_task_no_attempt_left_witness :
  let o := keyword_orchestrator [("general", scripted)] in
  execute_task o 0%nat (state_of [exhausted_task] []) =
    (Ok 0%nat,
     mkState [with_assigned_agent (Some "general")
                (with_started_at (Some "t0") (with_status Running exhausted_task))]
       [] [] [] [StatusSet 0 Running]).
Proof.
  intros o.
  exact (execute_task_no_attempt_left o scripted 0%nat (state_of [exhausted_task] [])
           exhausted_task eq_refl eq_refl (le_n 3)).
Defined.

(** A worker that is busy once. *)
Lemma execute_task_recovers_witness :
  let o := keyword_orchestrator [("general", scripted)] in
  let s := state_of [general_task] [Threw (Error "busy")] in
  ∃ s' t', execute_task o 0%nat s = (Ok 0%nat, s') ∧
           heap s' !! 0%nat = Some t' ∧ status t' = Completed ∧
           retry_count t' = 1%nat ∧ invocations 0 (trace s') = 2%nat.
Proof.
  intros o s.
  apply (execute_task_recovers o scripted 0%nat s general_task 1 eq_refl eq_refl).
  - simpl. lia.
  - simpl. eexists _, _. split; [reflexivity|]. eexists _, _. reflexivity.
Defined.

(** The two-subtask chain of the keyword fallback, the first worker
    failing throughout. *)
Lemma coordinate_counts_witness :
  let o := keyword_orchestrator [("research", broken); ("writing", scripted)] in
  let task := "research and report" in
  let s1 := (decompose_task o task (state_of [] [])).2 in
  decompose_task o task (state_of [] []) = (Ok [0; 1]%nat, s1) ∧
  ∃ r s',
    coordinate o task (state_of [] []) = (Ok r, s') ∧
    r_total_subtasks r = List.length (r_subtasks r) ∧
    r_total_subtasks r = 2%nat ∧
    r_completed r = List.length (filter (λ d, td_status d = Completed) (r_subtasks r)) ∧
    r_failed r = List.length (filter (λ d, td_status d = Failed) (r_subtasks r)) ∧
    (List.length (filter (λ d, td_status d = Pending) (r_subtasks r)) +
     r_completed r + r_failed r = r_total_subtasks r)%nat ∧
    (r_success r = true ↔ r_completed r = r_total_subtasks r) ∧
    (r_success r = true → r_failed r = 0%nat).
Proof.
  intros o task s1. split; [reflexivity|].
  exact (coordinate_counts o task (state_of [] []) [0; 1]%nat s1 eq_refl).
Defined.

(** A run that starts with an older object and an older history entry. *)
Lemma coordinate_returns_witness :
  let o := keyword_orchestrator [("general", scripted)] in
  let s := state_of [exhausted_task] [] in
  use_llm o = false ∧ dict_keys (agents o) = ["general"] ∧
  ∃ r s',
    coordinate o "tidy up" s = (Ok r, s') ∧
    r_task r = "tidy up" ∧ r_orchestrator_id r = "orchestrator" ∧
    r_started_at r = "t0" ∧
    (1 ≤ r_total_subtasks r ≤ 3)%nat ∧
    execution_history s' = [r] ∧
    get_history s' = (Ok [r], s') ∧
    (∀ x t, heap s !! x = Some t → heap s' !! x = Some t).
Proof.
  intros o s. split; [reflexivity|]. split; [reflexivity|].
  apply (coordinate_returns o "tidy up" s).
  - left. reflexivity.
  - discriminate.
Defined.

Lemma coordinate_prerequisites_first_witness :
  let o := keyword_orchestrator [("research", scripted); ("writing", scripted)] in
  let task := "research and report" in
  let s1 := (decompose_task o task (state_of [] [])).2 in
  decompose_task o task (state_of [] []) = (Ok [0; 1]%nat, s1) ∧
  ∃ r s',
    coordinate o task (state_of [] []) = (Ok r, s') ∧
    Forall (λ d, td_status d ≠ Pending → prerequisites_completed (r_subtasks r) d)
      (r_subtasks r).
Proof.
  intros o task s1. split; [reflexivity|].
  exact (coordinate_prerequisites_first o task (state_of [] []) [0; 1]%nat s1 eq_refl).
Defined.

(** A subtask for which no worker is registered, beside one that waits
    for it. *)
Lemma coordinate_subtask_fields_witness :
  let o := keyword_orchestrator [("writing", scripted)] in
  let task := "research and report" in
  let s1 := (decompose_task o task (state_of [] [])).2 in
  decompose_task o task (state_of [] []) = (Ok [0; 1]%nat, s1) ∧
  ∃ r s', coordinate o task (state_of [] []) = (Ok r, s') ∧ Forall settled (r_subtasks r).
Proof.
  intros o task s1. split; [reflexivity|].
  exact (coordinate_subtask_fields o task (state_of [] []) [0; 1]%nat s1 eq_refl).
Defined.

Lemma coordinate_each_subtask_once_witness :
  let o := keyword_orchestrator [("research", broken); ("writing", scripted)] in
  let task := "research and report" in
  let s := state_of [] [] in
  let s1 := (decompose_task o task s).2 in
  decompose_task o task s = (Ok [0; 1]%nat, s1) ∧
  ∃ r s' evs,
    coordinate o task s = (Ok r, s') ∧ trace s' = trace s ++ evs ∧
    Forall (λ x, ∃ t, heap s' !! x = Some t ∧ once x t evs) [0; 1]%nat.
Proof.
  intros o task s s1. split; [reflexivity|].
  exact (coordinate_each_subtask_once o task s [0; 1]%nat s1 eq_refl).
Defined.

(** The model answers with an empty list. *)
Lemma coordinate_nothing_to_do_witness :
  let s := @mkState blank_env [] tt [] [] [] in
  decompose_task blank_orchestrator "nothing" s = (Ok [], s) ∧
  ∃ r s',
    coordinate blank_orchestrator "nothing" s = (Ok r, s') ∧
    r_subtasks r = [] ∧ r_total_subtasks r = 0%nat ∧ r_final_output r = EmptyString ∧
    r_success r = true ∧ trace s' = trace s ∧ world s' = world s ∧
    (memory blank_orchestrator = true →
     last (memory_log s') =
       Some (StoreFact "Successfully orchestrated: nothing" "orchestrator")).
Proof.
  intros s. split; [reflexivity|].
  exact (coordinate_nothing_to_do blank_orchestrator "nothing" s s eq_refl).
Defined.

(** Two completed subtasks. *)
Lemma coordinate_final_output_witness :
  let o := keyword_orchestrator [("research", scripted); ("writing", scripted)] in
  let task := "research and report" in
  let s1 := (decompose_task o task (state_of [] [])).2 in
  decompose_task o task (state_of [] []) = (Ok [0; 1]%nat, s1) ∧
  ∃ r s',
    coordinate o task (state_of [] []) = (Ok r, s') ∧
    r_final_output r =
      Py.join (nl +:+ nl)
        (output_part <$> filter (λ d, td_status d = Completed) (r_subtasks r)).
Proof.
  intros o task s1. split; [reflexivity|].
  exact (coordinate_final_output o task (state_of [] []) [0; 1]%nat s1 eq_refl).
Defined.

(** The chain with a failing first worker: the run stops with the second
    subtask pending and not ready. *)
Lemma coordinate_leaves_nothing_ready_witness :
  let o := keyword_orchestrator [("research", broken); ("writing", scripted)] in
  let task := "research and report" in
  let s1 := (decompose_task o task (state_of [] [])).2 in
  decompose_task o task (state_of [] []) = (Ok [0; 1]%nat, s1) ∧
  ∃ r s',
    coordinate o task (state_of [] []) = (Ok r, s') ∧
    readySet (heap s') [0; 1]%nat = [] ∧
    get_ready_tasks [0; 1]%nat s' = (Ok [], s').
Proof.
  intros o task s1. split; [reflexivity|].
  apply (coordinate_leaves_nothing_ready o task (state_of [] []) [0; 1]%nat s1 eq_refl).
  unfold max_iterations. simpl. lia.
Defined.
